(** * BugZero search client: query model, pagination and retry policy

    A shallow embedding of [bugzero/types.py], [bugzero/github.py],
    [bugzero/config.py], [bugzero/queries.py] and the handlers of
    [bugzero/cli.py].

    Conventions of the embedding.
    - A Python [str] is a [string]; every [ascii] stands for the code point
      of the same number, so the texts covered are those of the Latin-1
      range (which is also how HTTP header values reach the client).
    - A Python [int] is a [Z].  Clock readings and sleep durations are
      rationals ([Q]): the comparisons of [max] and [min] are exact and the
      rounding of machine floats is left out.  An integer too large for a
      float and a duration too long for a sleep raise as they do in the
      interpreter.
    - A value decoded from JSON is a [value]; [VNone] is Python's [None].
    - [dict]s with string keys that come from JSON are association lists
      (first binding wins); header dictionaries are [gmap]s keyed by the
      lower-cased header name, as the case-insensitive dictionaries of the
      HTTP library are.
    - Code that talks to the network, reads the clock or sleeps runs in
      the monad [M], which threads a [World] and may raise an [exn]. *)

From Stdlib Require Import String Ascii ZArith QArith Qminmax Qpower List Lia Bool DecimalString.
From stdpp Require Import gmap strings sorting.
Import ListNotations.
Open Scope string_scope.
Open Scope list_scope.
Set Warnings "-register-all".

(** ** Python built-ins on text *)

Module PyStr.

(** [str.isspace] for one character of the Latin-1 range: the controls
    TAB..CR and FS..US, the space, NEL and the no-break space. *)
Definition isspace (c : ascii) : bool :=
  let n := N_of_ascii c in
  ((9 <=? n) && (n <=? 13) || (28 <=? n) && (n <=? 32)
   || (n =? 133) || (n =? 160))%N.

(** [str.lower] for one character of the Latin-1 range. *)
Definition lower_char (c : ascii) : ascii :=
  let n := N_of_ascii c in
  if ((65 <=? n) && (n <=? 90)
      || (192 <=? n) && (n <=? 222) && negb (n =? 215))%N
  then ascii_of_N (n + 32) else c.

Fixpoint lower (s : string) : string :=
  match s with
  | EmptyString => EmptyString
  | String c rest => String (lower_char c) (lower rest)
  end.

(** [s.lstrip()], [s.rstrip()] and [s.strip()] without argument. *)
Fixpoint lstrip (s : string) : string :=
  match s with
  | EmptyString => EmptyString
  | String c rest => if isspace c then lstrip rest else s
  end.

Fixpoint rstrip (s : string) : string :=
  match s with
  | EmptyString => EmptyString
  | String c rest =>
      match rstrip rest with
      | EmptyString => if isspace c then EmptyString else String c EmptyString
      | kept => String c kept
      end
  end.

Definition strip (s : string) : string := rstrip (lstrip s).

(** [s.rstrip(chars)] for a one-character [chars]. *)
Fixpoint rstrip_char (x : ascii) (s : string) : string :=
  match s with
  | EmptyString => EmptyString
  | String c rest =>
      match rstrip_char x rest with
      | EmptyString => if Ascii.eqb c x then EmptyString else String c EmptyString
      | kept => String c kept
      end
  end.

(** [s.split()] without argument: the maximal runs of characters that
    are not whitespace.  [tok] is the run being read. *)
Fixpoint split_from (tok : string) (s : string) : list string :=
  match s with
  | EmptyString => if String.eqb tok "" then [] else [tok]
  | String c rest =>
      if isspace c
      then (if String.eqb tok "" then split_from "" rest
            else tok :: split_from "" rest)
      else split_from (tok +:+ String c "") rest
  end.

Definition split (s : string) : list string := split_from "" s.

(** [sep.join(parts)]. *)
Definition join (sep : string) (parts : list string) : string :=
  String.concat sep parts.

(** [needle in hay]. *)
Fixpoint contains (needle hay : string) : bool :=
  String.prefix needle hay
  || match hay with
     | EmptyString => false
     | String _ rest => contains needle rest
     end.

(** Truth value of a [str]. *)
Definition nonempty (s : string) : bool := negb (String.eqb s "").

(** [str(n)] for an [int]. *)
Definition of_int (n : Z) : string := NilZero.string_of_int (Z.to_int n).

(** [int(s)] in base 10: surrounding whitespace, an optional sign, then
    digits, where single underscores may separate digits.  [None] is the
    [ValueError].

    The whitespace that [int] skips is not that of [str.strip]: it is the
    ASCII blanks TAB..CR and the space, and outside ASCII the characters
    that [str.isspace] knows, which in the Latin-1 range are NEL and the
    no-break space; the separators FS, GS, RS and US are refused.  A text
    with more than [MAX_STR_DIGITS] digits is refused too, whatever else
    it holds: this is the interpreter's default limit on the conversion. *)
Definition int_space (c : ascii) : bool :=
  let n := N_of_ascii c in
  ((9 <=? n) && (n <=? 13) || (n =? 32) || (n =? 133) || (n =? 160))%N.

Fixpoint int_lstrip (s : string) : string :=
  match s with
  | EmptyString => EmptyString
  | String c rest => if int_space c then int_lstrip rest else s
  end.

Fixpoint int_rstrip (s : string) : string :=
  match s with
  | EmptyString => EmptyString
  | String c rest =>
      match int_rstrip rest with
      | EmptyString => if int_space c then EmptyString else String c EmptyString
      | kept => String c kept
      end
  end.

Definition MAX_STR_DIGITS : nat := 4300.

Definition digit_value (c : ascii) : option Z :=
  let n := N_of_ascii c in
  if ((48 <=? n) && (n <=? 57))%N then Some (Z.of_N n - 48)%Z else None.

(** [after_digit] tells that the previous character was a digit, so
    that an underscore or the end of the text may follow. *)
Fixpoint digits_from (acc : Z) (after_digit : bool) (s : string) : option Z :=
  match s with
  | EmptyString => if after_digit then Some acc else None
  | String c rest =>
      match digit_value c with
      | Some d => digits_from (10 * acc + d)%Z true rest
      | None =>
          if Ascii.eqb c "_" && after_digit
          then match rest with
               | EmptyString => None
               | String c' _ =>
                   match digit_value c' with
                   | Some _ => digits_from acc false rest
                   | None => None
                   end
               end
          else None
      end
  end.

Fixpoint count_digits (s : string) : nat :=
  match s with
  | EmptyString => 0
  | String c rest =>
      match digit_value c with
      | Some _ => S (count_digits rest)
      | None => count_digits rest
      end
  end.

Definition to_int (s : string) : option Z :=
  let body := int_rstrip (int_lstrip s) in
  if (MAX_STR_DIGITS <? count_digits body)%nat then None
  else
    match body with
    | String "-" rest => option_map Z.opp (digits_from 0 false rest)
    | String "+" rest => digits_from 0 false rest
    | body => digits_from 0 false body
    end.

End PyStr.

(** ** [bugzero/types.py] *)

Definition Qualifier : Type := string * string.

Record QuerySpec := mkQuerySpec {
  query : string;
  qualifiers : list Qualifier
}.

(** One turn of the [for qualifier, value in self.qualifiers] loop of
    [build], on the object [self] and the local list [parts]. *)
Definition build_step (st : QuerySpec * list string) (qv : Qualifier)
  : QuerySpec * list string :=
  let '(self, parts) := st in
  let qualifier := PyStr.strip (fst qv) in
  let value := PyStr.strip (snd qv) in
  if negb (PyStr.nonempty qualifier) then (self, parts)
  else
    let token := if negb (PyStr.nonempty value) then qualifier
                 else qualifier +:+ ":" +:+ value in
    (self, parts ++ [token]).

(** [QuerySpec.build] with the receiver threaded through the body: the
    returned pair is the built text and the object as the call leaves it. *)
Definition build_run (self : QuerySpec) : string * QuerySpec :=
  let parts := [] in
  let query_text := PyStr.join " " (PyStr.split (query self)) in
  let parts := if PyStr.nonempty query_text then parts ++ [query_text] else parts in
  let '(self, parts) := fold_left build_step (qualifiers self) (self, parts) in
  (PyStr.join " " parts, self).

Definition build (self : QuerySpec) : string := fst (build_run self).

(** ** Python values decoded from JSON *)

Inductive value :=
| VNone
| VBool (b : bool)
| VInt (n : Z)
| VFloat (x : Q)
| VStr (s : string)
| VList (elems : list value)
| VDict (fields : list (string * value)).

(** Exceptions that the modelled code can raise or let through. *)
Inductive exn :=
| GitHubAPIError (message : string)
| AttributeError
| TypeError
| KeyError
| IndexError
| ValueError
| JSONDecodeError
| RequestException
| OverflowError
| OSError
| UnicodeDecodeError.

(** The outcome of a call: a returned value or a raised exception. *)
Inductive Outcome (A : Type) :=
| Return (a : A)
| Raise (e : exn).
Arguments Return {A} a.
Arguments Raise {A} e.

Definition obind {A B} (o : Outcome A) (k : A -> Outcome B) : Outcome B :=
  match o with
  | Return a => k a
  | Raise e => Raise e
  end.

Module PyVal.

(** Truth value of an object, as [if x] and [x or y] test it. *)
Definition truthy (v : value) : bool :=
  match v with
  | VNone => false
  | VBool b => b
  | VInt n => negb (n =? 0)%Z
  | VFloat x => negb (Qeq_bool x 0)
  | VStr s => PyStr.nonempty s
  | VList elems => match elems with [] => false | _ => true end
  | VDict fields => match fields with [] => false | _ => true end
  end.

(** [a or b]. *)
Definition or_else (a b : value) : value := if truthy a then a else b.

(** Lookup in a [dict] decoded from JSON. *)
Fixpoint lookup (key : string) (fields : list (string * value)) : option value :=
  match fields with
  | [] => None
  | (k, v) :: rest => if String.eqb k key then Some v else lookup key rest
  end.

(** [obj.get(key, default)]: only a [dict] has the method. *)
Definition get (obj : value) (key : string) (default : value) : Outcome value :=
  match obj with
  | VDict fields =>
      Return (match lookup key fields with Some v => v | None => default end)
  | _ => Raise AttributeError
  end.

(** [obj[0]]: a JSON [dict] has only text keys. *)
Definition first (obj : value) : Outcome value :=
  match obj with
  | VList (x :: _) => Return x
  | VList [] => Raise IndexError
  | VStr (String c _) => Return (VStr (String c ""))
  | VStr EmptyString => Raise IndexError
  | VDict _ => Raise KeyError
  | _ => Raise TypeError
  end.

Fixpoint chars (s : string) : list value :=
  match s with
  | EmptyString => []
  | String c rest => VStr (String c "") :: chars rest
  end.

(** The elements that [for x in obj] visits. *)
Definition iterate (obj : value) : Outcome (list value) :=
  match obj with
  | VList elems => Return elems
  | VDict fields => Return (map (fun kv => VStr (fst kv)) fields)
  | VStr s => Return (chars s)
  | _ => Raise TypeError
  end.

(** [len(obj)]. *)
Definition len (obj : value) : Outcome Z :=
  match obj with
  | VList elems => Return (Z.of_nat (length elems))
  | VDict fields => Return (Z.of_nat (length fields))
  | VStr s => Return (Z.of_nat (String.length s))
  | _ => Raise TypeError
  end.

(** [str(obj)] as an f-string inserts it.  [repr] stands for the
    interpreter's rendering of floats and containers. *)
Definition str (repr : value -> string) (obj : value) : string :=
  match obj with
  | VNone => "None"
  | VBool true => "True"
  | VBool false => "False"
  | VInt n => PyStr.of_int n
  | VStr s => s
  | other => repr other
  end.

End PyVal.

(** [range(lo, hi)]. *)
Definition range (lo hi : Z) : list Z :=
  map (fun i => (lo + Z.of_nat i)%Z) (seq 0 (Z.to_nat (hi - lo))).

(** ** [SearchResult] and the item parser of [bugzero/github.py] *)

Record SearchResult := mkSearchResult {
  repository : value;
  path : value;
  url : value;
  score : value;
  snippet : value
}.

(** The body of the [for item in items] loop of [_parse_items]. *)
Definition parse_item (item : value) : Outcome SearchResult :=
  obind (PyVal.get item "repository" (VDict [])) (fun repo =>
  obind (PyVal.get item "text_matches" VNone) (fun found =>
  let text_matches := PyVal.or_else found (VList []) in
  obind (if PyVal.truthy text_matches
         then obind (PyVal.first text_matches)
                    (fun entry => PyVal.get entry "fragment" VNone)
         else Return VNone) (fun snippet =>
  obind (PyVal.get repo "full_name" (VStr "unknown/repo")) (fun full_name =>
  obind (PyVal.get item "path" (VStr "")) (fun path =>
  obind (PyVal.get item "html_url" (VStr "")) (fun url =>
  obind (PyVal.get item "score" VNone) (fun found_score =>
  Return {| repository := full_name;
            path := path;
            url := url;
            score := PyVal.or_else found_score (VFloat 0);
            snippet := snippet |}))))))).

Fixpoint parse_each (parsed : list SearchResult) (items : list value)
  : Outcome (list SearchResult) :=
  match items with
  | [] => Return parsed
  | item :: rest =>
      obind (parse_item item) (fun r => parse_each (parsed ++ [r]) rest)
  end.

Definition _parse_items (items : value) : Outcome (list SearchResult) :=
  obind (PyVal.iterate items) (parse_each []).

(** ** The HTTP library as the client sees it *)

(** Header dictionaries ignore the case of names: the key is the
    lower-cased name. *)
Definition header_get (h : gmap string string) (name : string) : option string :=
  h !! PyStr.lower name.

Definition header_set (name val : string) (h : gmap string string)
  : gmap string string :=
  <[PyStr.lower name := val]> h.

(** A response object: [status_code], [text], [headers], and what the
    method [json()] does, [None] standing for its [ValueError]. *)
Record Response := mkResponse {
  status_code : Z;
  text : string;
  headers : gmap string string;
  json : option value
}.

(** The [params] dictionary of a search request. *)
Record Params := mkParams {
  param_q : string;
  param_per_page : Z;
  param_page : Z
}.

(** A request as it leaves the session: [sent_headers] are the session's
    headers updated with those given to the call. *)
Record Request := mkRequest {
  sent_url : string;
  sent_params : Params;
  sent_headers : gmap string string;
  sent_timeout : Z
}.

Record Session := mkSession {
  session_headers : gmap string string
}.

(** What the network does with a request: a response, or a failure that
    [session.get] raises. *)
Inductive Reply :=
| Replied (r : Response)
| Failed.

(** What the program does to its surroundings, in order. *)
Inductive Event :=
| Sent (r : Request)
| Slept (d : Q).

(** The surroundings of the client: what [time.time()] reads after the
    events so far, whether the timer of the machine takes a sleep of a
    given length after them, and the events so far.  A request, a sleep
    and whatever lies between them take time, so the clock is a function
    of what has happened, and no reading is tied to the one before it. *)
Record World := mkWorld {
  clock : list Event -> Q;
  timer : list Event -> Q -> bool;
  trace : list Event
}.

(** The reading of the clock in a world. *)
Definition now (w : World) : Q := clock w (trace w).

Definition requests_of (t : list Event) : list Request :=
  flat_map (fun e => match e with Sent r => [r] | Slept _ => [] end) t.

(** The page numbers of the requests of a trace, in order. *)
Definition pages_asked (t : list Event) : list Z :=
  map (fun r => param_page (sent_params r)) (requests_of t).

Definition sleeps_of (t : list Event) : list Q :=
  flat_map (fun e => match e with Sent _ => [] | Slept d => [d] end) t.

(** ** The monad of effectful code *)

Definition M (A : Type) : Type := World -> Outcome A * World.

Definition ret {A} (a : A) : M A := fun w => (Return a, w).

Definition raise {A} (e : exn) : M A := fun w => (Raise e, w).

Definition bind {A B} (c : M A) (k : A -> M B) : M B :=
  fun w =>
    match c w with
    | (Return a, w') => k a w'
    | (Raise e, w') => (Raise e, w')
    end.

Definition lift {A} (o : Outcome A) : M A := fun w => (o, w).

Declare Scope py_scope.
Delimit Scope py_scope with py.
Notation "x <- c ;; k" := (bind c (fun x => k))
  (at level 100, c at next level, right associativity) : py_scope.
Notation "c ;;; k" := (bind c (fun _ => k))
  (at level 100, right associativity) : py_scope.
Open Scope py_scope.

(** [time.time()]. *)
Definition time_time : M Q := fun w => (Return (now w), w).

(** The longest and the shortest duration, in seconds, whose nanoseconds
    fit the signed 64-bit integer that [time.sleep] converts its argument
    to. *)
Definition SLEEP_MAX : Q := 9223372036854775807 # 1000000000.
Definition SLEEP_MIN : Q := -9223372036854775808 # 1000000000.

(** [time.sleep(d)]: a duration that does not fit is an [OverflowError]
    and a negative one a [ValueError]; a duration that fits but that the
    timer of the machine refuses, its deadline lying beyond what the
    operating system counts, is an [OSError]; otherwise the sleep takes
    place. *)
Definition time_sleep (d : Q) : M unit :=
  fun w =>
    if Qle_bool SLEEP_MIN d && Qle_bool d SLEEP_MAX then
      if Qle_bool 0 d then
        if timer w (trace w) d
        then (Return tt,
              {| clock := clock w; timer := timer w;
                 trace := trace w ++ [Slept d] |})
        else (Raise OSError, w)
      else (Raise ValueError, w)
    else (Raise OverflowError, w).

(** ** [bugzero/github.py] *)

Definition DEFAULT_BASE_URL : string := "https://api.github.com".
Definition SEARCH_ENDPOINT : string := "/search/code".
Definition DEFAULT_TIMEOUT : Z := 15.
Definition MAX_RETRIES : Z := 3.

Definition TEXT_MATCH : string := "application/vnd.github.v3.text-match+json".

Record GitHubSearchClient := mkClient {
  base_url : string;
  session : Session
}.

(** [GitHubSearchClient.__init__]; [fresh] is what [requests.Session()]
    builds when no session is given. *)
Definition __init__ (fresh : Session) (token : string) (base_url : string)
    (user_agent : string) (session : option Session) : GitHubSearchClient :=
  let chosen := match session with Some s => s | None => fresh end in
  {| base_url := PyStr.rstrip_char "/" base_url;
     session :=
       {| session_headers :=
            header_set "User-Agent" user_agent
              (header_set "Accept" TEXT_MATCH
                 (header_set "Authorization" ("token " +:+ token)
                    (session_headers chosen))) |} |}.

Definition _is_rate_limited (response : Response) : bool :=
  if PyStr.contains "rate limit" (PyStr.lower (text response)) then true
  else
    let remaining := header_get (headers response) "X-RateLimit-Remaining" in
    match remaining with
    | Some r => String.eqb r "0"
    | None => false
    end.

(** An [int] of this magnitude or more does not convert to a [float]:
    the subtraction of a [float] from it is an [OverflowError]. *)
Definition FLOAT_LIMIT : Z := 2 ^ 1024 - 2 ^ 970.

Definition _retry_after (response : Response) (attempt : Z) : M Q :=
  let reset_header := header_get (headers response) "X-RateLimit-Reset" in
  let fallback := ret (Qmin (Qpower 2 attempt) 60) in
  match reset_header with
  | Some h =>
      if PyStr.nonempty h
      then match PyStr.to_int h with
           | Some reset_time =>
               t <- time_time ;;
               if (Z.abs reset_time <? FLOAT_LIMIT)%Z
               then ret (Qmax (inject_Z reset_time - t) 1)
               else raise OverflowError
           | None => fallback
           end
      else fallback
  | None => fallback
  end.

Definition _extract_error_message (response : Response) : Outcome value :=
  match json response with
  | Some payload => PyVal.get payload "message" (VStr (text response))
  | None => Return (VStr (text response))
  end.

Section Client.

(** The network: the reply to a request, given everything that
    happened before it. *)
Variable remote : list Event -> Request -> Reply.

(** The interpreter's [str] of floats and containers. *)
Variable repr : value -> string.

(** [self.session.get(url, params=..., headers=..., timeout=...)]. *)
Definition session_get (s : Session) (url : string) (params : Params)
    (extra : gmap string string) (timeout : Z) : M Response :=
  fun w =>
    let request := {| sent_url := url;
                      sent_params := params;
                      sent_headers := extra ∪ session_headers s;
                      sent_timeout := timeout |} in
    let w' := {| clock := clock w; timer := timer w;
                 trace := trace w ++ [Sent request] |} in
    match remote (trace w) request with
    | Replied response => (Return response, w')
    | Failed => (Raise RequestException, w')
    end.

(** [response.json()]. *)
Definition response_json (response : Response) : M value :=
  match json response with
  | Some payload => ret payload
  | None => raise JSONDecodeError
  end.

(** The [for attempt in range(1, MAX_RETRIES + 1)] loop of
    [_request_with_retry] over the attempts still to make, and the
    [raise] that follows it. *)
Fixpoint retry_loop (self : GitHubSearchClient) (params : Params)
    (extra_headers : gmap string string) (attempts : list Z) : M value :=
  match attempts with
  | [] => raise (GitHubAPIError "Retry limit exceeded while calling GitHub API")
  | attempt :: rest =>
      response <- session_get (session self) (base_url self +:+ SEARCH_ENDPOINT)
                    params extra_headers DEFAULT_TIMEOUT ;;
      if (status_code response =? 200)%Z then response_json response
      else if (status_code response =? 403)%Z && _is_rate_limited response then
        wait_seconds <- _retry_after response attempt ;;
        time_sleep wait_seconds ;;;
        retry_loop self params extra_headers rest
      else if (status_code response =? 401)%Z then
        raise (GitHubAPIError "GitHub rejected the token (401 Unauthorized)")
      else
        message <- lift (_extract_error_message response) ;;
        raise (GitHubAPIError
                 ("GitHub API error " +:+ PyStr.of_int (status_code response)
                  +:+ ": " +:+ PyVal.str repr message))
  end.

Definition _request_with_retry (self : GitHubSearchClient) (params : Params)
    (extra_headers : gmap string string) : M value :=
  retry_loop self params extra_headers (range 1 (MAX_RETRIES + 1)).

(** The [for page in range(1, pages + 1)] loop of [search_code] over
    the pages still to fetch, and the [return] that follows it. *)
Fixpoint page_loop (self : GitHubSearchClient) (query : QuerySpec)
    (per_page : Z) (headers : gmap string string)
    (pages : list Z) (results : list SearchResult) : M (list SearchResult) :=
  match pages with
  | [] => ret results
  | page :: rest =>
      let params := {| param_q := build query;
                       param_per_page := per_page;
                       param_page := page |} in
      payload <- _request_with_retry self params headers ;;
      items <- lift (PyVal.get payload "items" (VList [])) ;;
      parsed <- lift (_parse_items items) ;;
      let results := results ++ parsed in
      count <- lift (PyVal.len items) ;;
      if (count <? per_page)%Z then ret results
      else page_loop self query per_page headers rest results
  end.

Definition search_code (self : GitHubSearchClient) (query : QuerySpec)
    (per_page : Z) (pages : Z) (text_matches : bool) : M (list SearchResult) :=
  let headers : gmap string string :=
    if text_matches then header_set "Accept" TEXT_MATCH ∅ else ∅ in
  page_loop self query per_page headers (range 1 (pages + 1)) [].

End Client.

(** ** Definitions that the properties are stated with

    The wording of the specification as definitions to compare the code
    with, and names for the requests, worlds and networks of the
    statements. *)

Module Spec.

(** The query text split on any whitespace and rejoined with single
    spaces. *)
Definition normalized (q : string) : string := PyStr.join " " (PyStr.split q).

(** The segment of one qualifier: none when the key strips to empty,
    the bare key when the value strips to empty, else [key:value]. *)
Definition rendered (qv : Qualifier) : list string :=
  let key := PyStr.strip (fst qv) in
  let val := PyStr.strip (snd qv) in
  if String.eqb key "" then []
  else if String.eqb val "" then [key]
  else [key +:+ ":" +:+ val].

Definition built (spec : QuerySpec) : string :=
  PyStr.join " "
    ((if String.eqb (normalized (query spec)) "" then []
      else [normalized (query spec)])
     ++ flat_map rendered (qualifiers spec)).

(** A text without whitespace. *)
Fixpoint solid (s : string) : bool :=
  match s with
  | EmptyString => true
  | String c rest => negb (PyStr.isspace c) && solid rest
  end.

(** A text with its whitespace taken out. *)
Fixpoint squeezed (s : string) : string :=
  match s with
  | EmptyString => EmptyString
  | String c rest =>
      if PyStr.isspace c then squeezed rest else String c (squeezed rest)
  end.

(** The reset timestamp of a response: the [X-RateLimit-Reset] header,
    when it is present and parses as an integer. *)
Definition reset_timestamp (response : Response) : option Z :=
  match header_get (headers response) "X-RateLimit-Reset" with
  | Some h => PyStr.to_int h
  | None => None
  end.

(** The backoff policy, [t] being the current time. *)
Definition wait (reset : option Z) (attempt : Z) (t : Q) : Q :=
  match reset with
  | Some reset_time => Qmax (inject_Z reset_time - t) 1
  | None => Qmin (Qpower 2 attempt) 60
  end.

(** The rate-limited condition on a response. *)
Definition rate_limited (response : Response) : Prop :=
  PyStr.contains "rate limit" (PyStr.lower (text response)) = true
  \/ header_get (headers response) "X-RateLimit-Remaining" = Some "0".

(** The request that one HTTP call of the client puts on the wire. *)
Definition request_for (self : GitHubSearchClient) (params : Params)
    (extra : gmap string string) : Request :=
  {| sent_url := base_url self +:+ SEARCH_ENDPOINT;
     sent_params := params;
     sent_headers := extra ∪ session_headers (session self);
     sent_timeout := DEFAULT_TIMEOUT |}.

Definition page_params (q : QuerySpec) (per_page page : Z) : Params :=
  {| param_q := build q; param_per_page := per_page; param_page := page |}.

(** The headers that [search_code] gives to each call. *)
Definition call_headers (text_matches : bool) : gmap string string :=
  if text_matches then header_set "Accept" TEXT_MATCH ∅ else ∅.

Definition page_request (self : GitHubSearchClient) (q : QuerySpec)
    (per_page : Z) (text_matches : bool) (page : Z) : Request :=
  request_for self (page_params q per_page page) (call_headers text_matches).

(** One turn of the page loop up to its test: the request for [page],
    the items of the reply parsed, and their number. *)
Definition fetch_page (remote : list Event -> Request -> Reply)
    (repr : value -> string) (self : GitHubSearchClient) (q : QuerySpec)
    (per_page : Z) (headers : gmap string string) (page : Z)
  : M (list SearchResult * Z) :=
  payload <- _request_with_retry remote repr self
               (page_params q per_page page) headers ;;
  items <- lift (PyVal.get payload "items" (VList [])) ;;
  parsed <- lift (_parse_items items) ;;
  count <- lift (PyVal.len items) ;;
  ret (parsed, count).

(** The world after one more request has gone out. *)
Definition after_send (w : World) (r : Request) : World :=
  {| clock := clock w; timer := timer w; trace := trace w ++ [Sent r] |}.

(** The world after a sleep of [d]. *)
Definition after_sleep (w : World) (d : Q) : World :=
  {| clock := clock w; timer := timer w; trace := trace w ++ [Slept d] |}.

(** The world after the events [evs]. *)
Definition after (w : World) (evs : list Event) : World :=
  {| clock := clock w; timer := timer w; trace := trace w ++ evs |}.

(** The reset timestamp of the response, when there is one, converts to
    a float. *)
Definition floats (response : Response) : Prop :=
  match reset_timestamp response with
  | Some reset_time => (Z.abs reset_time < FLOAT_LIMIT)%Z
  | None => True
  end.

(** The machine takes a sleep of [d] in the world [w]: the duration fits
    and the timer accepts it. *)
Definition sleeps (w : World) (d : Q) : Prop :=
  (d <= SLEEP_MAX)%Q /\ timer w (trace w) d = true.

(** What becomes of a wait of [d] in the world [w]: it is slept, or
    sleeping it raises. *)
Definition slept (w : World) (d : Q) : Outcome Q :=
  if Qle_bool d SLEEP_MAX
  then if timer w (trace w) d then Return d else Raise OSError
  else Raise OverflowError.

(** What becomes of a rate-limited 403 received at an attempt, [w] being
    the world once the request has gone out: the wait that is slept, or
    the exception that computing or sleeping it raises. *)
Definition pause (response : Response) (attempt : Z) (w : World) : Outcome Q :=
  match reset_timestamp response with
  | Some reset_time =>
      if (Z.abs reset_time <? FLOAT_LIMIT)%Z
      then slept w (Qmax (inject_Z reset_time - now w) 1)
      else Raise OverflowError
  | None => slept w (Qmin (Qpower 2 attempt) 60)
  end.

(** A text that holds nothing but whitespace. *)
Fixpoint blank (s : string) : bool :=
  match s with
  | EmptyString => true
  | String c rest => PyStr.isspace c && blank rest
  end.

(** The words of a text: its maximal runs of characters that are not
    whitespace, in their order.  Each word comes after a gap of whitespace,
    empty at most in front of the first, and ends at whitespace or at the
    end of the text. *)
Inductive words : string -> list string -> Prop :=
| words_nil s : blank s = true -> words s []
| words_cons gap tok rest ts :
    blank gap = true ->
    tok <> EmptyString ->
    solid tok = true ->
    match rest with
    | EmptyString => True
    | String c _ => PyStr.isspace c = true
    end ->
    words rest ts ->
    words (gap +:+ tok +:+ rest) (tok :: ts).

Section Turns.

(** The retry-wrapped request for a page. *)
Variable turn : Z -> M value.

Variable per_page : Z.

(** The page [p], asked for in the world [w], comes back as a payload
    whose [items] parse to the records [parsed] and number [count]; the
    world is then [w1]. *)
Definition page_ok (p : Z) (w : World) (parsed : list SearchResult) (count : Z)
    (w1 : World) : Prop :=
  exists payload items,
    turn p w = (Return payload, w1)
    /\ PyVal.get payload "items" (VList []) = Return items
    /\ _parse_items items = Return parsed
    /\ PyVal.len items = Return count.

(** The page [p], asked for in the world [w], fails with [e] and leaves
    the world [w1]: the request raises [e], or it returns a payload from
    which the items cannot be taken, parsed or counted. *)
Definition page_fails (p : Z) (w : World) (e : exn) (w1 : World) : Prop :=
  turn p w = (Raise e, w1)
  \/ exists payload,
       turn p w = (Return payload, w1)
       /\ (PyVal.get payload "items" (VList []) = Raise e
           \/ exists items,
                PyVal.get payload "items" (VList []) = Return items
                /\ (_parse_items items = Raise e
                    \/ (exists parsed, _parse_items items = Return parsed)
                       /\ PyVal.len items = Raise e)).

(** The pages of a list, asked for one after the other from the world
    [w], all come back with at least [per_page] items; their records, page
    after page, are [gathered], and the world is then [w']. *)
Inductive full_pages : list Z -> World -> list SearchResult -> World -> Prop :=
| full_pages_nil (w : World) : full_pages [] w [] w
| full_pages_cons (p : Z) (rest : list Z) (w w1 w2 : World)
    (parsed more : list SearchResult) (count : Z) :
    page_ok p w parsed count w1 ->
    (per_page <= count)%Z ->
    full_pages rest w1 more w2 ->
    full_pages (p :: rest) w (parsed ++ more) w2.

End Turns.

(** The pages to fetch, among [pages] in that order, when [size p] is
    the number of items on page [p]: all up to and including the first
    one that has fewer than [per_page] items. *)
Fixpoint fetched (per_page : Z) (size : Z -> Z) (pages : list Z) : list Z :=
  match pages with
  | [] => []
  | p :: rest =>
      if (size p <? per_page)%Z then [p] else p :: fetched per_page size rest
  end.

(** A network that answers every request with a 200 whose body decodes
    to a JSON object holding [page_items p] under [items], [p] being the
    requested page. *)
Definition serves (remote : list Event -> Request -> Reply)
    (page_items : Z -> list value) : Prop :=
  forall t req, exists resp payload,
    remote t req = Replied resp
    /\ status_code resp = 200%Z
    /\ json resp = Some payload
    /\ PyVal.get payload "items" (VList [])
       = Return (VList (page_items (param_page (sent_params req)))).

(** A network whose replies to the calls made after the events [t0] are
    those of [replies], in order, whatever the pauses between calls. *)
Definition answers (remote : list Event -> Request -> Reply)
    (t0 : list Event) (replies : list Reply) : Prop :=
  forall evs req rep,
    nth_error replies (length (requests_of evs)) = Some rep ->
    remote (t0 ++ evs) req = rep.

(** The [message] field of a decoded body. *)
Definition message_field (payload : value) : option value :=
  match payload with
  | VDict fields => PyVal.lookup "message" fields
  | _ => None
  end.

(** The message of an error response read to the letter: the [message]
    field of the body when the body decodes, which is [None] for a body
    without that field, and the raw text when the body does not decode. *)
Definition claimed_message (repr : value -> string) (response : Response)
  : string :=
  match json response with
  | Some payload =>
      PyVal.str repr
        match message_field payload with
        | Some v => v
        | None => VNone
        end
  | None => text response
  end.

(** The value of [key] in an item, or [default]. *)
Definition field_or (default : value) (key : string)
    (fields : list (string * value)) : value :=
  match PyVal.lookup key fields with
  | Some v => v
  | None => default
  end.

(** The record that the parsing rule assigns to an item. *)
Definition result_of (fields : list (string * value)) : SearchResult :=
  {| repository :=
       match PyVal.lookup "repository" fields with
       | Some (VDict repo) => field_or (VStr "unknown/repo") "full_name" repo
       | _ => VStr "unknown/repo"
       end;
     path := field_or (VStr "") "path" fields;
     url := field_or (VStr "") "html_url" fields;
     score :=
       match PyVal.lookup "score" fields with
       | Some v => if PyVal.truthy v then v else VFloat 0
       | None => VFloat 0
       end;
     snippet :=
       match PyVal.lookup "text_matches" fields with
       | Some (VList (VDict entry :: _)) => field_or VNone "fragment" entry
       | _ => VNone
       end |}.

(** The fields of an item that are present have the shape that the
    search API gives them: [repository] is an object, and [text_matches]
    is empty (or another value that counts as false) or an array whose
    first entry is an object. *)
Definition well_shaped (fields : list (string * value)) : Prop :=
  match PyVal.lookup "repository" fields with
  | None | Some (VDict _) => True
  | Some _ => False
  end
  /\ match PyVal.lookup "text_matches" fields with
     | None | Some (VList (VDict _ :: _)) => True
     | Some v => PyVal.truthy v = false
     end.

Definition item_ok (item : value) : Prop :=
  match item with
  | VDict fields => well_shaped fields
  | _ => False
  end.

Definition item_result (item : value) : SearchResult :=
  match item with
  | VDict fields => result_of fields
  | _ => result_of []
  end.

End Spec.

(** ** Concrete clients, responses and networks *)

Module Scenario.

Definition dq : string := String (ascii_of_N 34) "".

Definition client : GitHubSearchClient :=
  __init__ (mkSession ∅) "t0ken" DEFAULT_BASE_URL "BugZero/0.1" None.

(** A machine whose clock starts at 1700000000 and moves with the sleeps
    only, and whose timer takes every sleep. *)
Definition start : World :=
  {| clock := fun t => fold_right Qplus 1700000000%Q (sleeps_of t);
     timer := fun _ _ => true;
     trace := [] |}.

(** The same machine with a network on which every request takes half a
    second. *)
Definition slow : World :=
  {| clock := fun t =>
       (fold_right Qplus 1700000000 (sleeps_of t)
        + inject_Z (Z.of_nat (length (requests_of t))) / 2)%Q;
     timer := fun _ _ => true;
     trace := [] |}.

Definition leak_query : QuerySpec :=
  mkQuerySpec "memory leak" [("language", "go")].

Definition leak_params : Params := Spec.page_params leak_query 30 1.

(** A 403 whose text names the rate limit. *)
Definition limited_by_text : Response :=
  {| status_code := 403;
     text := "API rate limit exceeded for user";
     headers := ∅;
     json := None |}.

(** A 403 with no quota left and a reset time three seconds ahead. *)
Definition limited_by_header : Response :=
  {| status_code := 403;
     text := "Forbidden";
     headers := header_set "X-RateLimit-Reset" "1700000003"
                  (header_set "X-RateLimit-Remaining" "0" ∅);
     json := None |}.

(** A 403 that names the rate limit, with a reset time in milliseconds:
    three seconds ahead if read as such, some fifty thousand years ahead
    read as seconds. *)
Definition limited_reset_in_ms : Response :=
  {| status_code := 403;
     text := "API rate limit exceeded for user";
     headers := header_set "X-RateLimit-Reset" "1700000003000" ∅;
     json := None |}.

(** The decimal text of 10^309. *)
Definition googol_cubed : string := "1" +:+ String.concat "" (repeat "0" 309).

(** A 403 with no quota left and a reset time beyond every float. *)
Definition limited_reset_too_large : Response :=
  {| status_code := 403;
     text := "Forbidden";
     headers := header_set "X-RateLimit-Reset" googol_cubed
                  (header_set "X-RateLimit-Remaining" "0" ∅);
     json := None |}.

(** A 403 that names the rate limit, with a reset header that is not a
    number. *)
Definition limited_bad_reset : Response :=
  {| status_code := 403;
     text := "Rate limit hit";
     headers := header_set "X-RateLimit-Reset" "soon" ∅;
     json := None |}.

Definition unauthorized : Response :=
  {| status_code := 401; text := "Bad credentials"; headers := ∅; json := None |}.

(** A 404 whose body is the empty JSON object. *)
Definition not_found_empty_object : Response :=
  {| status_code := 404; text := "{}"; headers := ∅; json := Some (VDict []) |}.

(** A 422 whose body is a JSON object with a [message]. *)
Definition unprocessable : Response :=
  {| status_code := 422;
     text := "{" +:+ dq +:+ "message" +:+ dq +:+ ": "
             +:+ dq +:+ "Validation Failed" +:+ dq +:+ "}";
     headers := ∅;
     json := Some (VDict [("message", VStr "Validation Failed")]) |}.

(** A 502 whose body is the JSON array [[]]. *)
Definition bad_gateway_array : Response :=
  {| status_code := 502; text := "[]"; headers := ∅; json := Some (VList []) |}.

(** A 200 whose [items] are [n] empty objects. *)
Definition page_of (n : nat) : Response :=
  {| status_code := 200;
     text := "{" +:+ dq +:+ "items" +:+ dq +:+ ": ["
             +:+ String.concat ", " (repeat "{}" n) +:+ "]}";
     headers := ∅;
     json := Some (VDict [("items", VList (repeat (VDict []) n))]) |}.

(** The network that gives the replies of a script, call after call,
    and fails once the script is over. *)
Definition script (replies : list Reply) : list Event -> Request -> Reply :=
  fun t _ => nth (length (requests_of t)) replies Failed.

(** The network that answers a request for page [p] with [page p]. *)
Definition paged (page : Z -> Response) : list Event -> Request -> Reply :=
  fun _ req => Replied (page (param_page (sent_params req))).

(** Thirty items on page 1, twelve on page 2, none after. *)
Definition two_pages_items (p : Z) : list value :=
  if (p =? 1)%Z then repeat (VDict []) 30
  else if (p =? 2)%Z then repeat (VDict []) 12
  else [].

Definition two_pages (p : Z) : Response :=
  if (p =? 1)%Z then page_of 30
  else if (p =? 2)%Z then page_of 12
  else page_of 0.

(** Page 1 is full, page 2 is a 500 with a text body. *)
Definition second_page_broken (p : Z) : Response :=
  if (p =? 1)%Z then page_of 30
  else {| status_code := 500; text := "boom"; headers := ∅; json := None |}.

(** Page 1 is full, page 2 has twelve items. *)
Definition thirty_then_twelve : list Reply :=
  [Replied (page_of 30); Replied limited_by_text; Replied (page_of 12)].

Definition plain_repr (v : value) : string := "".

(** An item with every field, one with an empty [text_matches] and a
    zero score, and one with nothing. *)
Definition item_full : value :=
  VDict [("repository", VDict [("full_name", VStr "octo/cat")]);
         ("path", VStr "src/leak.go");
         ("html_url", VStr "https://example.test/octo/cat/src/leak.go");
         ("score", VFloat 1);
         ("text_matches", VList [VDict [("fragment", VStr "leak here")]])].

Definition item_bare : value :=
  VDict [("text_matches", VList []); ("score", VInt 0)].

Definition item_empty : value := VDict [].

(** One retry-wrapped request of [client], from [start], against the
    network that follows a script. *)
Definition call (replies : list Reply) : Outcome value * World :=
  _request_with_retry (script replies) plain_repr client leak_params ∅ start.

(** One search of [client], from [slow], against the network that
    follows a script. *)
Definition scripted_search (replies : list Reply) (per_page pages : Z)
  : Outcome (list SearchResult) * World :=
  search_code (script replies) plain_repr client leak_query per_page pages
    true slow.

(** The query "memory leak" with a tab, a newline and spaces around its
    words, and qualifiers with padding, a blank key and a blank value. *)
Definition tab : string := String (ascii_of_N 9) "".

Definition newline : string := String (ascii_of_N 10) "".

Definition padded_query : string :=
  "  memory " +:+ tab +:+ " leak" +:+ newline.

Definition padded_go : string := tab +:+ "go" +:+ newline.

Definition padded_qualifiers : list Qualifier :=
  [(" language ", padded_go); ("  ", "x"); ("stars", "  ")].

(** An item whose [repository] is null, and one whose first text match
    is null. *)
Definition item_null_repository : value := VDict [("repository", VNone)].

Definition item_null_match : value := VDict [("text_matches", VList [VNone])].

(** One search of [client], from [start], against a paged network. *)
Definition search (page : Z -> Response) (per_page pages : Z)
    (text_matches : bool) : Outcome (list SearchResult) * World :=
  search_code (paged page) plain_repr client leak_query per_page pages
    text_matches start.

End Scenario.

(** ** Further definitions for the properties of the retry loop *)

(** The retry-limit error of [_request_with_retry]. *)
Definition RETRY_LIMIT : exn :=
  GitHubAPIError "Retry limit exceeded while calling GitHub API".

(** A response that the retry loop sleeps on. *)
Definition retried (r : Response) : bool :=
  (status_code r =? 403)%Z && _is_rate_limited r.

(** More concrete replies. *)
Module Sample.

(** A 200 whose body is the JSON array [[]]. *)
Definition ok_array : Response :=
  {| status_code := 200; text := "[]"; headers := ∅; json := Some (VList []) |}.

(** A 200 whose body is a JSON object with [items] null. *)
Definition ok_null_items : Response :=
  {| status_code := 200;
     text := "{" +:+ Scenario.dq +:+ "items" +:+ Scenario.dq +:+ ": null}";
     headers := ∅;
     json := Some (VDict [("items", VNone)]) |}.

(** A 200 whose body is not JSON. *)
Definition ok_garbage : Response :=
  {| status_code := 200; text := "<html>"; headers := ∅; json := None |}.

End Sample.

(** ** More Python built-ins on text *)

Module PyText.

(** The newline character. *)
Definition nl : string := String (ascii_of_N 10) "".

(** [s.split(sep, 1)] for a one-character [sep]: the text before the
    first [sep] and the text after it, or the text alone. *)
Fixpoint cut (sep : ascii) (s : string) : option (string * string) :=
  match s with
  | EmptyString => None
  | String c rest =>
      if Ascii.eqb c sep then Some (EmptyString, rest)
      else match cut sep rest with
           | Some (before, after) => Some (String c before, after)
           | None => None
           end
  end.

Definition split_max1 (sep : ascii) (s : string) : list string :=
  match cut sep s with
  | Some (before, after) => [before; after]
  | None => [s]
  end.

(** The characters that end a line for [str.splitlines], in the Latin-1
    range: LF, VT, FF, CR, FS, GS, RS and NEL. *)
Definition is_linebreak (c : ascii) : bool :=
  let n := N_of_ascii c in
  ((10 <=? n) && (n <=? 13) || (28 <=? n) && (n <=? 30) || (n =? 133))%N.

(** [s.splitlines()]: the lines without their ends; CR LF counts as one
    end, and a text that stops at a line end has no empty last line.
    [cur] is the line being read. *)
Fixpoint splitlines_from (cur : string) (s : string) : list string :=
  match s with
  | EmptyString => if String.eqb cur "" then [] else [cur]
  | String c rest =>
      if is_linebreak c
      then cur :: match rest with
                  | String c' rest' =>
                      if (N_of_ascii c =? 13)%N && (N_of_ascii c' =? 10)%N
                      then splitlines_from "" rest'
                      else splitlines_from "" rest
                  | EmptyString => []
                  end
      else splitlines_from (cur +:+ String c "") rest
  end.

Definition splitlines (s : string) : list string := splitlines_from "" s.

(** The first character of a text is not whitespace. *)
Definition starts_solid (s : string) : bool :=
  match s with
  | EmptyString => false
  | String c _ => negb (PyStr.isspace c)
  end.

(** The last character of a text is not whitespace. *)
Fixpoint ends_solid (s : string) : bool :=
  match s with
  | EmptyString => false
  | String c EmptyString => negb (PyStr.isspace c)
  | String _ rest => ends_solid rest
  end.

(** Two texts with one space between them, when neither is empty. *)
Definition glue (a b : string) : string :=
  if String.eqb a "" then b
  else if String.eqb b "" then a
  else a +:+ " " +:+ b.

End PyText.

(** ** [merge_qualifiers] of [bugzero/types.py] *)

Definition merge_qualifiers (groups : list (list Qualifier)) : list Qualifier :=
  fold_left (fun combined group => combined ++ group) groups [].

(** ** The pure helpers of [bugzero/cli.py] *)

(** The [for entry in raw] loop of [_parse_qualifiers] and the [return]
    after it. *)
Fixpoint parse_qualifiers_loop (qualifiers : list Qualifier) (raw : list string)
  : Outcome (list Qualifier) :=
  match raw with
  | [] => Return qualifiers
  | entry :: rest =>
      obind (if PyStr.contains "=" entry
             then match PyText.split_max1 "=" entry with
                  | [key; value] => Return (key, value)
                  | _ => Raise ValueError
                  end
             else Return (entry, "")) (fun kv =>
      let key := PyStr.strip (fst kv) in
      if negb (PyStr.nonempty key) then parse_qualifiers_loop qualifiers rest
      else parse_qualifiers_loop
             (qualifiers ++ [(key, PyStr.strip (snd kv))]) rest)
  end.

Definition _parse_qualifiers (raw : list string) : Outcome (list Qualifier) :=
  parse_qualifiers_loop [] raw.

Definition _build_specs (query_texts : list string) (qualifiers : list Qualifier)
    (split_lines : bool) : list QuerySpec :=
  if split_lines then
    fold_left
      (fun specs text =>
         fold_left
           (fun specs line =>
              let stripped := PyStr.strip line in
              if PyStr.nonempty stripped
              then specs ++ [mkQuerySpec stripped qualifiers]
              else specs)
           (PyText.splitlines text) specs)
      query_texts []
  else
    let merged := PyStr.strip (String.concat PyText.nl query_texts) in
    if PyStr.nonempty merged then [mkQuerySpec merged qualifiers] else [].

(** What one entry of the command line contributes to the qualifiers:
    the text before the first [=] as key and the text after it as value,
    both stripped, and nothing when the key strips to empty. *)
Definition qualifier_of (entry : string) : list Qualifier :=
  let kv := match PyText.cut "=" entry with
            | Some (before, after) => (before, after)
            | None => (entry, "")
            end in
  if String.eqb (PyStr.strip (fst kv)) "" then []
  else [(PyStr.strip (fst kv), PyStr.strip (snd kv))].

(** The segment of a qualifier whose key and value are used as they are. *)
Definition segment (kv : Qualifier) : string :=
  if String.eqb (snd kv) "" then fst kv else fst kv +:+ ":" +:+ snd kv.

(** A text without a line end. *)
Fixpoint one_line (s : string) : bool :=
  match s with
  | EmptyString => true
  | String c rest => negb (PyText.is_linebreak c) && one_line rest
  end.

(** ** Files, environment and errors of [config.py] and [queries.py]

    A path is its text.  The file system holds regular files; a file is
    modelled by what [json.load] makes of it: the document it decodes to,
    the fact that its text is not JSON, which raises [JSONDecodeError], or
    the fact that its bytes are not UTF-8 text, which raises
    [UnicodeDecodeError] as the file is read.  Writing a document with
    [json.dump] and reading it again gives the document back. *)

Inductive content :=
| Json (doc : value)
| NotJson
| NotUtf8.

Record Sys := mkSys {
  environ : gmap string string;
  files : gmap string content
}.

(** A [RuntimeError] with its message, or one of the exceptions above. *)
Inductive error :=
| RuntimeError (message : string)
| Builtin (e : exn).

Inductive Result (A : Type) :=
| Ok (a : A)
| Err (e : error).
Arguments Ok {A} a.
Arguments Err {A} e.

Definition rbind {A B} (r : Result A) (k : A -> Result B) : Result B :=
  match r with
  | Ok a => k a
  | Err e => Err e
  end.

Definition of_outcome {A} (o : Outcome A) : Result A :=
  match o with
  | Return a => Ok a
  | Raise e => Err (Builtin e)
  end.

Module PyDict.

(** [d[key] = v] on a [dict]: the binding is replaced where it stands, or
    added at the end. *)
Fixpoint set {V} (key : string) (v : V) (d : list (string * V))
  : list (string * V) :=
  match d with
  | [] => [(key, v)]
  | (k, old) :: rest =>
      if String.eqb k key then (k, v) :: rest else (k, old) :: set key v rest
  end.

(** The [dict] without [key]. *)
Definition remove {V} (key : string) (d : list (string * V)) : list (string * V) :=
  List.filter (fun kv => negb (String.eqb (fst kv) key)) d.

Fixpoint find {V} (key : string) (d : list (string * V)) : option V :=
  match d with
  | [] => None
  | (k, v) :: rest => if String.eqb k key then Some v else find key rest
  end.

Definition keys {V} (d : list (string * V)) : list string := map fst d.

(** [obj[key] = v]: only a [dict] takes a text key. *)
Definition setitem (obj : value) (key : string) (v : value) : Outcome value :=
  match obj with
  | VDict fields => Return (VDict (set key v fields))
  | _ => Raise TypeError
  end.

(** [obj.pop(key, None)], for the object it leaves: a list refuses the
    second argument, other objects have no [pop]. *)
Definition pop (obj : value) (key : string) : Outcome value :=
  match obj with
  | VDict fields => Return (VDict (remove key fields))
  | VList _ => Raise TypeError
  | _ => Raise AttributeError
  end.

(** [obj.strip()]: only a [str] has the method. *)
Definition strip (obj : value) : Outcome string :=
  match obj with
  | VStr s => Return (PyStr.strip s)
  | _ => Raise AttributeError
  end.

End PyDict.

(** ** [bugzero/config.py] *)

Module Config.

Definition TOKEN_ENV_VAR : string := "GITHUB_TOKEN".

Definition NOT_FOUND : string :=
  "GitHub token not found. Set the GITHUB_TOKEN environment variable "
  +:+ "or run `bugzero token set` to persist it.".

Definition _read_config (path : string) (sys : Sys) : Result value :=
  match files sys !! path with
  | None => Ok (VDict [])
  | Some (Json doc) => Ok doc
  | Some NotJson =>
      Err (RuntimeError ("Config file at " +:+ path +:+ " is not valid JSON"))
  | Some NotUtf8 => Err (Builtin UnicodeDecodeError)
  end.

Definition _write_config (path : string) (data : value) (sys : Sys) : Sys :=
  {| environ := environ sys; files := <[path := Json data]> (files sys) |}.

(** [os.getenv(TOKEN_ENV_VAR, "").strip()]. *)
Definition env_token (sys : Sys) : string :=
  PyStr.strip (match environ sys !! TOKEN_ENV_VAR with
               | Some v => v
               | None => ""
               end).

(** [config_path or DEFAULT_CONFIG_PATH]; a path object counts as true. *)
Definition path_or (config_path : option string) (default : string) : string :=
  match config_path with
  | Some p => p
  | None => default
  end.

Definition resolve_token (default : string) (explicit : option string)
    (config_path : option string) (sys : Sys) : Result string :=
  let from_env_or_config :=
    let env_token := env_token sys in
    if PyStr.nonempty env_token then Ok env_token
    else
      let path := path_or config_path default in
      rbind (_read_config path sys) (fun data =>
      rbind (of_outcome (PyVal.get data "github_token" (VStr ""))) (fun found =>
      rbind (of_outcome (PyDict.strip found)) (fun token =>
      if PyStr.nonempty token then Ok token
      else Err (RuntimeError NOT_FOUND)))) in
  match explicit with
  | Some e =>
      if PyStr.nonempty e
      then let token := PyStr.strip e in
           if PyStr.nonempty token then Ok token else from_env_or_config
      else from_env_or_config
  | None => from_env_or_config
  end.

(** [store_token]: the path written, and the system after the call.  The
    [ValueError] stands for "Cannot store empty token". *)
Definition store_token (default : string) (token : string)
    (config_path : option string) (sys : Sys) : Result string * Sys :=
  let token := PyStr.strip token in
  if negb (PyStr.nonempty token) then (Err (Builtin ValueError), sys)
  else
    let path := path_or config_path default in
    match rbind (_read_config path sys) (fun data =>
          of_outcome (PyDict.setitem data "github_token" (VStr token))) with
    | Ok data => (Ok path, _write_config path data sys)
    | Err e => (Err e, sys)
    end.

Definition delete_token (default : string) (config_path : option string)
    (sys : Sys) : Result unit * Sys :=
  let path := path_or config_path default in
  match files sys !! path with
  | None => (Ok tt, sys)
  | Some _ =>
      match rbind (_read_config path sys) (fun data =>
            of_outcome (PyDict.pop data "github_token")) with
      | Ok data =>
          if PyVal.truthy data then (Ok tt, _write_config path data sys)
          else (Ok tt, {| environ := environ sys;
                          files := delete path (files sys) |})
      | Err e => (Err e, sys)
      end
  end.

(** [token_status]: the values under [env] and [config_path]. *)
Definition token_status (default : string) (config_path : option string)
    (sys : Sys) : Result (bool * option string) :=
  let path := path_or config_path default in
  let env_present := PyStr.nonempty (env_token sys) in
  rbind (_read_config path sys) (fun data =>
  rbind (of_outcome (PyVal.get data "github_token" VNone)) (fun found =>
  let config_present := PyVal.truthy found in
  Ok (env_present, if config_present then Some path else None))).

End Config.

(** An explicit token that [resolve_token] passes over: none, or one that
    strips to empty. *)
Definition unusable (explicit : option string) : Prop :=
  match explicit with
  | None => True
  | Some e => PyStr.strip e = ""
  end.

(** Systems for the examples. *)
Module SampleSys.

Definition config_path : string := "/home/u/.config/bugzero/config.json".

(** No token anywhere. *)
Definition bare : Sys := {| environ := ∅; files := ∅ |}.

(** A config file that holds a token and another setting. *)
Definition with_config : Sys :=
  {| environ := ∅;
     files := {[ config_path :=
                   Json (VDict [("editor", VStr "vi");
                                ("github_token", VStr " ghp_config ")]) ]} |}.

(** A token in the environment, over a config file that is not JSON. *)
Definition with_env : Sys :=
  {| environ := {[ "GITHUB_TOKEN" := " ghp_env " ]};
     files := {[ config_path := NotJson ]} |}.

(** A config file that is not UTF-8 text. *)
Definition binary_config : Sys :=
  {| environ := ∅; files := {[ config_path := NotUtf8 ]} |}.

(** A config file whose token is null. *)
Definition null_token : Sys :=
  {| environ := ∅;
     files := {[ config_path := Json (VDict [("github_token", VNone)]) ]} |}.

End SampleSys.

(** ** [bugzero/queries.py] *)

Module Queries.

(** A saved query as [_read_queries] holds it: the [dict] with the keys
    [query] and [qualifiers]. *)
Record saved := mkSaved {
  saved_query : string;
  saved_qualifiers : value
}.

(** The body of the [for entry in items] loop of [_read_queries], on the
    ordered dictionary read so far. *)
Definition absorb (repr : value -> string) (ordered : list (string * saved))
    (entry : value) : list (string * saved) :=
  match entry with
  | VDict fields =>
      let field key :=
        match PyVal.lookup key fields with Some v => v | None => VNone end in
      let name :=
        PyStr.strip (PyVal.str repr (PyVal.or_else (field "name") (VStr ""))) in
      if negb (PyStr.nonempty name) then ordered
      else PyDict.set name
             {| saved_query :=
                  PyVal.str repr (PyVal.or_else (field "query") (VStr ""));
                saved_qualifiers :=
                  PyVal.or_else (field "qualifiers") (VDict []) |}
             ordered
  | _ => ordered
  end.

Definition _read_queries (repr : value -> string) (path : string) (sys : Sys)
  : Result (list (string * saved)) :=
  match files sys !! path with
  | None => Ok []
  | Some NotJson => Err (Builtin JSONDecodeError)
  | Some NotUtf8 => Err (Builtin UnicodeDecodeError)
  | Some (Json payload) =>
      rbind (of_outcome (PyVal.get payload "queries" VNone)) (fun items =>
      match items with
      | VList entries => Ok (fold_left (absorb repr) entries [])
      | _ => Ok []
      end)
  end.

(** One saved query as [_write_queries] puts it in the file. *)
Definition entry_json (item : string * saved) : value :=
  VDict [("name", VStr (fst item));
         ("query", VStr (saved_query (snd item)));
         ("qualifiers", saved_qualifiers (snd item))].

Definition _write_queries (path : string) (items : list (string * saved))
    (sys : Sys) : Sys :=
  {| environ := environ sys;
     files := <[path := Json (VDict [("queries", VList (map entry_json items))])]>
                (files sys) |}.

Definition list_queries (repr : value -> string) (default : string)
    (path : option string) (sys : Sys) : Result (list string) :=
  rbind (_read_queries repr (Config.path_or path default) sys) (fun data =>
  Ok (PyDict.keys data)).

(** [qualifiers_map.items()] with both sides made text: only a [dict] has
    the method. *)
Definition qualifier_items (repr : value -> string) (qualifiers_map : value)
  : Outcome (list Qualifier) :=
  match qualifiers_map with
  | VDict fields =>
      Return (map (fun kv => (fst kv, PyVal.str repr (snd kv))) fields)
  | _ => Raise AttributeError
  end.

(** The [for name, entry in selected] loop of [get_query_specs]. *)
Fixpoint specs_loop (repr : value -> string) (specs : list (string * QuerySpec))
    (selected : list (string * saved)) : Result (list (string * QuerySpec)) :=
  match selected with
  | [] => Ok specs
  | (name, entry) :: rest =>
      let qualifiers_map := PyVal.or_else (saved_qualifiers entry) (VDict []) in
      rbind (of_outcome (qualifier_items repr qualifiers_map)) (fun qualifiers =>
      specs_loop repr
        (specs ++ [(name, mkQuerySpec (saved_query entry) qualifiers)]) rest)
  end.

Definition get_query_specs (repr : value -> string) (default : string)
    (names : option (list string)) (path : option string) (sys : Sys)
  : Result (list (string * QuerySpec)) :=
  rbind (_read_queries repr (Config.path_or path default) sys) (fun data =>
  let selected :=
    match names with
    | None => data
    | Some names =>
        let desired :=
          map PyStr.strip
            (List.filter (fun name => PyStr.nonempty (PyStr.strip name)) names) in
        flat_map (fun name =>
                    match PyDict.find name data with
                    | Some entry => [(name, entry)]
                    | None => []
                    end) desired
    end in
  specs_loop repr [] selected).

(** The [dict] that [save_query] stores under [qualifiers]. *)
Definition qualifiers_value (qualifiers : option (list (string * string))) : value :=
  match qualifiers with
  | Some (kv :: more) => VDict (map (fun kv => (fst kv, VStr (snd kv))) (kv :: more))
  | _ => VDict []
  end.

Definition save_query (repr : value -> string) (default : string)
    (name query : string) (qualifiers : option (list (string * string)))
    (path : option string) (sys : Sys) : Result unit * Sys :=
  let path := Config.path_or path default in
  match _read_queries repr path sys with
  | Ok data =>
      let data :=
        PyDict.set name
          {| saved_query := query;
             saved_qualifiers := qualifiers_value qualifiers |} data in
      (Ok tt, _write_queries path data sys)
  | Err e => (Err e, sys)
  end.

Definition delete_query (repr : value -> string) (default : string)
    (name : string) (path : option string) (sys : Sys) : Result bool * Sys :=
  let path := Config.path_or path default in
  match _read_queries repr path sys with
  | Ok data =>
      match PyDict.find name data with
      | None => (Ok false, sys)
      | Some _ => (Ok true, _write_queries path (PyDict.remove name data) sys)
      end
  | Err e => (Err e, sys)
  end.

End Queries.

(** The names of a dictionary of saved queries as a read leaves them:
    distinct, not empty and stripped. *)
Definition clean_names (names : list string) : Prop :=
  NoDup names /\ Forall (fun n => n <> "" /\ PyStr.strip n = n) names.

(** A saved query that a read leaves as it is: its qualifiers are not a
    false value other than the empty [dict]. *)
Definition settled (item : string * Queries.saved) : Prop :=
  PyVal.or_else (Queries.saved_qualifiers (snd item)) (VDict [])
  = Queries.saved_qualifiers (snd item).

(** A dictionary of saved queries as a read leaves it. *)
Definition clean (data : list (string * Queries.saved)) : Prop :=
  clean_names (PyDict.keys data) /\ Forall settled data.

(** The names that [get_query_specs] looks for. *)
Definition desired (names : list string) : list string :=
  map PyStr.strip
    (List.filter (fun name => PyStr.nonempty (PyStr.strip name)) names).

(** The spec that the loop of [get_query_specs] makes of one saved query. *)
Definition spec_of (repr : value -> string) (entry : Queries.saved)
  : Result QuerySpec :=
  rbind (of_outcome
           (Queries.qualifier_items repr
              (PyVal.or_else (Queries.saved_qualifiers entry) (VDict []))))
    (fun qualifiers => Ok (mkQuerySpec (Queries.saved_query entry) qualifiers)).

(** The entries of a dictionary under the given names, in the order of the
    names. *)
Definition pick {V} (data : list (string * V)) (names : list string)
  : list (string * V) :=
  flat_map (fun name =>
              match PyDict.find name data with
              | Some entry => [(name, entry)]
              | None => []
              end) names.

(** The qualifiers that [save_query] was given, as a list. *)
Definition given (qualifiers : option (list (string * string)))
  : list (string * string) :=
  match qualifiers with
  | Some l => l
  | None => []
  end.

Module SampleQueries.

Definition path : string := "/home/u/.config/bugzero/queries.json".

(** Two saved queries, the second with two qualifiers. *)
Definition two : Sys :=
  {| environ := ∅;
     files :=
       {[ path :=
            Json (VDict
                    [("queries",
                      VList
                        [VDict [("name", VStr "leaks");
                                ("query", VStr "memory leak");
                                ("qualifiers", VDict [])];
                         VDict [("name", VStr " races ");
                                ("query", VStr "data race");
                                ("qualifiers",
                                 VDict [("language", VStr "go");
                                        ("stars", VInt 10)])];
                         VStr "stray";
                         VDict [("query", VStr "nameless")]])]) ]} |}.

(** A file of saved queries that is not JSON, and one that is not
    UTF-8 text. *)
Definition garbled : Sys :=
  {| environ := ∅; files := {[ path := NotJson ]} |}.

Definition binary : Sys :=
  {| environ := ∅; files := {[ path := NotUtf8 ]} |}.

End SampleQueries.

(** ** The handlers of [bugzero/cli.py] that manage the saved queries *)

Module Cli.

(** A line that [print] writes, with the stream it goes to. *)
Inductive Printed :=
| Stdout (line : string)
| Stderr (line : string).

(** What a handler works on: the files and the environment, and the lines
    printed so far. *)
Record Host := mkHost {
  host_sys : Sys;
  printed : list Printed
}.

Definition print (line : Printed) (host : Host) : Host :=
  {| host_sys := host_sys host; printed := printed host ++ [line] |}.

(** [dict(pairs)]. *)
Definition dict (pairs : list (string * string)) : list (string * string) :=
  fold_left (fun d kv => PyDict.set (fst kv) (snd kv) d) pairs [].

(** [read_text] stands for [Path(file_path).read_text(encoding="utf-8")]:
    the text of the file, or the exception that reading it raises. *)
Definition _collect_query_texts (read_text : string -> Outcome string)
    (query query_file : option string) : Result (list string) :=
  let texts :=
    match query with
    | Some q => if PyStr.nonempty q then [q] else []
    | None => []
    end in
  match query_file with
  | Some file_path =>
      if PyStr.nonempty file_path
      then rbind (of_outcome (read_text file_path)) (fun text =>
           Ok (texts ++ [text]))
      else Ok texts
  | None => Ok texts
  end.

(** The arguments of [queries add]. *)
Record AddArgs := mkAddArgs {
  add_name : string;
  add_query : option string;
  add_query_file : option string;
  add_qualifier : list string
}.

Definition EMPTY_QUERY : error := RuntimeError "Query text is empty".

Definition _handle_query_add (repr : value -> string)
    (read_text : string -> Outcome string) (default : string)
    (args : AddArgs) (host : Host) : Result Z * Host :=
  match
    rbind (of_outcome (_parse_qualifiers (add_qualifier args))) (fun parsed =>
    let qualifiers := dict parsed in
    rbind (_collect_query_texts read_text (add_query args) (add_query_file args))
      (fun query_texts =>
    let query_text := PyStr.strip (String.concat PyText.nl query_texts) in
    if negb (PyStr.nonempty query_text) then Err EMPTY_QUERY
    else Ok (query_text, qualifiers)))
  with
  | Err e => (Err e, host)
  | Ok (query_text, qualifiers) =>
      match Queries.save_query repr default (add_name args) query_text
              (Some qualifiers) None (host_sys host) with
      | (Ok _, sys) =>
          (Ok 0%Z,
           print (Stdout ("Saved query '" +:+ add_name args +:+ "'"))
             {| host_sys := sys; printed := printed host |})
      | (Err e, sys) => (Err e, {| host_sys := sys; printed := printed host |})
      end
  end.

Definition removed_line (name : string) : Printed :=
  Stdout ("Removed query '" +:+ name +:+ "'").

Definition not_found_line (name : string) : Printed :=
  Stderr ("Query '" +:+ name +:+ "' not found").

(** The [for name in args.names] loop of [_handle_query_remove]. *)
Fixpoint remove_loop (repr : value -> string) (default : string)
    (names : list string) (removed : Z) (host : Host) : Result Z * Host :=
  match names with
  | [] => (Ok removed, host)
  | name :: rest =>
      match Queries.delete_query repr default name None (host_sys host) with
      | (Ok true, sys) =>
          remove_loop repr default rest (removed + 1)%Z
            (print (removed_line name)
               {| host_sys := sys; printed := printed host |})
      | (Ok false, sys) =>
          remove_loop repr default rest removed
            (print (not_found_line name)
               {| host_sys := sys; printed := printed host |})
      | (Err e, sys) => (Err e, {| host_sys := sys; printed := printed host |})
      end
  end.

Definition _handle_query_remove (repr : value -> string) (default : string)
    (names : list string) (host : Host) : Result Z * Host :=
  match remove_loop repr default names 0%Z host with
  | (Ok removed, host) => (Ok (if (removed =? 0)%Z then 1%Z else 0%Z), host)
  | (Err e, host) => (Err e, host)
  end.

End Cli.

(** A name is one of the names given. *)
Definition named (names : list string) (name : string) : bool :=
  existsb (String.eqb name) names.

(** The line that [_handle_query_remove] prints for a name. *)
Definition remove_line (name : string) (line : Cli.Printed) : Prop :=
  line = Cli.removed_line name \/ line = Cli.not_found_line name.

Module SampleCli.

(** No query file can be read. *)
Definition no_files (file_path : string) : Outcome string := Raise RequestException.

(** [queries add " leaks " -q "use after free" -Q language=c -Q language=go]. *)
Definition add_leaks : Cli.AddArgs :=
  {| Cli.add_name := " leaks ";
     Cli.add_query := Some "use after free";
     Cli.add_query_file := None;
     Cli.add_qualifier := ["language=c"; "language=go"] |}.

Definition host : Cli.Host :=
  {| Cli.host_sys := SampleQueries.two; Cli.printed := [] |}.

End SampleCli.

(** ** The plain data of [bugzero/render.py] *)

Module Render.

Definition _result_to_dict (result : SearchResult) : value :=
  VDict [("repository", repository result);
         ("path", path result);
         ("url", url result);
         ("score", score result);
         ("snippet", snippet result)].

Definition serialize_results (results : list SearchResult) : list value :=
  map _result_to_dict results.

End Render.

(** ** The handlers of [bugzero/cli.py] that search

    The handlers work on the network and clock of the client and on the
    standard output, and read the environment and the files. *)

(** The arguments of [search]. *)
Record SearchArgs := mkSearchArgs {
  search_qualifier : list string;
  search_query : option string;
  search_query_file : option string;
  search_split_lines : bool;
  search_per_page : Z;
  search_pages : Z;
  search_output : string;
  search_token : option string
}.

(** The arguments of [sweep]. *)
Record SweepArgs := mkSweepArgs {
  sweep_names : list string;
  sweep_qualifier : list string;
  sweep_per_page : Z;
  sweep_pages : Z;
  sweep_output : string;
  sweep_token : option string
}.

(** The world of the client and what has been written to the standard
    output. *)
Record Stage := mkStage {
  stage_world : World;
  stage_out : list string
}.

Definition write (chunks : list string) (stage : Stage) : Stage :=
  {| stage_world := stage_world stage; stage_out := stage_out stage ++ chunks |}.

Definition NO_QUERIES : error := RuntimeError "No queries to execute".

Definition NO_SAVED_QUERIES : error := RuntimeError "No saved queries found".

Section Handlers.

Variable remote : list Event -> Request -> Reply.

Variable repr : value -> string.

(** What [requests.Session()] builds. *)
Variable fresh : Session.

(** [Path(file_path).read_text(encoding="utf-8")]. *)
Variable read_text : string -> Outcome string.

(** What [render_results(results, mode=mode)] writes to the standard
    output, and the exception it raises, if it raises one. *)
Variable render_results : list SearchResult -> string -> list string * option exn.

(** What [json.dump(payload, sys.stdout, indent=2)] writes, and the
    exception it raises, if it raises one. *)
Variable json_dump : value -> list string * option exn.

(** [DEFAULT_CONFIG_PATH], and the path of the saved queries beside it. *)
Variable config_default : string.

Variable queries_default : string.

(** [GitHubSearchClient(token)]. *)
Definition new_client (token : string) : GitHubSearchClient :=
  __init__ fresh token DEFAULT_BASE_URL "BugZero/0.1" None.

(** [client.search_code(spec, per_page=..., pages=...)] on a stage. *)
Definition search_on (client : GitHubSearchClient) (spec : QuerySpec)
    (per_page pages : Z) (stage : Stage) : Outcome (list SearchResult) * Stage :=
  let run := search_code remote repr client spec per_page pages true
               (stage_world stage) in
  (fst run, {| stage_world := snd run; stage_out := stage_out stage |}).

(** [render_results(results, mode=mode)] on a stage. *)
Definition render_on (results : list SearchResult) (mode : string) (stage : Stage)
  : Result unit * Stage :=
  let rendered := render_results results mode in
  match snd rendered with
  | None => (Ok tt, write (fst rendered) stage)
  | Some e => (Err (Builtin e), write (fst rendered) stage)
  end.

(** [json.dump(payload, sys.stdout, indent=2)], the newline written after
    it, and [return 0]. *)
Definition dump_on (payload : list value) (stage : Stage) : Result Z * Stage :=
  let dumped := json_dump (VList payload) in
  match snd dumped with
  | None => (Ok 0%Z, write [PyText.nl] (write (fst dumped) stage))
  | Some e => (Err (Builtin e), write (fst dumped) stage)
  end.

(** The [for spec in specs] loop of [_handle_search] for JSON output. *)
Fixpoint search_json_loop (client : GitHubSearchClient) (args : SearchArgs)
    (specs : list QuerySpec) (payload : list value) (stage : Stage)
  : Result (list value) * Stage :=
  match specs with
  | [] => (Ok payload, stage)
  | spec :: rest =>
      match search_on client spec (search_per_page args) (search_pages args) stage with
      | (Return results, stage) =>
          search_json_loop client args rest
            (payload
             ++ [VDict [("query", VStr (build spec));
                        ("results", VList (Render.serialize_results results))]])
            stage
      | (Raise e, stage) => (Err (Builtin e), stage)
      end
  end.

(** The [for idx, spec in enumerate(specs, start=1)] loop of
    [_handle_search]; [many] is [len(specs) > 1]. *)
Fixpoint search_table_loop (client : GitHubSearchClient) (args : SearchArgs)
    (many : bool) (idx : Z) (specs : list QuerySpec) (stage : Stage)
  : Result unit * Stage :=
  match specs with
  | [] => (Ok tt, stage)
  | spec :: rest =>
      let stage :=
        if many
        then write ["=== Query " +:+ PyStr.of_int idx +:+ ": " +:+ build spec
                    +:+ PyText.nl] stage
        else stage in
      match search_on client spec (search_per_page args) (search_pages args) stage with
      | (Return results, stage) =>
          match render_on results (search_output args) stage with
          | (Ok _, stage) =>
              search_table_loop client args many (idx + 1)%Z rest stage
          | (Err e, stage) => (Err e, stage)
          end
      | (Raise e, stage) => (Err (Builtin e), stage)
      end
  end.

Definition _handle_search (args : SearchArgs) (sys : Sys) (stage : Stage)
  : Result Z * Stage :=
  match
    rbind (of_outcome (_parse_qualifiers (search_qualifier args))) (fun qualifiers =>
    rbind (Cli._collect_query_texts read_text (search_query args)
             (search_query_file args)) (fun query_texts =>
    let specs := _build_specs query_texts qualifiers (search_split_lines args) in
    match specs with
    | [] => Err NO_QUERIES
    | _ =>
        rbind (Config.resolve_token config_default (search_token args) None sys)
          (fun token => Ok (specs, new_client token))
    end))
  with
  | Err e => (Err e, stage)
  | Ok (specs, client) =>
      if String.eqb (search_output args) "json" then
        match search_json_loop client args specs [] stage with
        | (Ok payload, stage) => dump_on payload stage
        | (Err e, stage) => (Err e, stage)
        end
      else
        match search_table_loop client args
                (1 <? Z.of_nat (length specs))%Z 1%Z specs stage with
        | (Ok _, stage) => (Ok 0%Z, stage)
        | (Err e, stage) => (Err e, stage)
        end
  end.

(** [QuerySpec(spec.query, tuple(spec.qualifiers) + qualifiers)]. *)
Definition merged_with (extra : list Qualifier) (spec : QuerySpec) : QuerySpec :=
  mkQuerySpec (query spec) (qualifiers spec ++ extra).

(** The [for name, spec in specs] loop of [_handle_sweep] for JSON
    output. *)
Fixpoint sweep_json_loop (client : GitHubSearchClient) (args : SweepArgs)
    (extra : list Qualifier) (specs : list (string * QuerySpec))
    (payload : list value) (stage : Stage) : Result (list value) * Stage :=
  match specs with
  | [] => (Ok payload, stage)
  | (name, spec) :: rest =>
      let merged := merged_with extra spec in
      match search_on client merged (sweep_per_page args) (sweep_pages args) stage with
      | (Return results, stage) =>
          sweep_json_loop client args extra rest
            (payload
             ++ [VDict [("name", VStr name);
                        ("query", VStr (build merged));
                        ("results", VList (Render.serialize_results results))]])
            stage
      | (Raise e, stage) => (Err (Builtin e), stage)
      end
  end.

(** The other [for name, spec in specs] loop of [_handle_sweep]. *)
Fixpoint sweep_table_loop (client : GitHubSearchClient) (args : SweepArgs)
    (extra : list Qualifier) (specs : list (string * QuerySpec)) (stage : Stage)
  : Result unit * Stage :=
  match specs with
  | [] => (Ok tt, stage)
  | (name, spec) :: rest =>
      let merged := merged_with extra spec in
      let stage :=
        write ["=== " +:+ name +:+ ": " +:+ build merged +:+ PyText.nl] stage in
      match search_on client merged (sweep_per_page args) (sweep_pages args) stage with
      | (Return results, stage) =>
          match render_on results (sweep_output args) stage with
          | (Ok _, stage) => sweep_table_loop client args extra rest stage
          | (Err e, stage) => (Err e, stage)
          end
      | (Raise e, stage) => (Err (Builtin e), stage)
      end
  end.

Definition _handle_sweep (args : SweepArgs) (sys : Sys) (stage : Stage)
  : Result Z * Stage :=
  match
    rbind (of_outcome (_parse_qualifiers (sweep_qualifier args))) (fun extra =>
    rbind (Queries.get_query_specs repr queries_default
             match sweep_names args with
             | [] => None
             | names => Some names
             end
             None sys) (fun specs =>
    match specs with
    | [] => Err NO_SAVED_QUERIES
    | _ =>
        rbind (Config.resolve_token config_default (sweep_token args) None sys)
          (fun token => Ok (extra, specs, new_client token))
    end))
  with
  | Err e => (Err e, stage)
  | Ok (extra, specs, client) =>
      if String.eqb (sweep_output args) "json" then
        match sweep_json_loop client args extra specs [] stage with
        | (Ok payload, stage) => dump_on payload stage
        | (Err e, stage) => (Err e, stage)
        end
      else
        match sweep_table_loop client args extra specs stage with
        | (Ok _, stage) => (Ok 0%Z, stage)
        | (Err e, stage) => (Err e, stage)
        end
  end.

End Handlers.

(** A request of a search handler: it carries the token, and asks for the
    text of one of the specs with the page size given. *)
Definition sent_for (token : string) (specs : list QuerySpec) (per_page : Z)
    (r : Request) : Prop :=
  header_get (sent_headers r) "Authorization" = Some ("token " +:+ token)
  /\ param_per_page (sent_params r) = per_page
  /\ exists spec, In spec specs /\ param_q (sent_params r) = build spec.

(** What a search handler does to the world of the client between [w] and
    [w']: it only adds to the trace, every request it adds is one for
    [token] and [specs], and there are at most three of them for each page
    of each spec. *)
Definition searched (token : string) (specs : list QuerySpec)
    (per_page pages : Z) (w w' : World) : Prop :=
  exists evs,
    trace w' = trace w ++ evs
    /\ Forall (sent_for token specs per_page) (requests_of evs)
    /\ (length (requests_of evs) <= 3 * Z.to_nat pages * length specs)%nat.

Module SampleHandlers.

(** A network that is never reached. *)
Definition offline (before : list Event) (r : Request) : Reply := Failed.

Definition render_nothing (results : list SearchResult) (mode : string)
  : list string * option exn := ([], None).

Definition dump_nothing (payload : value) : list string * option exn := ([], None).

(** [search -q "  " --split-lines]. *)
Definition blank_search : SearchArgs :=
  {| search_qualifier := ["language=go"];
     search_query := Some "  ";
     search_query_file := None;
     search_split_lines := true;
     search_per_page := 30;
     search_pages := 1;
     search_output := "table";
     search_token := Some "t0ken" |}.

(** [sweep nope]. *)
Definition sweep_unknown : SweepArgs :=
  {| sweep_names := ["nope"];
     sweep_qualifier := [];
     sweep_per_page := 30;
     sweep_pages := 1;
     sweep_output := "json";
     sweep_token := Some "t0ken" |}.

(** [search -q "memory leak" -Q language=go --token t0ken]. *)
Definition leak_search : SearchArgs :=
  {| search_qualifier := ["language=go"];
     search_query := Some "memory leak";
     search_query_file := None;
     search_split_lines := false;
     search_per_page := 30;
     search_pages := 2;
     search_output := "table";
     search_token := Some "t0ken" |}.

(** [sweep -Q stars=10 --output json --token t0ken]. *)
Definition sweep_all : SweepArgs :=
  {| sweep_names := [];
     sweep_qualifier := ["archived=false"];
     sweep_per_page := 30;
     sweep_pages := 1;
     sweep_output := "json";
     sweep_token := Some "t0ken" |}.

Definition stage : Stage := {| stage_world := Scenario.start; stage_out := [] |}.

End SampleHandlers.

(** * Properties *)

(** ** Text built-ins *)

Lemma append_nil_l (s : string) : "" +:+ s = s.
Proof. reflexivity. Qed.

Lemma append_cons (a : ascii) (s t : string) :
  String a s +:+ t = String a (s +:+ t).
Proof. reflexivity. Qed.

Lemma eqb_empty_app_char (tok : string) (c : ascii) :
  String.eqb (tok +:+ String c "") "" = false.
Proof. destruct tok; reflexivity. Qed.

Lemma solid_app_char (tok : string) (c : ascii) :
  Spec.solid (tok +:+ String c "") = Spec.solid tok && negb (PyStr.isspace c).
Proof.
  induction tok as [|a tok IH].
  - rewrite append_nil_l. cbn [Spec.solid]. now destruct (PyStr.isspace c).
  - rewrite append_cons. cbn [Spec.solid]. now rewrite IH, andb_assoc.
Qed.

Lemma app_char_assoc (tok : string) (c : ascii) (s : string) :
  (tok +:+ String c "") +:+ s = tok +:+ String c s.
Proof.
  induction tok as [|a tok IH]; [reflexivity|].
  rewrite !append_cons. congruence.
Qed.

Lemma app_empty_r (s : string) : s +:+ "" = s.
Proof.
  induction s as [|a s IH]; [reflexivity|].
  rewrite append_cons. congruence.
Qed.

(** Every token of [split] is non-empty and free of whitespace. *)
Lemma split_from_tokens (s tok : string) :
  Spec.solid tok = true ->
  Forall (fun t => t <> "" /\ Spec.solid t = true) (PyStr.split_from tok s).
Proof.
  revert tok. induction s as [|c s IH]; intros tok Htok; cbn [PyStr.split_from].
  - destruct (String.eqb_spec tok ""); [constructor|].
    constructor; [split; assumption | constructor].
  - destruct (PyStr.isspace c) eqn:Hc.
    + destruct (String.eqb_spec tok ""); [now apply IH|].
      constructor; [split; assumption | now apply IH].
    + apply IH. now rewrite solid_app_char, Htok, Hc.
Qed.

Lemma concat_empty_cons (t : string) (l : list string) :
  String.concat "" (t :: l) = t +:+ String.concat "" l.
Proof.
  destruct l; cbn [String.concat]; [now rewrite app_empty_r | reflexivity].
Qed.

(** The tokens of [split], put end to end, are the text without its
    whitespace: nothing but whitespace is dropped, nothing is reordered. *)
Lemma split_from_squeezed (s tok : string) :
  String.concat "" (PyStr.split_from tok s) = tok +:+ Spec.squeezed s.
Proof.
  revert tok. induction s as [|c s IH]; intros tok;
    cbn [PyStr.split_from Spec.squeezed].
  - destruct (String.eqb_spec tok "") as [->|]; [reflexivity|].
    cbn [String.concat]. now rewrite app_empty_r.
  - destruct (PyStr.isspace c).
    + destruct (String.eqb_spec tok "") as [->|].
      * apply IH.
      * now rewrite concat_empty_cons, IH.
    + now rewrite IH, app_char_assoc.
Qed.

Lemma split_tokens (s : string) :
  Forall (fun t => t <> "" /\ Spec.solid t = true) (PyStr.split s).
Proof. now apply split_from_tokens. Qed.

Lemma split_squeezed (s : string) :
  String.concat "" (PyStr.split s) = Spec.squeezed s.
Proof. apply split_from_squeezed. Qed.

Lemma lstrip_starts (s : string) :
  PyStr.lstrip s = "" \/ PyText.starts_solid (PyStr.lstrip s) = true.
Proof.
  induction s as [|c s IH]; cbn [PyStr.lstrip]; [now left|].
  destruct (PyStr.isspace c) eqn:E; [exact IH|].
  right. cbn [PyText.starts_solid]. now rewrite E.
Qed.

Lemma lstrip_fixed (s : string) :
  PyText.starts_solid s = true -> PyStr.lstrip s = s.
Proof.
  destruct s as [|c s]; cbn [PyText.starts_solid PyStr.lstrip]; [discriminate|].
  now destruct (PyStr.isspace c).
Qed.

Lemma rstrip_ends (s : string) :
  PyStr.rstrip s = "" \/ PyText.ends_solid (PyStr.rstrip s) = true.
Proof.
  induction s as [|c s IH]; cbn [PyStr.rstrip]; [now left|].
  destruct (PyStr.rstrip s) as [|k kept].
  - destruct (PyStr.isspace c) eqn:E; [now left|].
    right. cbn [PyText.ends_solid]. now rewrite E.
  - right. destruct IH as [IH|IH]; [discriminate|]. exact IH.
Qed.

Lemma rstrip_fixed (s : string) :
  PyText.ends_solid s = true -> PyStr.rstrip s = s.
Proof.
  induction s as [|c s IH]; [discriminate|].
  destruct s as [|c' s'].
  - cbn. intros H. now destruct (PyStr.isspace c).
  - intros H. change (PyText.ends_solid (String c (String c' s')))
      with (PyText.ends_solid (String c' s')) in H.
    specialize (IH H). cbn [PyStr.rstrip] in *. now rewrite IH.
Qed.

Lemma rstrip_starts (s : string) :
  PyText.starts_solid s = true -> PyText.starts_solid (PyStr.rstrip s) = true.
Proof.
  destruct s as [|c s]; [discriminate|]. cbn [PyText.starts_solid PyStr.rstrip].
  intros H. destruct (PyStr.rstrip s).
  - apply negb_true_iff in H. rewrite H. cbn. now rewrite H.
  - exact H.
Qed.

(** A stripped text is empty or has no whitespace at either end. *)
Lemma strip_edges (s : string) :
  PyStr.strip s = ""
  \/ (PyText.starts_solid (PyStr.strip s) = true
      /\ PyText.ends_solid (PyStr.strip s) = true).
Proof.
  unfold PyStr.strip.
  destruct (rstrip_ends (PyStr.lstrip s)) as [E|E]; [now left|].
  right. split; [|exact E].
  destruct (lstrip_starts s) as [L|L].
  - rewrite L in E. discriminate.
  - now apply rstrip_starts.
Qed.

(** Whitespace in front of a text does not change its words. *)
Lemma words_space (c : ascii) (s : string) (ts : list string) :
  PyStr.isspace c = true -> Spec.words s ts -> Spec.words (String c s) ts.
Proof.
  intros Hc H. destruct H as [s Hs|gap tok rest ts Hg Hne Ht Hr Hw].
  - apply Spec.words_nil. cbn [Spec.blank]. now rewrite Hc, Hs.
  - change (String c (gap +:+ tok +:+ rest)) with (String c gap +:+ tok +:+ rest).
    apply Spec.words_cons; try assumption. cbn [Spec.blank]. now rewrite Hc, Hg.
Qed.

(** [split_from] reads the rest of the run it is in, then the words that
    follow. *)
Lemma split_from_words (s : string) :
  Spec.words s (PyStr.split_from "" s)
  /\ forall tok,
      tok <> "" ->
      exists more rest ts,
        s = more +:+ rest
        /\ Spec.solid more = true
        /\ match rest with
           | EmptyString => True
           | String c _ => PyStr.isspace c = true
           end
        /\ PyStr.split_from tok s = (tok +:+ more) :: ts
        /\ Spec.words rest ts.
Proof.
  induction s as [|c s [IH0 IH]]; cbn [PyStr.split_from].
  - split; [now apply Spec.words_nil|]. intros tok Hne.
    exists "", "", []. rewrite !app_empty_r.
    destruct (String.eqb_spec tok ""); [contradiction|].
    repeat split. now apply Spec.words_nil.
  - destruct (PyStr.isspace c) eqn:Hc.
    + change (String.eqb "" "") with true. cbn iota.
      split; [now apply words_space|]. intros tok Hne.
      exists "", (String c s), (PyStr.split_from "" s). rewrite !app_empty_r.
      destruct (String.eqb_spec tok ""); [contradiction|].
      repeat split; [exact Hc | now apply words_space].
    + rewrite append_nil_l. split.
      * destruct (IH (String c "") ltac:(discriminate))
          as (more & rest & ts & -> & Hm & Hr & -> & Hw).
        change (String c (more +:+ rest)) with ("" +:+ String c more +:+ rest).
        apply Spec.words_cons; try assumption; [reflexivity | discriminate |].
        change (Spec.solid (String c more) = true). cbn [Spec.solid]. now rewrite Hc, Hm.
      * intros tok Hne.
        destruct (IH (tok +:+ String c "")) as (more & rest & ts & -> & Hm & Hr & -> & Hw).
        { destruct tok; discriminate. }
        exists (String c more), rest, ts. rewrite app_char_assoc.
        repeat split; try assumption. cbn [Spec.solid]. now rewrite Hc, Hm.
Qed.

Lemma split_words (s : string) : Spec.words s (PyStr.split s).
Proof. apply split_from_words. Qed.

(** What [lstrip] and [rstrip] take away is whitespace. *)
Lemma lstrip_decompose (s : string) :
  exists before, s = before +:+ PyStr.lstrip s /\ Spec.blank before = true.
Proof.
  induction s as [|c s (before & E & Hb)]; [now exists ""|].
  cbn [PyStr.lstrip]. destruct (PyStr.isspace c) eqn:Hc.
  - exists (String c before). rewrite append_cons, <- E. split; [reflexivity|].
    cbn [Spec.blank]. now rewrite Hc, Hb.
  - now exists "".
Qed.

Lemma rstrip_decompose (s : string) :
  exists after, s = PyStr.rstrip s +:+ after /\ Spec.blank after = true.
Proof.
  induction s as [|c s (after & E & Ha)]; [now exists ""|].
  cbn [PyStr.rstrip]. destruct (PyStr.rstrip s) as [|k kept].
  - rewrite append_nil_l in E. subst after.
    destruct (PyStr.isspace c) eqn:Hc.
    + exists (String c s). split; [reflexivity|]. cbn [Spec.blank]. now rewrite Hc, Ha.
    + exists s. split; [reflexivity | exact Ha].
  - exists after. rewrite !append_cons, <- append_cons, <- E. now split.
Qed.

Lemma strip_decompose (s : string) :
  exists before after,
    s = before +:+ PyStr.strip s +:+ after
    /\ Spec.blank before = true
    /\ Spec.blank after = true.
Proof.
  destruct (lstrip_decompose s) as (before & E & Hb).
  destruct (rstrip_decompose (PyStr.lstrip s)) as (after & E' & Ha).
  exists before, after. unfold PyStr.strip. rewrite <- E', <- E. now repeat split.
Qed.

Lemma to_int_empty : PyStr.to_int "" = None.
Proof. reflexivity. Qed.

(** ** The query model *)

Lemma build_loop_spec (l : list Qualifier) (self : QuerySpec) (parts : list string) :
  fold_left build_step l (self, parts) = (self, parts ++ flat_map Spec.rendered l).
Proof.
  revert parts. induction l as [|qv l IH]; intros parts; cbn [fold_left flat_map].
  - now rewrite app_nil_r.
  - unfold build_step at 2, Spec.rendered at 1, PyStr.nonempty.
    destruct (String.eqb (PyStr.strip qv.1) ""); cbn [negb app].
    + apply IH.
    + destruct (String.eqb (PyStr.strip qv.2) ""); cbn [negb];
        rewrite IH, <- app_assoc; reflexivity.
Qed.

Lemma build_run_eq (self : QuerySpec) : build_run self = (Spec.built self, self).
Proof.
  unfold build_run, Spec.built, Spec.normalized, PyStr.nonempty.
  destruct (String.eqb _ ""); cbn [negb]; rewrite build_loop_spec; reflexivity.
Qed.

(** C4. [build] returns the whitespace-normalized query text (dropped when
    empty) followed by one segment per qualifier in the order supplied,
    joined by single spaces: no segment for a key that strips to empty, the
    bare key for a value that strips to empty, [key:value] otherwise.  The
    normalized text is made of the words of the query, which are its maximal
    runs of characters that are not whitespace, in their order: each is
    non-empty and free of whitespace, and put end to end they are the query
    without its whitespace.  Stripping takes whitespace, and nothing else,
    from both ends of a text: what is left is empty or neither starts nor
    ends with whitespace.  The query "memory leak" with the qualifier
    (language, go) builds "memory leak language:go", and so does a query
    with tabs, newlines and padded qualifiers around the same words, the
    qualifier of a blank key being left out and the one of a blank value
    giving its bare key. *)
Theorem build_meets_spec :
  (forall spec : QuerySpec, build spec = Spec.built spec)
  /\ (forall q : string,
      Spec.words q (PyStr.split q)
      /\ Forall (fun t => t <> "" /\ Spec.solid t = true) (PyStr.split q)
      /\ String.concat "" (PyStr.split q) = Spec.squeezed q)
  /\ (forall s : string,
      (exists before after,
          s = before +:+ PyStr.strip s +:+ after
          /\ Spec.blank before = true
          /\ Spec.blank after = true)
      /\ (PyStr.strip s = ""
          \/ (PyText.starts_solid (PyStr.strip s) = true
              /\ PyText.ends_solid (PyStr.strip s) = true)))
  /\ build (mkQuerySpec "memory leak" [("language", "go")])
     = "memory leak language:go"
  /\ build (mkQuerySpec Scenario.padded_query Scenario.padded_qualifiers)
     = "memory leak language:go stars"
  /\ PyStr.split Scenario.padded_query = ["memory"; "leak"]
  /\ map PyStr.strip [" language "; Scenario.padded_go; "  "]
     = ["language"; "go"; ""].
Proof.
  split; [|split; [|split; [|repeat split]]].
  - intros spec. unfold build. now rewrite build_run_eq.
  - intros q. split; [apply split_words|].
    split; [apply split_tokens | apply split_squeezed].
  - intros s. split; [apply strip_decompose | apply strip_edges].
Qed.

(** C9. [build] reads the fields of the object and writes none: the object
    is the same after the call, field by field, and a second call on it
    gives the same text as the first. *)
Theorem build_is_pure (self : QuerySpec) :
  let after := snd (build_run self) in
  after = self
  /\ query after = query self
  /\ qualifiers after = qualifiers self
  /\ fst (build_run after) = fst (build_run self).
Proof.
  cbn zeta. rewrite build_run_eq. cbn [snd]. rewrite build_run_eq.
  repeat split; reflexivity.
Qed.

(** ** The backoff policy *)

Lemma retry_after_run (response : Response) (attempt : Z) (w : World) :
  _retry_after response attempt w
  = (match Spec.reset_timestamp response with
     | Some reset_time =>
         if (Z.abs reset_time <? FLOAT_LIMIT)%Z
         then Return (Qmax (inject_Z reset_time - now w) 1)
         else Raise OverflowError
     | None => Return (Qmin (2 ^ attempt) 60)
     end, w).
Proof.
  unfold _retry_after, Spec.reset_timestamp.
  destruct (header_get (headers response) "X-RateLimit-Reset") as [h|];
    [|reflexivity].
  unfold PyStr.nonempty. destruct (String.eqb_spec h "") as [->|_]; cbn [negb].
  - reflexivity.
  - destruct (PyStr.to_int h) as [n|]; [|reflexivity].
    unfold bind, time_time, ret, raise.
    now destruct (Z.abs n <? FLOAT_LIMIT)%Z.
Qed.

(** A wait is never negative. *)
Lemma wait_positive (reset : option Z) (attempt : Z) (t : Q) :
  (0 < Spec.wait reset attempt t)%Q.
Proof.
  unfold Spec.wait. destruct reset as [n|].
  - apply Qlt_le_trans with (y := 1%Q); [reflexivity | apply Q.le_max_r].
  - apply Q.min_glb_lt; [apply Qpower_0_lt|]; reflexivity.
Qed.

Lemma time_sleep_run (d : Q) (w : World) :
  (0 <= d)%Q ->
  time_sleep d w
  = match Spec.slept w d with
    | Return _ => (Return tt, Spec.after_sleep w d)
    | Raise e => (Raise e, w)
    end.
Proof.
  intros H. unfold time_sleep, Spec.slept.
  assert (Hmin : Qle_bool SLEEP_MIN d = true).
  { apply Qle_bool_iff. apply Qle_trans with (y := 0%Q); [discriminate | exact H]. }
  apply Qle_bool_iff in H. rewrite Hmin, H. cbn [andb].
  destruct (Qle_bool d SLEEP_MAX); [|reflexivity].
  now destruct (timer w (trace w) d).
Qed.

Lemma slept_sleeps (w : World) (d : Q) :
  Spec.sleeps w d -> Spec.slept w d = Return d.
Proof.
  intros [Hd Ht]. unfold Spec.slept. apply Qle_bool_iff in Hd. now rewrite Hd, Ht.
Qed.

Lemma slept_inv (w : World) (d d' : Q) :
  Spec.slept w d = Return d' -> d' = d /\ Spec.sleeps w d.
Proof.
  unfold Spec.slept, Spec.sleeps.
  destruct (Qle_bool d SLEEP_MAX) eqn:Hd; [|discriminate].
  destruct (timer w (trace w) d) eqn:Ht; [|discriminate].
  intros [= <-]. apply Qle_bool_iff in Hd. now repeat split.
Qed.

Lemma slept_too_long (w : World) (d : Q) :
  (SLEEP_MAX < d)%Q -> Spec.slept w d = Raise OverflowError.
Proof.
  intros H. unfold Spec.slept. destruct (Qle_bool d SLEEP_MAX) eqn:Hd; [|reflexivity].
  apply Qle_bool_iff in Hd. exfalso. apply (Qlt_not_le _ _ H Hd).
Qed.

Lemma slept_refused (w : World) (d : Q) :
  (d <= SLEEP_MAX)%Q -> timer w (trace w) d = false -> Spec.slept w d = Raise OSError.
Proof.
  intros Hd Ht. unfold Spec.slept. apply Qle_bool_iff in Hd. now rewrite Hd, Ht.
Qed.

Lemma slept_raises (w : World) (d : Q) (e : exn) :
  Spec.slept w d = Raise e -> e = OverflowError \/ e = OSError.
Proof.
  unfold Spec.slept. destruct (Qle_bool d SLEEP_MAX);
    [destruct (timer w (trace w) d)|]; intros [= <-]; auto.
Qed.

(** The pause after a rate-limited 403, case by case. *)
Lemma pause_wait (r : Response) (attempt : Z) (w : World) :
  Spec.floats r ->
  Spec.pause r attempt w
  = Spec.slept w (Spec.wait (Spec.reset_timestamp r) attempt (now w)).
Proof.
  unfold Spec.floats, Spec.pause, Spec.wait.
  destruct (Spec.reset_timestamp r) as [n|]; [|reflexivity].
  intros H. apply Z.ltb_lt in H. now rewrite H.
Qed.

Lemma pause_overflow (r : Response) (attempt : Z) (w : World) :
  ~ Spec.floats r -> Spec.pause r attempt w = Raise OverflowError.
Proof.
  unfold Spec.floats, Spec.pause.
  destruct (Spec.reset_timestamp r) as [n|]; [|intros H; now destruct H].
  intros H. destruct (Z.ltb_spec (Z.abs n) FLOAT_LIMIT); [contradiction | reflexivity].
Qed.

Lemma floats_dec (r : Response) : Spec.floats r \/ ~ Spec.floats r.
Proof.
  unfold Spec.floats. destruct (Spec.reset_timestamp r) as [n|]; [|now left].
  destruct (Z_lt_dec (Z.abs n) FLOAT_LIMIT); [now left | now right].
Qed.

Lemma pause_inv (r : Response) (attempt : Z) (w : World) (d : Q) :
  Spec.pause r attempt w = Return d ->
  d = Spec.wait (Spec.reset_timestamp r) attempt (now w)
  /\ Spec.floats r
  /\ Spec.sleeps w d.
Proof.
  intros H. destruct (floats_dec r) as [Hf|Hf].
  - rewrite (pause_wait _ _ _ Hf) in H. apply slept_inv in H as [-> Hs].
    split; [reflexivity | split; assumption].
  - rewrite (pause_overflow _ _ _ Hf) in H. discriminate.
Qed.

Lemma pause_raises (r : Response) (attempt : Z) (w : World) (e : exn) :
  Spec.pause r attempt w = Raise e -> e = OverflowError \/ e = OSError.
Proof.
  intros H. destruct (floats_dec r) as [Hf|Hf].
  - rewrite (pause_wait _ _ _ Hf) in H. now apply slept_raises in H.
  - rewrite (pause_overflow _ _ _ Hf) in H. injection H as <-. now left.
Qed.

(** Closed facts about concrete worlds and responses, by computation. *)
Ltac settle :=
  vm_compute; repeat split;
  first [exact I | reflexivity | discriminate | (intros; discriminate)].

(** C5, as the code has it.  The wait computed for a response at an
    attempt is max(reset - current time, 1) when the reset header is
    present and parses as an integer that converts to a float, the current
    time being read when the wait is computed; it is min(2^attempt, 60)
    when the header is absent or does not parse; and for an integer too
    large for a float no wait is computed: the computation raises
    [OverflowError].  Computing the wait changes nothing. *)
Theorem retry_after_policy (response : Response) (attempt : Z) (w : World) :
  (forall h reset_time,
      header_get (headers response) "X-RateLimit-Reset" = Some h ->
      PyStr.to_int h = Some reset_time ->
      (Z.abs reset_time < FLOAT_LIMIT)%Z ->
      _retry_after response attempt w
      = (Return (Qmax (inject_Z reset_time - now w) 1), w))
  /\ (forall h reset_time,
      header_get (headers response) "X-RateLimit-Reset" = Some h ->
      PyStr.to_int h = Some reset_time ->
      (FLOAT_LIMIT <= Z.abs reset_time)%Z ->
      _retry_after response attempt w = (Raise OverflowError, w))
  /\ (header_get (headers response) "X-RateLimit-Reset" = None ->
      _retry_after response attempt w = (Return (Qmin (2 ^ attempt) 60), w))
  /\ (forall h,
      header_get (headers response) "X-RateLimit-Reset" = Some h ->
      PyStr.to_int h = None ->
      _retry_after response attempt w = (Return (Qmin (2 ^ attempt) 60), w)).
Proof.
  rewrite retry_after_run. unfold Spec.reset_timestamp.
  split; [|split; [|split]].
  - intros h n -> -> H. apply Z.ltb_lt in H. now rewrite H.
  - intros h n -> -> H. apply Z.ltb_ge in H. now rewrite H.
  - intros ->. reflexivity.
  - intros h -> ->. reflexivity.
Qed.

Lemma retry_after_policy_witness :
  _retry_after Scenario.limited_by_header 1 Scenario.slow
  = (Return (Qmax (inject_Z 1700000003 - now Scenario.slow) 1), Scenario.slow)
  /\ _retry_after Scenario.limited_reset_too_large 1 Scenario.slow
     = (Raise OverflowError, Scenario.slow)
  /\ _retry_after Scenario.limited_by_text 2 Scenario.slow
     = (Return (Qmin (2 ^ 2) 60), Scenario.slow)
  /\ _retry_after Scenario.limited_bad_reset 3 Scenario.slow
     = (Return (Qmin (2 ^ 3) 60), Scenario.slow).
Proof.
  split; [|split; [|split]].
  - apply (proj1 (retry_after_policy _ _ _) "1700000003" 1700000003%Z);
      [reflexivity | reflexivity | vm_compute; reflexivity].
  - apply (proj1 (proj2 (retry_after_policy _ _ _)) Scenario.googol_cubed
             (10 ^ 309)%Z);
      [reflexivity | vm_compute; reflexivity | vm_compute; discriminate].
  - apply (proj1 (proj2 (proj2 (retry_after_policy _ _ _)))). reflexivity.
  - apply (proj2 (proj2 (proj2 (retry_after_policy _ _ _))) "soon"); reflexivity.
Defined.

(** The claim read to the letter fails on a reset header that is an
    integer beyond every float: the header is present and parses, and no
    wait comes out. *)
Lemma retry_after_overflow_counterexample :
  header_get (headers Scenario.limited_reset_too_large) "X-RateLimit-Reset"
  = Some Scenario.googol_cubed
  /\ PyStr.to_int Scenario.googol_cubed = Some (10 ^ 309)%Z
  /\ _retry_after Scenario.limited_reset_too_large 1 Scenario.start
     = (Raise OverflowError, Scenario.start)
  /\ fst (_retry_after Scenario.limited_reset_too_large 1 Scenario.start)
     <> Return (Qmax (inject_Z (10 ^ 309) - now Scenario.start) 1).
Proof.
  split; [reflexivity|]. split; [vm_compute; reflexivity|].
  assert (E : _retry_after Scenario.limited_reset_too_large 1 Scenario.start
              = (Raise OverflowError, Scenario.start))
    by (vm_compute; reflexivity).
  split; [exact E|]. rewrite E. discriminate.
Qed.

(** What [int] takes for an integer: blanks around the number, a sign,
    single underscores between digits; not the separators that
    [str.strip] would take off, and not more digits than the interpreter
    converts. *)
Lemma to_int_examples :
  PyStr.to_int " +1_700 " = Some 1700%Z
  /\ PyStr.to_int "-0042" = Some (-42)%Z
  /\ PyStr.to_int (String (ascii_of_N 160) "7" +:+ String (ascii_of_N 133) "")
     = Some 7%Z
  /\ PyStr.to_int (String (ascii_of_N 28) "1700000005") = None
  /\ PyStr.strip (String (ascii_of_N 28) "1700000005") = "1700000005"
  /\ PyStr.to_int "1__7" = None
  /\ PyStr.to_int "17_" = None
  /\ PyStr.to_int "+ 17" = None
  /\ PyStr.to_int "1.0" = None
  /\ PyStr.to_int (String.concat "" (repeat "1" 4300)) <> None
  /\ PyStr.to_int (String.concat "" (repeat "1" 4301)) = None.
Proof.
  repeat split; try (vm_compute; reflexivity). vm_compute. discriminate.
Qed.

Lemma is_rate_limited_iff (response : Response) :
  _is_rate_limited response = true <-> Spec.rate_limited response.
Proof.
  unfold _is_rate_limited, Spec.rate_limited.
  destruct (PyStr.contains _ _); [tauto|].
  destruct (header_get _ _) as [r|].
  - destruct (String.eqb_spec r "0") as [->|Hne]; split; auto; try discriminate.
    intros [?|E]; [discriminate | congruence].
  - split; [discriminate | intros [?|?]; discriminate].
Qed.

(** ** The retry loop, one response at a time *)

Section RetrySteps.

Variable remote : list Event -> Request -> Reply.
Variable repr : value -> string.
Variable self : GitHubSearchClient.
Variable params : Params.
Variable extra : gmap string string.

Local Abbreviation req := (Spec.request_for self params extra).
Local Abbreviation loop := (retry_loop remote repr self params extra).

Lemma retry_loop_nil (w : World) :
  loop [] w
  = (Raise (GitHubAPIError "Retry limit exceeded while calling GitHub API"), w).
Proof. reflexivity. Qed.

Lemma retry_loop_failed (attempt : Z) (rest : list Z) (w : World) :
  remote (trace w) req = Failed ->
  loop (attempt :: rest) w = (Raise RequestException, Spec.after_send w req).
Proof.
  intros H. cbn [retry_loop]. unfold bind at 1, session_get.
  unfold Spec.request_for in H. rewrite H. reflexivity.
Qed.

Lemma retry_loop_ok (attempt : Z) (rest : list Z) (w : World) (r : Response) :
  remote (trace w) req = Replied r ->
  status_code r = 200%Z ->
  loop (attempt :: rest) w
  = (match json r with
     | Some payload => Return payload
     | None => Raise JSONDecodeError
     end, Spec.after_send w req).
Proof.
  intros H Hs. cbn [retry_loop]. unfold bind at 1, session_get.
  unfold Spec.request_for in H. rewrite H, Hs. cbn [Z.eqb Pos.eqb].
  unfold response_json. destruct (json r); reflexivity.
Qed.

(** A rate-limited 403: the wait is computed from the clock as it reads
    once the response is there, and slept, or the call ends there. *)
Lemma retry_loop_limited (attempt : Z) (rest : list Z) (w : World) (r : Response) :
  remote (trace w) req = Replied r ->
  status_code r = 403%Z ->
  _is_rate_limited r = true ->
  loop (attempt :: rest) w
  = match Spec.pause r attempt (Spec.after_send w req) with
    | Return d => loop rest (Spec.after_sleep (Spec.after_send w req) d)
    | Raise e => (Raise e, Spec.after_send w req)
    end.
Proof.
  intros H Hs Hl. cbn [retry_loop]. unfold bind at 1, session_get.
  unfold Spec.request_for in H. rewrite H, Hs, Hl. cbn [Z.eqb Pos.eqb andb].
  unfold bind at 1. rewrite retry_after_run.
  unfold Spec.pause, Spec.after_send, Spec.request_for.
  destruct (Spec.reset_timestamp r) as [n|].
  - destruct (Z.abs n <? FLOAT_LIMIT)%Z; [|reflexivity].
    unfold bind. rewrite time_sleep_run.
    + destruct (Spec.slept _ _) eqn:E; [apply slept_inv in E as [-> _]|];
        reflexivity.
    + apply Qle_trans with (y := 1%Q); [discriminate | apply Q.le_max_r].
  - unfold bind. rewrite time_sleep_run.
    + destruct (Spec.slept _ _) eqn:E; [apply slept_inv in E as [-> _]|];
        reflexivity.
    + apply Qlt_le_weak, (wait_positive None attempt 0).
Qed.

Lemma retry_loop_unauthorized (attempt : Z) (rest : list Z) (w : World) (r : Response) :
  remote (trace w) req = Replied r ->
  status_code r = 401%Z ->
  loop (attempt :: rest) w
  = (Raise (GitHubAPIError "GitHub rejected the token (401 Unauthorized)"),
     Spec.after_send w req).
Proof.
  intros H Hs. cbn [retry_loop]. unfold bind at 1, session_get.
  unfold Spec.request_for in H. rewrite H, Hs. reflexivity.
Qed.

Lemma retry_loop_other (attempt : Z) (rest : list Z) (w : World) (r : Response) :
  remote (trace w) req = Replied r ->
  status_code r <> 200%Z ->
  status_code r <> 401%Z ->
  (status_code r = 403%Z -> _is_rate_limited r = false) ->
  loop (attempt :: rest) w
  = (match _extract_error_message r with
     | Return message =>
         Raise (GitHubAPIError
                  ("GitHub API error " +:+ PyStr.of_int (status_code r)
                   +:+ ": " +:+ PyVal.str repr message))
     | Raise e => Raise e
     end, Spec.after_send w req).
Proof.
  intros H H200 H401 H403. cbn [retry_loop].
  unfold bind at 1, session_get.
  unfold Spec.request_for in H. rewrite H.
  destruct (Z.eqb_spec (status_code r) 200); [contradiction|].
  destruct (Z.eqb_spec (status_code r) 403) as [E|_]; cbn [andb].
  - rewrite (H403 E).
    destruct (Z.eqb_spec (status_code r) 401); [contradiction|].
    unfold bind, lift. destruct (_extract_error_message r); reflexivity.
  - destruct (Z.eqb_spec (status_code r) 401); [contradiction|].
    unfold bind, lift. destruct (_extract_error_message r); reflexivity.
Qed.

(** A rate-limited 403 whose wait can be slept is retried. *)
Lemma retry_loop_retried (attempt : Z) (rest : list Z) (w : World) (r : Response) :
  remote (trace w) req = Replied r ->
  status_code r = 403%Z ->
  _is_rate_limited r = true ->
  Spec.floats r ->
  Spec.sleeps (Spec.after_send w req)
    (Spec.wait (Spec.reset_timestamp r) attempt (now (Spec.after_send w req))) ->
  loop (attempt :: rest) w
  = loop rest
      (Spec.after_sleep (Spec.after_send w req)
         (Spec.wait (Spec.reset_timestamp r) attempt (now (Spec.after_send w req)))).
Proof.
  intros H Hs Hl Hf Hz. rewrite (retry_loop_limited _ _ _ _ H Hs Hl).
  now rewrite (pause_wait _ _ _ Hf), (slept_sleeps _ _ Hz).
Qed.

End RetrySteps.

Lemma answers_head remote t0 rep replies req :
  Spec.answers remote t0 (rep :: replies) -> remote t0 req = rep.
Proof.
  intros H. specialize (H [] req rep eq_refl). now rewrite app_nil_r in H.
Qed.

Lemma answers_tail remote t0 rep replies r d :
  Spec.answers remote t0 (rep :: replies) ->
  Spec.answers remote ((t0 ++ [Sent r]) ++ [Slept d]) replies.
Proof.
  intros H evs req' rep' Hn.
  specialize (H ([Sent r; Slept d] ++ evs) req' rep' Hn).
  now rewrite <- !app_assoc.
Qed.

(** ** Retry sequences *)

Ltac flatten_world :=
  unfold Spec.after_sleep, Spec.after_send, Spec.after; cbn [clock timer trace];
  rewrite <- ?app_assoc; cbn [app].

(** C1, as the code has it.  Two rate-limited 403 responses followed by a
    200 make the call return the decoded body of the 200 after three
    requests and exactly two sleeps, and three rate-limited 403 responses in
    a row make it raise "Retry limit exceeded while calling GitHub API"
    after exactly three requests, with none after them (and a third sleep):
    this when every wait can be slept, that is when a reset timestamp
    converts to a float and the wait, computed from the clock as it reads
    when the response is there, fits the timer of the machine.  A first
    rate-limited 403 whose reset timestamp does not convert, or whose wait
    is longer than the timer counts, makes the call raise [OverflowError]
    after one request and no sleep. *)
Theorem retry_sequences :
  (forall remote repr self params extra w r1 r2 r3 payload,
      status_code r1 = 403%Z -> Spec.rate_limited r1 ->
      status_code r2 = 403%Z -> Spec.rate_limited r2 ->
      status_code r3 = 200%Z -> json r3 = Some payload ->
      Spec.answers remote (trace w) [Replied r1; Replied r2; Replied r3] ->
      let req := Spec.request_for self params extra in
      let w1 := Spec.after_send w req in
      let d1 := Spec.wait (Spec.reset_timestamp r1) 1 (now w1) in
      let w2 := Spec.after_send (Spec.after_sleep w1 d1) req in
      let d2 := Spec.wait (Spec.reset_timestamp r2) 2 (now w2) in
      Spec.floats r1 -> Spec.sleeps w1 d1 ->
      Spec.floats r2 -> Spec.sleeps w2 d2 ->
      _request_with_retry remote repr self params extra w
      = (Return payload,
         Spec.after w [Sent req; Slept d1; Sent req; Slept d2; Sent req]))
  /\ (forall remote repr self params extra w r1 r2 r3,
      status_code r1 = 403%Z -> Spec.rate_limited r1 ->
      status_code r2 = 403%Z -> Spec.rate_limited r2 ->
      status_code r3 = 403%Z -> Spec.rate_limited r3 ->
      Spec.answers remote (trace w) [Replied r1; Replied r2; Replied r3] ->
      let req := Spec.request_for self params extra in
      let w1 := Spec.after_send w req in
      let d1 := Spec.wait (Spec.reset_timestamp r1) 1 (now w1) in
      let w2 := Spec.after_send (Spec.after_sleep w1 d1) req in
      let d2 := Spec.wait (Spec.reset_timestamp r2) 2 (now w2) in
      let w3 := Spec.after_send (Spec.after_sleep w2 d2) req in
      let d3 := Spec.wait (Spec.reset_timestamp r3) 3 (now w3) in
      Spec.floats r1 -> Spec.sleeps w1 d1 ->
      Spec.floats r2 -> Spec.sleeps w2 d2 ->
      Spec.floats r3 -> Spec.sleeps w3 d3 ->
      _request_with_retry remote repr self params extra w
      = (Raise (GitHubAPIError "Retry limit exceeded while calling GitHub API"),
         Spec.after w [Sent req; Slept d1; Sent req; Slept d2;
                       Sent req; Slept d3]))
  /\ (forall remote repr self params extra w r1,
      status_code r1 = 403%Z -> Spec.rate_limited r1 ->
      remote (trace w) (Spec.request_for self params extra) = Replied r1 ->
      let req := Spec.request_for self params extra in
      let w1 := Spec.after_send w req in
      let d1 := Spec.wait (Spec.reset_timestamp r1) 1 (now w1) in
      ~ Spec.floats r1 \/ (SLEEP_MAX < d1)%Q ->
      _request_with_retry remote repr self params extra w
      = (Raise OverflowError, Spec.after w [Sent req])).
Proof.
  split; [|split].
  - intros remote repr self params extra w r1 r2 r3 payload
      S1 L1 S2 L2 S3 J3 A1 req w1 d1 w2 d2 F1 Z1 F2 Z2.
    apply is_rate_limited_iff in L1, L2.
    unfold _request_with_retry. change (range 1 (MAX_RETRIES + 1)) with [1; 2; 3]%Z.
    rewrite (retry_loop_retried remote repr self params extra _ _ w r1
               (answers_head _ _ _ _ _ A1) S1 L1 F1 Z1).
    pose proof (answers_tail _ _ _ _ req d1 A1) as A2.
    rewrite (retry_loop_retried remote repr self params extra _ _
               (Spec.after_sleep w1 d1) r2
               (answers_head _ _ _ _ _ A2) S2 L2 F2 Z2).
    pose proof (answers_tail _ _ _ _ req d2 A2) as A3.
    rewrite (retry_loop_ok remote repr self params extra _ _
               (Spec.after_sleep w2 d2) r3
               (answers_head _ _ _ _ _ A3) S3).
    rewrite J3. fold req.
    clearbody d2. subst w2. clearbody d1. subst w1.
    flatten_world. reflexivity.
  - intros remote repr self params extra w r1 r2 r3
      S1 L1 S2 L2 S3 L3 A1 req w1 d1 w2 d2 w3 d3 F1 Z1 F2 Z2 F3 Z3.
    apply is_rate_limited_iff in L1, L2, L3.
    unfold _request_with_retry. change (range 1 (MAX_RETRIES + 1)) with [1; 2; 3]%Z.
    rewrite (retry_loop_retried remote repr self params extra _ _ w r1
               (answers_head _ _ _ _ _ A1) S1 L1 F1 Z1).
    pose proof (answers_tail _ _ _ _ req d1 A1) as A2.
    rewrite (retry_loop_retried remote repr self params extra _ _
               (Spec.after_sleep w1 d1) r2
               (answers_head _ _ _ _ _ A2) S2 L2 F2 Z2).
    pose proof (answers_tail _ _ _ _ req d2 A2) as A3.
    rewrite (retry_loop_retried remote repr self params extra _ _
               (Spec.after_sleep w2 d2) r3
               (answers_head _ _ _ _ _ A3) S3 L3 F3 Z3).
    rewrite retry_loop_nil. fold req. fold w3. fold d3.
    clearbody d3. subst w3. clearbody d2. subst w2. clearbody d1. subst w1.
    flatten_world. reflexivity.
  - intros remote repr self params extra w r1 S1 L1 H req w1 d1 Hbad.
    apply is_rate_limited_iff in L1.
    unfold _request_with_retry. change (range 1 (MAX_RETRIES + 1)) with [1; 2; 3]%Z.
    rewrite (retry_loop_limited remote repr self params extra _ _ w r1 H S1 L1).
    fold req. fold w1.
    assert (E : Spec.pause r1 1 w1 = Raise OverflowError).
    { destruct (floats_dec r1) as [Hf|Hf]; [|now apply pause_overflow].
      destruct Hbad as [Hn|Hd]; [contradiction|].
      rewrite (pause_wait _ _ _ Hf). now apply slept_too_long. }
    rewrite E. reflexivity.
Qed.

Lemma script_answers (replies : list Reply) :
  Spec.answers (Scenario.script replies) [] replies.
Proof.
  intros evs req rep H. unfold Scenario.script. cbn [app].
  now apply nth_error_nth.
Qed.

Lemma retry_sequences_witness :
  fst (Scenario.call [Replied Scenario.limited_by_text;
                      Replied Scenario.limited_by_header;
                      Replied (Scenario.page_of 2)])
  = Return (VDict [("items", VList [VDict []; VDict []])])
  /\ sleeps_of (trace (snd (Scenario.call
                              [Replied Scenario.limited_by_text;
                               Replied Scenario.limited_by_header;
                               Replied (Scenario.page_of 2)]))) = [2; 1]%Q
  /\ pages_asked (trace (snd (Scenario.call
                              [Replied Scenario.limited_by_text;
                               Replied Scenario.limited_by_header;
                               Replied (Scenario.page_of 2)]))) = [1; 1; 1]%Z
  /\ fst (Scenario.call [Replied Scenario.limited_by_text;
                         Replied Scenario.limited_by_header;
                         Replied Scenario.limited_by_text])
     = Raise (GitHubAPIError "Retry limit exceeded while calling GitHub API")
  /\ pages_asked (trace (snd (Scenario.call
                              [Replied Scenario.limited_by_text;
                               Replied Scenario.limited_by_header;
                               Replied Scenario.limited_by_text]))) = [1; 1; 1]%Z
  /\ Scenario.call [Replied Scenario.limited_reset_in_ms]
     = (Raise OverflowError,
        Spec.after Scenario.start
          [Sent (Spec.request_for Scenario.client Scenario.leak_params ∅)]).
Proof.
  unfold Scenario.call.
  pose proof (proj1 retry_sequences _ Scenario.plain_repr Scenario.client
                Scenario.leak_params ∅ Scenario.start
                Scenario.limited_by_text Scenario.limited_by_header
                (Scenario.page_of 2) (VDict [("items", VList [VDict []; VDict []])])
                eq_refl (or_introl eq_refl) eq_refl (or_intror eq_refl)
                eq_refl eq_refl (script_answers _)) as H1.
  pose proof (proj1 (proj2 retry_sequences) _ Scenario.plain_repr Scenario.client
                Scenario.leak_params ∅ Scenario.start
                Scenario.limited_by_text Scenario.limited_by_header
                Scenario.limited_by_text
                eq_refl (or_introl eq_refl) eq_refl (or_intror eq_refl)
                eq_refl (or_introl eq_refl) (script_answers _)) as H2.
  pose proof (proj2 (proj2 retry_sequences)
                (Scenario.script [Replied Scenario.limited_reset_in_ms])
                Scenario.plain_repr Scenario.client Scenario.leak_params ∅
                Scenario.start Scenario.limited_reset_in_ms
                eq_refl (or_introl eq_refl) eq_refl) as H3.
  cbv zeta in H1, H2, H3.
  rewrite H1 by settle. rewrite H2 by settle.
  rewrite H3 by (right; settle).
  vm_compute. repeat split; reflexivity.
Defined.

(** The claim read to the letter fails on a first response whose reset
    time is given in milliseconds: the responses are two rate-limited 403s
    and a 200, and the call raises [OverflowError] after one request,
    without a sleep. *)
Lemma retry_sequence_counterexample :
  status_code Scenario.limited_reset_in_ms = 403%Z
  /\ Spec.rate_limited Scenario.limited_reset_in_ms
  /\ status_code Scenario.limited_by_text = 403%Z
  /\ Spec.rate_limited Scenario.limited_by_text
  /\ status_code (Scenario.page_of 2) = 200%Z
  /\ Spec.answers
       (Scenario.script [Replied Scenario.limited_reset_in_ms;
                         Replied Scenario.limited_by_text;
                         Replied (Scenario.page_of 2)])
       (trace Scenario.start)
       [Replied Scenario.limited_reset_in_ms;
        Replied Scenario.limited_by_text;
        Replied (Scenario.page_of 2)]
  /\ fst (Scenario.call [Replied Scenario.limited_reset_in_ms;
                         Replied Scenario.limited_by_text;
                         Replied (Scenario.page_of 2)])
     = Raise OverflowError
  /\ fst (Scenario.call [Replied Scenario.limited_reset_in_ms;
                         Replied Scenario.limited_by_text;
                         Replied (Scenario.page_of 2)])
     <> Return (VDict [("items", VList [VDict []; VDict []])])
  /\ sleeps_of (trace (snd (Scenario.call
                              [Replied Scenario.limited_reset_in_ms;
                               Replied Scenario.limited_by_text;
                               Replied (Scenario.page_of 2)]))) = []
  /\ pages_asked (trace (snd (Scenario.call
                               [Replied Scenario.limited_reset_in_ms;
                                Replied Scenario.limited_by_text;
                                Replied (Scenario.page_of 2)]))) = [1%Z].
Proof.
  split; [reflexivity|]. split; [left; reflexivity|].
  split; [reflexivity|]. split; [left; reflexivity|].
  split; [reflexivity|]. split; [apply script_answers|].
  assert (E : Scenario.call [Replied Scenario.limited_reset_in_ms;
                             Replied Scenario.limited_by_text;
                             Replied (Scenario.page_of 2)]
              = (Raise OverflowError,
                 Spec.after Scenario.start
                   [Sent (Spec.request_for Scenario.client Scenario.leak_params ∅)]))
    by (vm_compute; reflexivity).
  rewrite E. cbn [fst snd]. split; [reflexivity|]. split; [discriminate|].
  split; reflexivity.
Qed.

(** ** What one response does to the retry loop *)




(** ** Item parsing *)

Lemma parse_item_well_shaped (fields : list (string * value)) :
  Spec.well_shaped fields ->
  parse_item (VDict fields) = Return (Spec.result_of fields).
Proof.
  unfold Spec.well_shaped, parse_item, Spec.result_of, Spec.field_or, PyVal.or_else.
  cbn [PyVal.get obind].
  intros [Hrepo Htm].
  destruct (PyVal.lookup "repository" fields) as [[]|]; try contradiction;
    destruct (PyVal.lookup "text_matches" fields) as [[| | | | |[|[]]|[]]|];
    cbn in Htm; try discriminate Htm;
    cbn [PyVal.truthy]; try rewrite Htm;
    cbn [PyVal.truthy PyVal.first PyVal.get obind];
    destruct (PyVal.lookup "score" fields) as [sc|];
    cbn [PyVal.truthy]; reflexivity.
Qed.

(** Conversely, the parser returns only on items of that shape. *)
Lemma parse_item_returns_only_well_shaped (fields : list (string * value))
    (r : SearchResult) :
  parse_item (VDict fields) = Return r -> Spec.well_shaped fields.
Proof.
  unfold Spec.well_shaped, parse_item, PyVal.or_else. cbn [PyVal.get obind].
  destruct (PyVal.lookup "text_matches" fields) as [tm|].
  - destruct (PyVal.truthy tm) eqn:Ht.
    + rewrite Ht.
      destruct tm as [| | | | |[|[]]|]; cbn [PyVal.first PyVal.get obind];
        try discriminate;
        try (destruct s; cbn [PyVal.first PyVal.get obind]; discriminate).
      destruct (PyVal.lookup "repository" fields) as [[]|];
        cbn [PyVal.get obind]; try discriminate; intros _; split; exact I.
    + cbn [PyVal.truthy obind].
      destruct (PyVal.lookup "repository" fields) as [[]|];
        cbn [PyVal.get obind]; try discriminate; intros _; (split; [exact I|]);
        destruct tm as [| | | | |[|[]]|]; cbn in Ht;
        first [exact I | reflexivity | discriminate Ht].
  - cbn [PyVal.truthy obind].
    destruct (PyVal.lookup "repository" fields) as [[]|];
      cbn [PyVal.get obind]; try discriminate; intros _; split; exact I.
Qed.

(** An item that the parser raises on makes it raise one of three
    exceptions. *)
Lemma parse_item_raises (fields : list (string * value)) (e : exn) :
  parse_item (VDict fields) = Raise e ->
  e = AttributeError \/ e = TypeError \/ e = KeyError.
Proof.
  unfold parse_item, PyVal.or_else. cbn [PyVal.get obind].
  destruct (PyVal.lookup "text_matches" fields) as [tm|].
  - destruct (PyVal.truthy tm) eqn:Ht.
    + rewrite Ht.
      destruct tm as [| | | |s|[|[]]|]; cbn [PyVal.first PyVal.get obind];
        try discriminate Ht;
        try (intros [= <-]; auto; fail);
        try (destruct s; [discriminate Ht|];
             cbn [PyVal.first PyVal.get obind]; intros [= <-]; auto; fail).
      destruct (PyVal.lookup "repository" fields) as [[]|];
        cbn [PyVal.get obind]; try discriminate; intros [= <-]; auto.
    + cbn [PyVal.truthy obind].
      destruct (PyVal.lookup "repository" fields) as [[]|];
        cbn [PyVal.get obind]; try discriminate; intros [= <-]; auto.
  - cbn [PyVal.truthy obind].
    destruct (PyVal.lookup "repository" fields) as [[]|];
      cbn [PyVal.get obind]; try discriminate; intros [= <-]; auto.
Qed.

Lemma parse_item_not_well_shaped (fields : list (string * value)) :
  ~ Spec.well_shaped fields ->
  exists e,
    parse_item (VDict fields) = Raise e
    /\ (e = AttributeError \/ e = TypeError \/ e = KeyError).
Proof.
  intros H. destruct (parse_item (VDict fields)) as [r|e] eqn:E.
  - destruct H. now apply parse_item_returns_only_well_shaped with r.
  - exists e. split; [reflexivity|]. now apply parse_item_raises with fields.
Qed.

Lemma parse_item_not_object (item : value) :
  (forall fields, item <> VDict fields) -> parse_item item = Raise AttributeError.
Proof.
  intros H. destruct item as [| | | | | |fields]; try reflexivity.
  now destruct (H fields).
Qed.

Lemma parse_item_not_ok (item : value) :
  ~ Spec.item_ok item -> exists e, parse_item item = Raise e.
Proof.
  intros H. destruct item as [| | | | | |fields];
    try (exists AttributeError; reflexivity).
  destruct (parse_item_not_well_shaped fields H) as (e & E & _). now exists e.
Qed.

Lemma parse_each_fails (items : list value) (parsed : list SearchResult) :
  Exists (fun item => ~ Spec.item_ok item) items ->
  exists e, parse_each parsed items = Raise e.
Proof.
  intros H. revert parsed.
  induction H as [item items Hitem|item items _ IH]; intros parsed;
    cbn [parse_each].
  - destruct (parse_item_not_ok _ Hitem) as (e & ->). now exists e.
  - destruct (parse_item item) as [r|e]; cbn [obind]; [apply IH | now exists e].
Qed.

Lemma parse_each_ok (items : list value) (parsed : list SearchResult) :
  Forall Spec.item_ok items ->
  parse_each parsed items = Return (parsed ++ map Spec.item_result items).
Proof.
  intros H. revert parsed.
  induction H as [|item items Hitem _ IH]; intros parsed; cbn [parse_each map].
  - now rewrite app_nil_r.
  - destruct item; try contradiction. cbn [Spec.item_ok] in Hitem.
    rewrite (parse_item_well_shaped _ Hitem). cbn [obind Spec.item_result].
    rewrite IH, <- app_assoc. reflexivity.
Qed.

(** Whatever the parser returns has one record per item, in order. *)
Lemma parse_each_Forall2 (items : list value) (parsed rs : list SearchResult) :
  parse_each parsed items = Return rs ->
  exists new,
    rs = parsed ++ new
    /\ Forall2 (fun item r => parse_item item = Return r) items new.
Proof.
  revert parsed rs. induction items as [|item items IH]; intros parsed rs;
    cbn [parse_each].
  - intros [= <-]. exists []. now rewrite app_nil_r.
  - destruct (parse_item item) as [r|e] eqn:E; cbn [obind]; [|discriminate].
    intros H. destruct (IH _ _ H) as (new & -> & HF).
    exists (r :: new). rewrite <- app_assoc. split; [reflexivity|].
    now constructor.
Qed.

Lemma parse_items_length (items : list value) (rs : list SearchResult) :
  _parse_items (VList items) = Return rs -> length rs = length items.
Proof.
  unfold _parse_items. cbn [PyVal.iterate obind]. intros H.
  destruct (parse_each_Forall2 _ _ _ H) as (new & -> & HF).
  cbn [app]. symmetry. eapply Forall2_length. exact HF.
Qed.

Lemma parse_items_ok (items : list value) :
  Forall Spec.item_ok items ->
  _parse_items (VList items) = Return (map Spec.item_result items).
Proof.
  intros H. unfold _parse_items. cbn [PyVal.iterate obind].
  now rewrite parse_each_ok.
Qed.




(** ** Ranges *)

Lemma range_empty (lo hi : Z) : (hi <= lo)%Z -> range lo hi = [].
Proof.
  intros H. unfold range. replace (Z.to_nat (hi - lo)) with 0%nat by lia.
  reflexivity.
Qed.

Lemma range_cons (lo hi : Z) :
  (lo < hi)%Z -> range lo hi = lo :: range (lo + 1) hi.
Proof.
  intros H. unfold range.
  replace (Z.to_nat (hi - lo)) with (S (Z.to_nat (hi - (lo + 1)))) by lia.
  cbn [seq map]. f_equal; [lia|].
  rewrite <- seq_shift, map_map. apply map_ext. intros i. lia.
Qed.

Lemma range_In (lo hi x : Z) : In x (range lo hi) <-> (lo <= x < hi)%Z.
Proof.
  unfold range. rewrite in_map_iff. split.
  - intros (i & <- & Hi). apply in_seq in Hi. lia.
  - intros H. exists (Z.to_nat (x - lo)). split; [lia|]. apply in_seq. lia.
Qed.

(** A page inside a range comes after exactly the pages below it. *)
Lemma range_split (done rest : list Z) (lo hi p : Z) :
  range lo hi = done ++ p :: rest ->
  (lo <= p < hi)%Z /\ (forall x, In x done -> (lo <= x < p)%Z).
Proof.
  revert lo. induction done as [|a done IH]; intros lo H.
  - destruct (Z_lt_le_dec lo hi) as [Hlt|Hge].
    + rewrite (range_cons _ _ Hlt) in H. injection H as <- _.
      split; [lia | intros x []].
    + rewrite (range_empty _ _ Hge) in H. discriminate.
  - destruct (Z_lt_le_dec lo hi) as [Hlt|Hge].
    + rewrite (range_cons _ _ Hlt) in H. cbn [app] in H. injection H as <- H.
      destruct (IH _ H) as [Hp Hd]. split; [lia|].
      intros x [<-|Hx]; [lia|]. specialize (Hd x Hx). lia.
    + rewrite (range_empty _ _ Hge) in H. discriminate.
Qed.

(** ** Pagination *)

(** C10. With [pages] below 1 the loop has no turn: the call returns the
    empty list and the world is as it was, so no request has gone out and
    nothing is raised about the argument. *)
Theorem no_pages_no_requests remote repr self q per_page pages text_matches w :
  (pages < 1)%Z ->
  search_code remote repr self q per_page pages text_matches w = (Return [], w).
Proof.
  intros H. unfold search_code. rewrite range_empty by lia. reflexivity.
Qed.

Lemma no_pages_no_requests_witness :
  (0 < 1)%Z
  /\ Scenario.search Scenario.two_pages 30 0 true = (Return [], Scenario.start)
  /\ Scenario.search Scenario.two_pages 30 (-3) false = (Return [], Scenario.start).
Proof.
  split; [reflexivity|]. unfold Scenario.search.
  split; apply no_pages_no_requests; reflexivity.
Defined.

Lemma requests_of_app (a b : list Event) :
  requests_of (a ++ b) = requests_of a ++ requests_of b.
Proof. apply flat_map_app. Qed.

Section Loops.

Variable remote : list Event -> Request -> Reply.
Variable repr : value -> string.
Variable self : GitHubSearchClient.

(** The retry loop only adds events to the trace, and every request
    among them is the one it was asked to make. *)
Lemma retry_loop_trace params extra attempts w o w' :
  retry_loop remote repr self params extra attempts w = (o, w') ->
  exists evs,
    trace w' = trace w ++ evs
    /\ Forall (eq (Spec.request_for self params extra)) (requests_of evs).
Proof.
  revert w. induction attempts as [|attempt rest IH]; intros w.
  - rewrite retry_loop_nil. intros [= _ <-]. exists [].
    split; [now rewrite app_nil_r | constructor].
  - assert (Hone : exists evs,
               trace (Spec.after_send w (Spec.request_for self params extra))
               = trace w ++ evs
               /\ Forall (eq (Spec.request_for self params extra))
                    (requests_of evs)).
    { exists [Sent (Spec.request_for self params extra)].
      split; [reflexivity | repeat constructor]. }
    destruct (remote (trace w) (Spec.request_for self params extra))
      as [r|] eqn:Hr.
    + destruct (Z.eq_dec (status_code r) 200%Z) as [E200|N200].
      { rewrite (retry_loop_ok _ _ _ _ _ _ _ _ r Hr E200).
        intros [= _ <-]. exact Hone. }
      destruct (Z.eq_dec (status_code r) 401%Z) as [E401|N401].
      { rewrite (retry_loop_unauthorized _ _ _ _ _ _ _ _ r Hr E401).
        intros [= _ <-]. exact Hone. }
      destruct (Z.eq_dec (status_code r) 403%Z) as [E403|N403];
        [destruct (_is_rate_limited r) eqn:L|].
      * rewrite (retry_loop_limited _ _ _ _ _ _ _ _ r Hr E403 L).
        destruct (Spec.pause r attempt _) as [d|e]; [|intros [= _ <-]; exact Hone].
        intros H. apply IH in H as (evs & Ht & HF).
        exists (Sent (Spec.request_for self params extra) :: Slept d :: evs).
        split.
        -- rewrite Ht. flatten_world. reflexivity.
        -- cbn. now constructor.
      * rewrite (retry_loop_other _ _ _ _ _ _ _ _ r Hr N200 N401 (fun _ => L)).
        intros [= _ <-]. exact Hone.
      * rewrite (retry_loop_other _ _ _ _ _ _ _ _ r Hr N200 N401).
        -- intros [= _ <-]. exact Hone.
        -- intros E. contradiction.
    + rewrite (retry_loop_failed _ _ _ _ _ _ _ _ Hr).
      intros [= _ <-]. exact Hone.
Qed.

Variable q : QuerySpec.
Variable per_page : Z.
Variable hdrs : gmap string string.

Local Abbreviation request_of page :=
  (Spec.request_for self (Spec.page_params q per_page page) hdrs).
Local Abbreviation fetch := (Spec.fetch_page remote repr self q per_page hdrs).
Local Abbreviation loop := (page_loop remote repr self q per_page hdrs).

(** The page loop, one turn at a time. *)
Lemma page_loop_cons page rest results w :
  loop (page :: rest) results w
  = match fetch page w with
    | (Return (parsed, count), w1) =>
        if (count <? per_page)%Z then (Return (results ++ parsed), w1)
        else loop rest (results ++ parsed) w1
    | (Raise e, w1) => (Raise e, w1)
    end.
Proof.
  cbn [page_loop]. unfold Spec.fetch_page, Spec.page_params, bind, lift, ret.
  destruct (_request_with_retry _ _ _ _ _ w) as [[payload|e] w1]; [|reflexivity].
  destruct (PyVal.get payload "items" (VList [])) as [items|e]; [|reflexivity].
  destruct (_parse_items items) as [parsed|e]; [|reflexivity].
  destruct (PyVal.len items) as [count|e]; [|reflexivity].
  destruct (count <? per_page)%Z; reflexivity.
Qed.

Lemma fetch_page_trace page w o w' :
  fetch page w = (o, w') ->
  exists evs,
    trace w' = trace w ++ evs /\ Forall (eq (request_of page)) (requests_of evs).
Proof.
  unfold Spec.fetch_page, _request_with_retry, bind, lift, ret.
  destruct (retry_loop _ _ _ _ _ _ w) as [[payload|e] w1] eqn:R;
    apply retry_loop_trace in R.
  - destruct (PyVal.get payload "items" (VList [])) as [items|e];
      [|intros [= _ <-]; exact R].
    destruct (_parse_items items) as [parsed|e]; [|intros [= _ <-]; exact R].
    destruct (PyVal.len items) as [count|e]; intros [= _ <-]; exact R.
  - intros [= _ <-]. exact R.
Qed.

(** Every request of the page loop is one of its page requests. *)
Lemma page_loop_trace pages results w o w' :
  loop pages results w = (o, w') ->
  exists evs,
    trace w' = trace w ++ evs
    /\ Forall (fun r => exists p, In p pages /\ r = request_of p)
         (requests_of evs).
Proof.
  revert results w. induction pages as [|page rest IH]; intros results w.
  - cbn [page_loop]. unfold ret. intros [= _ <-]. exists [].
    split; [now rewrite app_nil_r | constructor].
  - rewrite page_loop_cons.
    destruct (fetch page w) as [[[parsed count]|e1] w1] eqn:F;
      destruct (fetch_page_trace _ _ _ _ F) as (evs1 & Ht1 & HF1).
    + assert (H1 : Forall (fun r => exists p, In p (page :: rest) /\ r = request_of p)
                     (requests_of evs1)).
      { eapply List.Forall_impl; [|exact HF1]. intros r <-. exists page.
        split; [left|]; reflexivity. }
      destruct (count <? per_page)%Z.
      * intros [= _ <-]. exists evs1. split; assumption.
      * intros H. destruct (IH _ _ H) as (evs & Ht & HF).
        exists (evs1 ++ evs). split.
        -- rewrite Ht, Ht1, app_assoc. reflexivity.
        -- rewrite requests_of_app. apply Forall_app. split; [exact H1|].
           eapply List.Forall_impl; [|exact HF]. intros r (p & Hp & ->).
           exists p. split; [right; exact Hp | reflexivity].
    + intros [= _ <-]. exists evs1. split; [assumption|].
      eapply List.Forall_impl; [|exact HF1]. intros r <-. exists page.
      split; [left|]; reflexivity.
Qed.

End Loops.

(** ** Pages fetched from a network that serves them *)

Lemma fetched_prefix per_page size pages :
  exists rest, pages = Spec.fetched per_page size pages ++ rest.
Proof.
  induction pages as [|p pages [rest IH]]; cbn [Spec.fetched].
  - exists []. reflexivity.
  - destruct (size p <? per_page)%Z.
    + exists pages. reflexivity.
    + exists rest. cbn [app]. now rewrite <- IH.
Qed.

(** A page with fewer than [per_page] items is the last one fetched. *)
Lemma fetched_short_last per_page size pages p :
  In p (Spec.fetched per_page size pages) ->
  (size p < per_page)%Z ->
  exists before, Spec.fetched per_page size pages = before ++ [p].
Proof.
  induction pages as [|a pages IH]; cbn [Spec.fetched]; [intros []|].
  destruct (Z.ltb_spec (size a) per_page) as [Hs|Hs].
  - intros [<-|[]] _. exists []. reflexivity.
  - intros [<-|Hin] Hp; [lia|].
    destruct (IH Hin Hp) as [before ->]. exists (a :: before). reflexivity.
Qed.

(** The loop stops for no other reason: with no short page, every page
    is fetched. *)
Lemma fetched_all per_page size pages :
  (forall p, In p pages -> (per_page <= size p)%Z) ->
  Spec.fetched per_page size pages = pages.
Proof.
  induction pages as [|a pages IH]; intros H; cbn [Spec.fetched]; [reflexivity|].
  destruct (Z.ltb_spec (size a) per_page) as [Hs|Hs].
  - specialize (H a (or_introl eq_refl)). lia.
  - rewrite IH; [reflexivity|]. intros p Hp. apply H. now right.
Qed.

Section Served.

Variable remote : list Event -> Request -> Reply.
Variable repr : value -> string.
Variable self : GitHubSearchClient.
Variable q : QuerySpec.
Variable per_page : Z.
Variable hdrs : gmap string string.
Variable page_items : Z -> list value.
Variable parsed : Z -> list SearchResult.

Hypothesis served : Spec.serves remote page_items.
Hypothesis parses :
  forall p, _parse_items (VList (page_items p)) = Return (parsed p).

Local Abbreviation request_of page :=
  (Spec.request_for self (Spec.page_params q per_page page) hdrs).
Local Abbreviation size := (fun p => Z.of_nat (length (page_items p))).

Lemma fetch_page_served page w :
  Spec.fetch_page remote repr self q per_page hdrs page w
  = (Return (parsed page, size page), Spec.after_send w (request_of page)).
Proof.
  unfold Spec.fetch_page, _request_with_retry.
  change (range 1 (MAX_RETRIES + 1)) with [1; 2; 3]%Z.
  destruct (served (trace w) (request_of page))
    as (resp & payload & Hr & Hs & Hj & Hi).
  unfold bind at 1.
  rewrite (retry_loop_ok remote repr self _ hdrs 1%Z [2; 3]%Z w resp Hr Hs), Hj.
  cbn [Spec.request_for sent_params Spec.page_params param_page] in Hi.
  unfold bind, lift, ret. rewrite Hi, parses. reflexivity.
Qed.

Lemma page_loop_served pages results w :
  page_loop remote repr self q per_page hdrs pages results w
  = (Return (results ++ flat_map parsed (Spec.fetched per_page size pages)),
     Spec.after w
       (map (fun p => Sent (request_of p)) (Spec.fetched per_page size pages))).
Proof.
  revert results w. induction pages as [|page rest IH]; intros results w.
  - cbn [page_loop Spec.fetched flat_map map]. unfold ret, Spec.after.
    rewrite !app_nil_r. now destruct w.
  - rewrite page_loop_cons, fetch_page_served. cbn [Spec.fetched].
    destruct (size page <? per_page)%Z.
    + cbn [flat_map map]. now rewrite app_nil_r.
    + rewrite IH. cbn [flat_map map]. flatten_world. reflexivity.
Qed.

End Served.

Lemma parsed_total_length (page_items : Z -> list value)
    (parsed : Z -> list SearchResult) (pages : list Z) :
  (forall p, _parse_items (VList (page_items p)) = Return (parsed p)) ->
  length (flat_map parsed pages)
  = list_sum (map (fun p => length (page_items p)) pages).
Proof.
  intros H. induction pages as [|p pages IH]; [reflexivity|].
  cbn [flat_map map list_sum]. rewrite length_app, IH.
  now rewrite (parse_items_length _ _ (H p)).
Qed.

Lemma pages_asked_app (a b : list Event) :
  pages_asked (a ++ b) = pages_asked a ++ pages_asked b.
Proof. unfold pages_asked. now rewrite requests_of_app, map_app. Qed.

Lemma range_sorted (lo hi : Z) : StronglySorted Z.le (range lo hi).
Proof.
  remember (Z.to_nat (hi - lo)) as n eqn:Hn. revert lo Hn.
  induction n as [|n IH]; intros lo Hn.
  - rewrite range_empty by lia. constructor.
  - rewrite range_cons by lia. constructor; [apply IH; lia|].
    apply List.Forall_forall. intros x Hx. apply range_In in Hx. lia.
Qed.

Lemma same_page_sorted (page : Z) (l : list Z) :
  Forall (eq page) l -> StronglySorted Z.le l.
Proof.
  induction 1 as [|x l <- Hl IH]; constructor; [exact IH|].
  eapply List.Forall_impl; [|exact Hl]. intros y <-. lia.
Qed.

(** Whatever the network does, the page loop asks for pages in the order
    of its list, a page possibly several times in a row. *)
Lemma page_loop_ascending remote repr self q per_page hdrs pages results w o w' :
  StronglySorted Z.le pages ->
  page_loop remote repr self q per_page hdrs pages results w = (o, w') ->
  exists evs,
    trace w' = trace w ++ evs
    /\ StronglySorted Z.le (pages_asked evs)
    /\ Forall (fun x => In x pages) (pages_asked evs).
Proof.
  intros Hsorted. revert results w.
  induction Hsorted as [|page rest Hrest IH Hle]; intros results w.
  - cbn [page_loop]. unfold ret. intros [= _ <-]. exists [].
    split; [now rewrite app_nil_r|]. split; constructor.
  - rewrite page_loop_cons.
    destruct (Spec.fetch_page _ _ _ _ _ _ page w) as [oc w1] eqn:F.
    destruct (fetch_page_trace _ _ _ _ _ _ _ _ _ _ F) as (evs1 & Ht1 & HF1).
    assert (H1 : Forall (eq page) (pages_asked evs1)).
    { unfold pages_asked. apply List.Forall_map.
      eapply List.Forall_impl; [|exact HF1]. intros r <-. reflexivity. }
    assert (Hone : exists evs,
               trace w1 = trace w ++ evs
               /\ StronglySorted Z.le (pages_asked evs)
               /\ Forall (fun x => In x (page :: rest)) (pages_asked evs)).
    { exists evs1. split; [exact Ht1|]. split; [now apply same_page_sorted with page|].
      eapply List.Forall_impl; [|exact H1]. intros x <-. now left. }
    destruct oc as [[parsed count]|e]; [|intros [= _ <-]; exact Hone].
    destruct (count <? per_page)%Z; [intros [= _ <-]; exact Hone|].
    intros H. destruct (IH _ _ H) as (evs & Ht & Hs & Hin).
    exists (evs1 ++ evs). split; [rewrite Ht, Ht1, app_assoc; reflexivity|].
    rewrite pages_asked_app. split.
    + apply StronglySorted_app. split; [|split].
      * intros x1 x2 Hx1 Hx2. apply list_elem_of_In in Hx1, Hx2.
        rewrite List.Forall_forall in H1, Hin, Hle.
        rewrite <- (H1 _ Hx1). apply Hle, Hin, Hx2.
      * now apply same_page_sorted with page.
      * exact Hs.
    + apply Forall_app. split.
      * eapply List.Forall_impl; [|exact H1]. intros x <-. now left.
      * eapply List.Forall_impl; [|exact Hin]. intros x Hx. now right.
Qed.

(** ** The page loop over the outcomes of its requests *)

Lemma chars_length (s : string) : length (PyVal.chars s) = String.length s.
Proof. induction s as [|c s IH]; cbn [PyVal.chars length String.length]; congruence. Qed.

(** The number that [len] gives for the items is the number of records
    that parsing them gave. *)
Lemma parse_items_len (items : value) (parsed : list SearchResult) :
  _parse_items items = Return parsed ->
  PyVal.len items = Return (Z.of_nat (length parsed)).
Proof.
  unfold _parse_items.
  destruct (PyVal.iterate items) as [elems|e] eqn:E; cbn [obind]; [|discriminate].
  intros H. destruct (parse_each_Forall2 _ _ _ H) as (new & -> & HF).
  cbn [app]. apply Forall2_length in HF. rewrite <- HF.
  destruct items; try discriminate; injection E as <-; cbn [PyVal.len].
  - now rewrite chars_length.
  - reflexivity.
  - now rewrite length_map.
Qed.

Section Pages.

Variable remote : list Event -> Request -> Reply.
Variable repr : value -> string.
Variable self : GitHubSearchClient.
Variable q : QuerySpec.
Variable per_page : Z.
Variable hdrs : gmap string string.

Local Abbreviation turn :=
  (fun p => _request_with_retry remote repr self (Spec.page_params q per_page p) hdrs).
Local Abbreviation fetch := (Spec.fetch_page remote repr self q per_page hdrs).
Local Abbreviation loop := (page_loop remote repr self q per_page hdrs).

Lemma page_ok_fetch p w parsed count w1 :
  Spec.page_ok turn p w parsed count w1 <-> fetch p w = (Return (parsed, count), w1).
Proof.
  unfold Spec.page_ok, Spec.fetch_page, bind, lift, ret. split.
  - intros (payload & items & -> & -> & -> & ->). reflexivity.
  - destruct (_request_with_retry _ _ _ _ _ w) as [[payload|e] w0] eqn:T;
      [|discriminate].
    destruct (PyVal.get payload "items" (VList [])) as [items|e] eqn:G;
      [|discriminate].
    destruct (_parse_items items) as [rs|e] eqn:P; [|discriminate].
    destruct (PyVal.len items) as [n|e] eqn:L; [|discriminate].
    intros [= <- <- <-]. now exists payload, items.
Qed.

Lemma page_fails_fetch p w e w1 :
  Spec.page_fails turn p w e w1 <-> fetch p w = (Raise e, w1).
Proof.
  unfold Spec.page_fails, Spec.fetch_page, bind, lift, ret. split.
  - intros [->|(payload & -> & [->|(items & -> & [->|[(parsed & ->) ->]])])];
      reflexivity.
  - destruct (_request_with_retry _ _ _ _ _ w) as [[payload|e0] w0] eqn:T.
    + destruct (PyVal.get payload "items" (VList [])) as [items|e0] eqn:G.
      * destruct (_parse_items items) as [rs|e0] eqn:P.
        -- destruct (PyVal.len items) as [n|e0] eqn:L; [discriminate|].
           intros [= <- <-]. right. exists payload. split; [reflexivity|].
           right. exists items. split; [exact G|]. right.
           split; [now exists rs | exact L].
        -- intros [= <- <-]. right. exists payload. split; [reflexivity|].
           right. exists items. split; [exact G|]. now left.
      * intros [= <- <-]. right. exists payload. split; [reflexivity|]. now left.
    + intros [= <- <-]. now left.
Qed.

Lemma page_ok_count p w parsed count w1 :
  Spec.page_ok turn p w parsed count w1 -> count = Z.of_nat (length parsed).
Proof.
  intros (payload & items & _ & _ & P & L).
  rewrite (parse_items_len _ _ P) in L. now injection L.
Qed.

(** Full pages are passed over: the loop goes on with the pages behind
    them. *)
Lemma page_loop_full done rest results w gathered w0 :
  Spec.full_pages turn per_page done w gathered w0 ->
  loop (done ++ rest) results w = loop rest (results ++ gathered) w0.
Proof.
  intros H. revert results.
  induction H as [w|p done' w w1 w2 parsed more count Hok Hfull _ IH];
    intros results.
  - now rewrite app_nil_r.
  - cbn [app]. rewrite page_loop_cons.
    apply page_ok_fetch in Hok. rewrite Hok.
    destruct (Z.ltb_spec count per_page); [lia|].
    rewrite IH, app_assoc. reflexivity.
Qed.

Lemma page_loop_short p rest results w parsed count w1 :
  Spec.page_ok turn p w parsed count w1 ->
  (count < per_page)%Z ->
  loop (p :: rest) results w = (Return (results ++ parsed), w1).
Proof.
  intros Hok Hc. rewrite page_loop_cons. apply page_ok_fetch in Hok. rewrite Hok.
  destruct (Z.ltb_spec count per_page); [reflexivity | lia].
Qed.

Lemma page_loop_failing p rest results w e w1 :
  Spec.page_fails turn p w e w1 ->
  loop (p :: rest) results w = (Raise e, w1).
Proof.
  intros Hf. rewrite page_loop_cons. apply page_fails_fetch in Hf. now rewrite Hf.
Qed.

(** A loop that returns has passed over full pages and then met a short
    page or the end of its list. *)
Lemma page_loop_returns pages results w rs w' :
  loop pages results w = (Return rs, w') ->
  (exists gathered,
      Spec.full_pages turn per_page pages w gathered w'
      /\ rs = results ++ gathered)
  \/ (exists done p rest gathered w0 parsed count,
        pages = done ++ p :: rest
        /\ Spec.full_pages turn per_page done w gathered w0
        /\ Spec.page_ok turn p w0 parsed count w'
        /\ (count < per_page)%Z
        /\ rs = results ++ gathered ++ parsed).
Proof.
  revert results w. induction pages as [|page rest IH]; intros results w.
  - cbn [page_loop]. unfold ret. intros [= <- <-]. left. exists [].
    split; [constructor | now rewrite app_nil_r].
  - rewrite page_loop_cons.
    destruct (fetch page w) as [[[parsed count]|e] w1] eqn:F; [|discriminate].
    apply page_ok_fetch in F.
    destruct (Z.ltb_spec count per_page) as [Hc|Hc].
    + intros [= <- <-]. right.
      exists [], page, rest, [], w, parsed, count.
      split; [reflexivity|]. split; [constructor|]. now repeat split.
    + intros H. destruct (IH _ _ H)
        as [(gathered & Hfull & ->)
           |(done & p & rest' & gathered & w0 & parsed' & count' & -> & Hfull
             & Hok & Hs & ->)].
      * left. exists (parsed ++ gathered). split; [|now rewrite app_assoc].
        now apply Spec.full_pages_cons with (w1 := w1) (count := count).
      * right. exists (page :: done), p, rest', (parsed ++ gathered), w0,
          parsed', count'.
        split; [reflexivity|]. split.
        { now apply Spec.full_pages_cons with (w1 := w1) (count := count). }
        split; [exact Hok|]. split; [exact Hs|].
        now rewrite <- !app_assoc.
Qed.

(** A loop that raises has passed over full pages and then met a page
    that fails; the world is as the turn of that page left it, and every
    request made is for that page or for one before it in the list. *)
Lemma page_loop_raises pages results w e w' :
  loop pages results w = (Raise e, w') ->
  exists done p rest gathered w0,
    pages = done ++ p :: rest
    /\ Spec.full_pages turn per_page done w gathered w0
    /\ Spec.page_fails turn p w0 e w'
    /\ exists evs,
        trace w' = trace w ++ evs
        /\ Forall (fun r => In (param_page (sent_params r)) (done ++ [p]))
             (requests_of evs).
Proof.
  revert results w. induction pages as [|page rest IH]; intros results w.
  - cbn [page_loop]. unfold ret. discriminate.
  - rewrite page_loop_cons.
    destruct (fetch page w) as [[[parsed count]|e1] w1] eqn:F;
      destruct (fetch_page_trace _ _ _ _ _ _ _ _ _ _ F) as (evs1 & Ht1 & HF1).
    + apply page_ok_fetch in F.
      destruct (Z.ltb_spec count per_page) as [Hc|Hc]; [discriminate|].
      intros H. destruct (IH _ _ H)
        as (done & p & rest' & gathered & w0 & -> & Hfull & Hf & evs & Ht & HF).
      exists (page :: done), p, rest', (parsed ++ gathered), w0.
      split; [reflexivity|]. split.
      { now apply Spec.full_pages_cons with (w1 := w1) (count := count). }
      split; [exact Hf|].
      exists (evs1 ++ evs). split.
      * rewrite Ht, Ht1, app_assoc. reflexivity.
      * rewrite requests_of_app. apply Forall_app. split.
        -- eapply List.Forall_impl; [|exact HF1]. intros r <-. left. reflexivity.
        -- eapply List.Forall_impl; [|exact HF]. intros r Hr. right. exact Hr.
    + intros [= <- <-]. apply page_fails_fetch in F.
      exists [], page, rest, [], w. split; [reflexivity|].
      split; [constructor|]. split; [exact F|].
      exists evs1. split; [assumption|].
      eapply List.Forall_impl; [|exact HF1]. intros r <-. left. reflexivity.
Qed.

(** Replies that make a page fail. *)
Lemma page_fails_on_failure p w :
  remote (trace w) (Spec.request_for self (Spec.page_params q per_page p) hdrs)
  = Failed ->
  Spec.page_fails turn p w RequestException
    (Spec.after_send w (Spec.request_for self (Spec.page_params q per_page p) hdrs)).
Proof.
  intros H. left. unfold _request_with_retry.
  change (range 1 (MAX_RETRIES + 1)) with [1; 2; 3]%Z.
  now apply retry_loop_failed.
Qed.

Lemma page_fails_on_error p w r :
  remote (trace w) (Spec.request_for self (Spec.page_params q per_page p) hdrs)
  = Replied r ->
  status_code r <> 200%Z ->
  (status_code r = 403%Z -> ~ Spec.rate_limited r) ->
  exists e,
    Spec.page_fails turn p w e
      (Spec.after_send w (Spec.request_for self (Spec.page_params q per_page p) hdrs)).
Proof.
  intros H H200 H403.
  assert (Hl : status_code r = 403%Z -> _is_rate_limited r = false).
  { intros E. apply not_true_is_false. rewrite is_rate_limited_iff. auto. }
  destruct (Z.eq_dec (status_code r) 401%Z) as [E401|N401].
  - eexists. left. unfold _request_with_retry.
    change (range 1 (MAX_RETRIES + 1)) with [1; 2; 3]%Z.
    now apply retry_loop_unauthorized with (r := r).
  - pose proof (retry_loop_other remote repr self (Spec.page_params q per_page p)
                  hdrs 1%Z [2; 3]%Z w r H H200 N401 Hl) as E.
    destruct (_extract_error_message r) as [m|e]; eexists; left;
      unfold _request_with_retry;
      change (range 1 (MAX_RETRIES + 1)) with [1; 2; 3]%Z; exact E.
Qed.

End Pages.

(** C3.  Whatever the network does, [search_code] asks for pages of
    1..[pages] only, in ascending order.  Seen over the outcome of the
    retry-wrapped request of each page: when the pages before a page [p]
    have each come back with at least [per_page] items and [p] comes back
    with fewer, the call returns there, with the records of these pages,
    page after page, and in the world that the request for [p] left, so
    that no further page is asked for; when all of 1..[pages] come back with
    at least [per_page] items the call returns the records of them all; and
    a call that returns has gone one of these two ways.  Against a network
    that serves every request with a 200 at once, one request goes out for
    each page up to the first short one, and no other.  When page 1 comes
    back with 30 items and page 2 with 12, [per_page] being 30 and [pages]
    5, the call returns the 42 records and asks for nothing after page 2:
    exactly two requests go out when both are served at once. *)
Theorem search_code_pagination :
  (forall remote repr self q per_page pages text_matches w o w',
      search_code remote repr self q per_page pages text_matches w = (o, w') ->
      exists evs,
        trace w' = trace w ++ evs
        /\ StronglySorted Z.le (pages_asked evs)
        /\ Forall (fun p => (1 <= p <= pages)%Z) (pages_asked evs))
  /\ (forall remote repr self q per_page pages text_matches w,
      let turn := fun p =>
        _request_with_retry remote repr self (Spec.page_params q per_page p)
          (Spec.call_headers text_matches) in
      let run := search_code remote repr self q per_page pages text_matches w in
      (forall done p rest gathered w0 parsed count w1,
          range 1 (pages + 1) = done ++ p :: rest ->
          Spec.full_pages turn per_page done w gathered w0 ->
          Spec.page_ok turn p w0 parsed count w1 ->
          (count < per_page)%Z ->
          run = (Return (gathered ++ parsed), w1))
      /\ (forall gathered w',
          Spec.full_pages turn per_page (range 1 (pages + 1)) w gathered w' ->
          run = (Return gathered, w'))
      /\ (forall rs w',
          run = (Return rs, w') ->
          Spec.full_pages turn per_page (range 1 (pages + 1)) w rs w'
          \/ exists done p rest gathered w0 parsed count,
              range 1 (pages + 1) = done ++ p :: rest
              /\ Spec.full_pages turn per_page done w gathered w0
              /\ Spec.page_ok turn p w0 parsed count w'
              /\ (count < per_page)%Z
              /\ rs = gathered ++ parsed)
      /\ (forall p w0 parsed count w1,
          Spec.page_ok turn p w0 parsed count w1 ->
          count = Z.of_nat (length parsed)))
  /\ (forall remote repr self q per_page pages text_matches page_items parsed w,
      Spec.serves remote page_items ->
      (forall p, _parse_items (VList (page_items p)) = Return (parsed p)) ->
      let size := fun p => Z.of_nat (length (page_items p)) in
      let got := Spec.fetched per_page size (range 1 (pages + 1)) in
      search_code remote repr self q per_page pages text_matches w
      = (Return (flat_map parsed got),
         Spec.after w
           (map (fun p => Sent (Spec.page_request self q per_page text_matches p))
              got))
      /\ (exists rest, range 1 (pages + 1) = got ++ rest)
      /\ (forall p, In p got -> (size p < per_page)%Z ->
                    exists before, got = before ++ [p])
      /\ ((forall p, (1 <= p <= pages)%Z -> (per_page <= size p)%Z) ->
          got = range 1 (pages + 1))
      /\ (per_page = 30%Z -> pages = 5%Z -> size 1%Z = 30%Z -> size 2%Z = 12%Z ->
          got = [1; 2]%Z /\ length (flat_map parsed got) = 42%nat))
  /\ (forall remote repr self q text_matches w parsed1 parsed2 w1 w2,
      let turn := fun p =>
        _request_with_retry remote repr self (Spec.page_params q 30 p)
          (Spec.call_headers text_matches) in
      Spec.page_ok turn 1 w parsed1 30 w1 ->
      Spec.page_ok turn 2 w1 parsed2 12 w2 ->
      search_code remote repr self q 30 5 text_matches w
      = (Return (parsed1 ++ parsed2), w2)
      /\ length (parsed1 ++ parsed2) = 42%nat).
Proof.
  split; [|split; [|split]].
  - intros remote repr self q per_page pages text_matches w o w' H.
    unfold search_code in H.
    apply page_loop_ascending in H as (evs & Ht & Hs & Hin);
      [|apply range_sorted].
    exists evs. split; [exact Ht|]. split; [exact Hs|].
    eapply List.Forall_impl; [|exact Hin].
    intros p Hp. apply range_In in Hp. lia.
  - intros remote repr self q per_page pages text_matches w turn run.
    subst run turn. unfold search_code. fold (Spec.call_headers text_matches).
    split; [|split; [|split]].
    + intros done p rest gathered w0 parsed count w1 Hr Hfull Hok Hc.
      rewrite Hr, (page_loop_full _ _ _ _ _ _ _ _ _ _ _ _ Hfull).
      now apply page_loop_short with (count := count).
    + intros gathered w' Hfull.
      rewrite <- (app_nil_r (range 1 (pages + 1))).
      rewrite (page_loop_full _ _ _ _ _ _ _ _ _ _ _ _ Hfull). reflexivity.
    + intros rs w' H. apply page_loop_returns in H
        as [(gathered & Hfull & ->)|(done & p & rest & gathered & w0 & parsed
                                      & count & Hr & Hfull & Hok & Hc & ->)].
      * now left.
      * right. now exists done, p, rest, gathered, w0, parsed, count.
    + intros p w0 parsed count w1. apply page_ok_count.
  - intros remote repr self q per_page pages text_matches page_items parsed w
      Hs Hp size got.
    split; [|split; [|split; [|split]]].
    + unfold search_code.
      rewrite (page_loop_served remote repr self q per_page _ page_items parsed Hs Hp).
      reflexivity.
    + apply fetched_prefix.
    + intros p. apply fetched_short_last.
    + intros H. apply fetched_all. intros p Hin. apply range_In in Hin.
      apply H. lia.
    + intros -> -> H1 H2.
      assert (E : got = [1; 2]%Z).
      { subst got. change (range 1 (5 + 1)) with [1; 2; 3; 4; 5]%Z.
        cbn [Spec.fetched]. now rewrite H1, H2. }
      split; [exact E|]. rewrite E. cbn [flat_map].
      rewrite !length_app, (parse_items_length _ _ (Hp 1%Z)),
        (parse_items_length _ _ (Hp 2%Z)).
      subst size. cbn beta in H1, H2. cbn [length]. lia.
  - intros remote repr self q text_matches w parsed1 parsed2 w1 w2 turn H1 H2.
    split.
    + unfold search_code. fold (Spec.call_headers text_matches).
      change (range 1 (5 + 1)) with ([1%Z] ++ [2; 3; 4; 5]%Z).
      rewrite (page_loop_full remote repr self q 30%Z _ [1%Z] _ [] w parsed1 w1).
      * cbn [app]. now apply page_loop_short with (count := 12%Z).
      * rewrite <- (app_nil_r parsed1).
        apply Spec.full_pages_cons with (w1 := w1) (count := 30%Z);
          [exact H1 | lia | constructor].
    + apply page_ok_count in H1, H2. rewrite length_app. lia.
Qed.

Lemma two_pages_served :
  Spec.serves (Scenario.paged Scenario.two_pages) Scenario.two_pages_items.
Proof.
  intros t req. unfold Scenario.paged, Scenario.two_pages, Scenario.two_pages_items.
  destruct (param_page (sent_params req) =? 1)%Z;
    [|destruct (param_page (sent_params req) =? 2)%Z];
    do 2 eexists; repeat split; reflexivity.
Qed.

Lemma two_pages_parsed (p : Z) :
  _parse_items (VList (Scenario.two_pages_items p))
  = Return (map Spec.item_result (Scenario.two_pages_items p)).
Proof.
  apply parse_items_ok. unfold Scenario.two_pages_items.
  destruct (p =? 1)%Z; [|destruct (p =? 2)%Z]; repeat constructor.
Qed.

(** A search in which the second page is first refused for the rate
    limit: the twelve items that come after the retry end it. *)
Lemma search_code_pagination_witness :
  (exists rs,
      fst (Scenario.search Scenario.two_pages 30 5 true) = Return rs
      /\ length rs = 42%nat)
  /\ pages_asked (trace (snd (Scenario.search Scenario.two_pages 30 5 true)))
     = [1; 2]%Z
  /\ (exists rs,
        fst (Scenario.scripted_search Scenario.thirty_then_twelve 30 5) = Return rs
        /\ length rs = 42%nat)
  /\ pages_asked
       (trace (snd (Scenario.scripted_search Scenario.thirty_then_twelve 30 5)))
     = [1; 2; 2]%Z.
Proof.
  pose proof (proj1 (proj2 (proj2 search_code_pagination))
                (Scenario.paged Scenario.two_pages)
                Scenario.plain_repr Scenario.client Scenario.leak_query 30%Z 5%Z true
                Scenario.two_pages_items
                (fun p => map Spec.item_result (Scenario.two_pages_items p))
                Scenario.start two_pages_served two_pages_parsed) as D.
  cbv zeta in D. destruct D as (E & _).
  pose proof (proj2 (proj2 (proj2 search_code_pagination))
                (Scenario.script Scenario.thirty_then_twelve)
                Scenario.plain_repr Scenario.client Scenario.leak_query true
                Scenario.slow
                (map Spec.item_result (repeat (VDict []) 30))
                (map Spec.item_result (repeat (VDict []) 12))
                (snd (_request_with_retry
                        (Scenario.script Scenario.thirty_then_twelve)
                        Scenario.plain_repr Scenario.client
                        (Spec.page_params Scenario.leak_query 30 1)
                        (Spec.call_headers true) Scenario.slow))
                (snd (Scenario.scripted_search Scenario.thirty_then_twelve 30 5)))
    as T.
  cbv zeta in T. destruct T as (T & L).
  - exists (VDict [("items", VList (repeat (VDict []) 30))]),
      (VList (repeat (VDict []) 30)).
    repeat split; vm_compute; reflexivity.
  - exists (VDict [("items", VList (repeat (VDict []) 12))]),
      (VList (repeat (VDict []) 12)).
    repeat split; vm_compute; reflexivity.
  - unfold Scenario.search, Scenario.scripted_search. rewrite E, T.
    cbn [fst snd]. split; [|split; [|split]].
    + eexists. split; [reflexivity | vm_compute; reflexivity].
    + vm_compute. reflexivity.
    + eexists. split; [reflexivity | exact L].
    + vm_compute. reflexivity.
Defined.

(** ** Failure of a search *)

(** C7.  Seen over the outcome of the retry-wrapped request of each page:
    when the pages before a page [p] have each come back with at least
    [per_page] items and the page [p] fails, its request raising or its
    payload not yielding items, the call raises that exception, in the world
    that the request for [p] left: the records gathered from the pages
    before are not returned, the outcome of the call being the exception
    alone, and no page after [p] is asked for.  A call that raises has gone
    this way, and all its requests are for [p] and pages before it.  A
    request of a page that the network fails, or answers with a response
    that is neither a 200 nor a rate-limited 403, makes the page fail at
    once. *)
Theorem search_code_fails_as_a_whole remote repr self q per_page :
  forall pages text_matches w,
    let turn := fun p =>
      _request_with_retry remote repr self (Spec.page_params q per_page p)
        (Spec.call_headers text_matches) in
    let run := search_code remote repr self q per_page pages text_matches w in
    (forall done p rest gathered w0 e w1,
        range 1 (pages + 1) = done ++ p :: rest ->
        Spec.full_pages turn per_page done w gathered w0 ->
        Spec.page_fails turn p w0 e w1 ->
        run = (Raise e, w1))
    /\ (forall e w',
        run = (Raise e, w') ->
        exists done p rest gathered w0,
          range 1 (pages + 1) = done ++ p :: rest
          /\ Spec.full_pages turn per_page done w gathered w0
          /\ Spec.page_fails turn p w0 e w'
          /\ exists evs,
              trace w' = trace w ++ evs
              /\ Forall (fun r => (1 <= param_page (sent_params r) <= p)%Z)
                   (requests_of evs))
    /\ (forall p w0,
        let req := Spec.page_request self q per_page text_matches p in
        (remote (trace w0) req = Failed ->
         Spec.page_fails turn p w0 RequestException (Spec.after_send w0 req))
        /\ (forall r,
            remote (trace w0) req = Replied r ->
            status_code r <> 200%Z ->
            (status_code r = 403%Z -> ~ Spec.rate_limited r) ->
            exists e, Spec.page_fails turn p w0 e (Spec.after_send w0 req))).
Proof.
  intros pages text_matches w turn run. subst run turn. unfold search_code.
  fold (Spec.call_headers text_matches).
  split; [|split].
  - intros done p rest gathered w0 e w1 Hr Hfull Hf.
    rewrite Hr, (page_loop_full _ _ _ _ _ _ _ _ _ _ _ _ Hfull).
    now apply page_loop_failing.
  - intros e w' H.
    apply page_loop_raises in H
      as (done & p & rest & gathered & w0 & Hr & Hfull & Hf & evs & Ht & HF).
    exists done, p, rest, gathered, w0. repeat split; try assumption.
    exists evs. split; [exact Ht|].
    apply range_split in Hr as [Hp Hdone].
    eapply List.Forall_impl; [|exact HF].
    intros r Hin. apply in_app_or in Hin as [Hin|[<-|[]]].
    + specialize (Hdone _ Hin). lia.
    + lia.
  - intros p w0. unfold Spec.page_request. split.
    + apply page_fails_on_failure.
    + intros r. apply page_fails_on_error.
Qed.

Lemma second_page_broken_run :
  Scenario.search Scenario.second_page_broken 30 5 true
  = (Raise (GitHubAPIError "GitHub API error 500: boom"),
     Spec.after Scenario.start
       [Sent (Spec.page_request Scenario.client Scenario.leak_query 30 true 1);
        Sent (Spec.page_request Scenario.client Scenario.leak_query 30 true 2)]).
Proof. vm_compute. reflexivity. Qed.

(** Thirty records have been gathered from page 1 when page 2 comes back
    as a 500: the call raises, and the third page is not asked for. *)
Lemma search_code_fails_as_a_whole_witness :
  Scenario.search Scenario.second_page_broken 30 5 true
  = (Raise (GitHubAPIError "GitHub API error 500: boom"),
     Spec.after Scenario.start
       [Sent (Spec.page_request Scenario.client Scenario.leak_query 30 true 1);
        Sent (Spec.page_request Scenario.client Scenario.leak_query 30 true 2)]).
Proof.
  unfold Scenario.search.
  pose proof (search_code_fails_as_a_whole
                (Scenario.paged Scenario.second_page_broken) Scenario.plain_repr
                Scenario.client Scenario.leak_query 30 5%Z true Scenario.start) as D.
  cbv zeta in D. destruct D as (D & _).
  apply (D [1%Z] 2%Z [3; 4; 5]%Z (map Spec.item_result (repeat (VDict []) 30))
           (Spec.after Scenario.start
              [Sent (Spec.page_request Scenario.client Scenario.leak_query
                       30 true 1)])).
  - reflexivity.
  - rewrite <- (app_nil_r (map Spec.item_result (repeat (VDict []) 30))).
    apply Spec.full_pages_cons
      with (w1 := Spec.after Scenario.start
                    [Sent (Spec.page_request Scenario.client Scenario.leak_query
                             30 true 1)])
           (count := 30%Z); [|lia|constructor].
    exists (VDict [("items", VList (repeat (VDict []) 30))]),
      (VList (repeat (VDict []) 30)).
    repeat split; vm_compute; reflexivity.
  - left. vm_compute. reflexivity.
Defined.

(** ** The Accept header *)

(** The session of a client built by [__init__] asks for text-match
    metadata, whatever session it was given. *)
Lemma init_accept fresh token base ua sess :
  header_get (session_headers (session (__init__ fresh token base ua sess))) "Accept"
  = Some TEXT_MATCH.
Proof.
  unfold __init__, header_get, header_set. cbn [session session_headers].
  change (PyStr.lower "Accept") with "accept".
  change (PyStr.lower "User-Agent") with "user-agent".
  rewrite lookup_insert_ne by discriminate.
  apply lookup_insert_eq.
Qed.

(** The headers of a call do not take it away, with or without
    [text_matches]. *)
Lemma sent_accept (self : GitHubSearchClient) (text_matches : bool) :
  header_get (session_headers (session self)) "Accept" = Some TEXT_MATCH ->
  header_get (Spec.call_headers text_matches ∪ session_headers (session self))
    "Accept" = Some TEXT_MATCH.
Proof.
  unfold header_get, Spec.call_headers, header_set. intros H.
  destruct text_matches.
  - apply lookup_union_Some_l. apply lookup_insert_eq.
  - rewrite lookup_union_r by apply lookup_empty. exact H.
Qed.

(** C8, as the code has it.  Every request of [search_code] carries the
    Accept header [application/vnd.github.v3.text-match+json], for
    [text_matches] false as for true: the session of the client holds that
    header, and a call without [text_matches] passes no header that would
    replace it.  A search without [text_matches] over two pages sends it
    twice. *)
Theorem text_match_header_always_sent :
  (forall remote repr fresh token base ua sess q per_page pages text_matches w,
      exists evs,
        trace (snd (search_code remote repr (__init__ fresh token base ua sess)
                      q per_page pages text_matches w))
        = trace w ++ evs
        /\ Forall (fun r => header_get (sent_headers r) "Accept" = Some TEXT_MATCH)
             (requests_of evs))
  /\ map (fun r => header_get (sent_headers r) "Accept")
       (requests_of (trace (snd (Scenario.search Scenario.two_pages 30 5 false))))
     = [Some TEXT_MATCH; Some TEXT_MATCH].
Proof.
  split; [|vm_compute; reflexivity].
  intros remote repr fresh token base ua sess q per_page pages text_matches w.
  destruct (search_code remote repr (__init__ fresh token base ua sess)
              q per_page pages text_matches w) as [o w'] eqn:E.
  unfold search_code in E. apply page_loop_trace in E as (evs & Ht & HF).
  exists evs. split; [exact Ht|].
  eapply List.Forall_impl; [|exact HF].
  intros r (p & _ & ->). cbn [Spec.request_for sent_headers].
  apply (sent_accept _ text_matches), init_accept.
Qed.

(** * Further properties *)

(** ** Bounds on the retry loop *)

Lemma sleeps_of_app (a b : list Event) :
  sleeps_of (a ++ b) = sleeps_of a ++ sleeps_of b.
Proof. apply flat_map_app. Qed.

Lemma wait_at_least_one (reset : option Z) (attempt : Z) (t : Q) :
  (0 <= attempt)%Z -> (1 <= Spec.wait reset attempt t)%Q.
Proof.
  intros H. unfold Spec.wait. destruct reset as [n|].
  - apply Q.le_max_r.
  - apply Q.min_glb; [|discriminate].
    apply Qpower_1_le; [discriminate | exact H].
Qed.

Section RetryBounds.

Variable remote : list Event -> Request -> Reply.
Variable repr : value -> string.
Variable self : GitHubSearchClient.
Variable params : Params.
Variable extra : gmap string string.

Local Abbreviation req := (Spec.request_for self params extra).
Local Abbreviation loop := (retry_loop remote repr self params extra).

(** What one more request, and nothing else, adds to a world. *)
Lemma one_request_bounds (w : World) (n : nat) :
  exists evs,
    trace (Spec.after_send w req) = trace w ++ evs
    /\ (1 <= length (requests_of evs) <= S n)%nat
    /\ (length (sleeps_of evs) < length (requests_of evs))%nat
    /\ Forall (Qle 1%Q) (sleeps_of evs).
Proof.
  exists [Sent req]. cbn. repeat split; try lia. constructor.
Qed.

Lemma retry_loop_bounds (attempts : list Z) (w : World) :
  attempts <> [] ->
  Forall (Z.le 0) attempts ->
  exists evs,
    trace (snd (loop attempts w)) = trace w ++ evs
    /\ (1 <= length (requests_of evs) <= length attempts)%nat
    /\ (length (sleeps_of evs) <= length (requests_of evs))%nat
    /\ Forall (Qle 1%Q) (sleeps_of evs).
Proof.
  intros Hne Hpos. revert w.
  induction Hpos as [|attempt rest Ha Hrest IH]; intros w; [contradiction|].
  assert (Hone : forall o, exists evs,
             trace (snd (o : Outcome value, Spec.after_send w req)) = trace w ++ evs
             /\ (1 <= length (requests_of evs) <= length (attempt :: rest))%nat
             /\ (length (sleeps_of evs) <= length (requests_of evs))%nat
             /\ Forall (Qle 1%Q) (sleeps_of evs)).
  { intros o. destruct (one_request_bounds w (length rest))
      as (evs & H1 & H2 & H3 & H4).
    exists evs. cbn [snd length]. repeat split; try assumption; lia. }
  destruct (remote (trace w) req) as [r|] eqn:Hr.
  - destruct (Z.eq_dec (status_code r) 200%Z) as [E200|N200].
    { rewrite (retry_loop_ok _ _ _ _ _ _ _ _ r Hr E200). apply Hone. }
    destruct (Z.eq_dec (status_code r) 401%Z) as [E401|N401].
    { rewrite (retry_loop_unauthorized _ _ _ _ _ _ _ _ r Hr E401). apply Hone. }
    destruct (Z.eq_dec (status_code r) 403%Z) as [E403|N403];
      [destruct (_is_rate_limited r) eqn:L|].
    + rewrite (retry_loop_limited _ _ _ _ _ _ _ _ r Hr E403 L).
      destruct (Spec.pause r attempt (Spec.after_send w req)) as [d|e] eqn:P;
        [|apply Hone].
      apply pause_inv in P as (Hd & _ & _).
      assert (H1 : (1 <= d)%Q) by (rewrite Hd; now apply wait_at_least_one).
      set (w1 := Spec.after_sleep (Spec.after_send w req) d).
      destruct rest as [|a2 rest'].
      * rewrite retry_loop_nil. cbn [snd]. exists [Sent req; Slept d].
        split; [subst w1; flatten_world; reflexivity|].
        split; [cbn; lia|]. split; [cbn; lia|].
        cbn [sleeps_of flat_map app]. constructor; [exact H1 | constructor].
      * destruct (IH ltac:(discriminate) w1) as (evs & Ht & Hn & Hs & Hall).
        exists (Sent req :: Slept d :: evs). repeat split.
        -- rewrite Ht. subst w1. flatten_world. reflexivity.
        -- cbn. lia.
        -- cbn [requests_of flat_map app length] in *. fold (requests_of evs). lia.
        -- cbn [sleeps_of flat_map app length requests_of] in *.
           fold (sleeps_of evs). fold (requests_of evs). lia.
        -- cbn [sleeps_of flat_map app]. fold (sleeps_of evs).
           constructor; [exact H1 | exact Hall].
    + rewrite (retry_loop_other _ _ _ _ _ _ _ _ r Hr N200 N401 (fun _ => L)).
      apply Hone.
    + rewrite (retry_loop_other _ _ _ _ _ _ _ _ r Hr N200 N401);
        [apply Hone | intros E; contradiction].
  - rewrite (retry_loop_failed _ _ _ _ _ _ _ _ Hr). apply Hone.
Qed.

End RetryBounds.

Lemma request_with_retry_bounds_aux remote repr self params extra w :
  exists evs,
    trace (snd (_request_with_retry remote repr self params extra w))
    = trace w ++ evs
    /\ (1 <= length (requests_of evs) <= 3)%nat
    /\ (length (sleeps_of evs) <= length (requests_of evs))%nat
    /\ Forall (Qle 1%Q) (sleeps_of evs).
Proof.
  unfold _request_with_retry. change (range 1 (MAX_RETRIES + 1)) with [1; 2; 3]%Z.
  apply (retry_loop_bounds remote repr self params extra [1; 2; 3]%Z w).
  - discriminate.
  - repeat constructor; lia.
Qed.

(** X1. Whatever the network answers, whatever the clock shows and
    whatever sleeps the machine takes, one call of [_request_with_retry]
    only adds to the trace: at least one and at most three requests, no
    more sleeps than requests, every sleep of at least one second. *)
Theorem request_with_retry_bounded remote repr self params extra w :
  exists evs,
    trace (snd (_request_with_retry remote repr self params extra w))
    = trace w ++ evs
    /\ (1 <= length (requests_of evs) <= 3)%nat
    /\ (length (sleeps_of evs) <= length (requests_of evs))%nat
    /\ Forall (Qle 1%Q) (sleeps_of evs).
Proof.
  apply request_with_retry_bounds_aux.
Qed.

(** ** How a call of the retry loop ends *)

Section RetryEnds.

Variable remote : list Event -> Request -> Reply.
Variable repr : value -> string.
Variable self : GitHubSearchClient.
Variable params : Params.
Variable extra : gmap string string.

Local Abbreviation req := (Spec.request_for self params extra).
Local Abbreviation loop := (retry_loop remote repr self params extra).

(** The call ended on the reply to its last request, which was not one
    to sleep on. *)
Local Abbreviation ended_on_reply e w' :=
  (exists t,
      trace w' = t ++ [Sent req]
      /\ match remote t req with
         | Failed => e = RequestException
         | Replied r => retried r = false
         end).

(** The call ended on a rate-limited 403, the wait after which could not
    be computed or slept. *)
Local Abbreviation ended_on_pause attempts e w' :=
  (exists t r attempt,
      trace w' = t ++ [Sent req]
      /\ remote t req = Replied r
      /\ retried r = true
      /\ In attempt attempts
      /\ Spec.pause r attempt w' = Raise e
      /\ (e = OverflowError \/ e = OSError)).

Lemma retry_loop_ends (attempts : list Z) (w : World) :
  match loop attempts w with
  | (Return payload, w') =>
      exists t r,
        trace w' = t ++ [Sent req]
        /\ remote t req = Replied r
        /\ status_code r = 200%Z
        /\ json r = Some payload
  | (Raise e, w') =>
      ended_on_reply e w'
      \/ ended_on_pause attempts e w'
      \/ (e = RETRY_LIMIT
          /\ exists evs,
              trace w' = trace w ++ evs
              /\ length (requests_of evs) = length attempts
              /\ length (sleeps_of evs) = length attempts)
  end.
Proof.
  revert w. induction attempts as [|attempt rest IH]; intros w.
  - rewrite retry_loop_nil. right. right. split; [reflexivity|].
    exists []. now rewrite app_nil_r.
  - assert (Hend : forall e r,
               remote (trace w) req = Replied r -> retried r = false ->
               ended_on_reply e (Spec.after_send w req)).
    { intros e r Hr Hn. exists (trace w). split; [reflexivity|]. now rewrite Hr. }
    destruct (remote (trace w) req) as [r|] eqn:Hr.
    + destruct (Z.eq_dec (status_code r) 200%Z) as [E200|N200].
      { rewrite (retry_loop_ok _ _ _ _ _ _ _ _ r Hr E200).
        destruct (json r) as [payload|] eqn:J.
        - exists (trace w), r. repeat split; assumption.
        - left. apply (Hend _ r eq_refl). unfold retried. now rewrite E200. }
      destruct (Z.eq_dec (status_code r) 401%Z) as [E401|N401].
      { rewrite (retry_loop_unauthorized _ _ _ _ _ _ _ _ r Hr E401).
        left. apply (Hend _ r eq_refl). unfold retried. now rewrite E401. }
      destruct (retried r) eqn:L.
      * pose proof L as L'. unfold retried in L.
        apply andb_true_iff in L as [E403 L]. apply Z.eqb_eq in E403.
        rewrite (retry_loop_limited _ _ _ _ _ _ _ _ r Hr E403 L).
        destruct (Spec.pause r attempt (Spec.after_send w req)) as [d|e] eqn:P.
        -- specialize (IH (Spec.after_sleep (Spec.after_send w req) d)).
           destruct (loop rest _) as [[payload|e] w']; [exact IH|].
           destruct IH as [IH|[(t & r' & a & Ht & Hr' & HL & Hin & HP & He)
                              |(-> & evs & Ht & Hn & Hs)]]; [now left| |].
           ++ right. left. exists t, r', a. repeat split; try assumption.
              now right.
           ++ right. right. split; [reflexivity|].
              exists (Sent req :: Slept d :: evs). repeat split.
              ** rewrite Ht. flatten_world. reflexivity.
              ** cbn [requests_of flat_map app length]. fold (requests_of evs). lia.
              ** cbn [sleeps_of flat_map app length]. fold (sleeps_of evs). lia.
        -- right. left. exists (trace w), r, attempt.
           split; [reflexivity|]. split; [exact Hr|]. split; [exact L'|].
           split; [now left|]. split; [exact P|]. now apply pause_raises in P.
      * assert (H403 : status_code r = 403%Z -> _is_rate_limited r = false).
        { intros E. unfold retried in L. now rewrite E in L. }
        rewrite (retry_loop_other _ _ _ _ _ _ _ _ r Hr N200 N401 H403).
        destruct (_extract_error_message r); left; now apply (Hend _ r).
    + rewrite (retry_loop_failed _ _ _ _ _ _ _ _ Hr). left.
      exists (trace w). split; [reflexivity|]. now rewrite Hr.
Qed.

End RetryEnds.

(** X2. How [_request_with_retry] can end.  A payload is returned only
    as the decoded body of a 200 that answered the last request.  An
    exception comes straight after a request whose reply was not one to
    sleep on (a transport failure, which raises [RequestException], or a
    response other than a rate-limited 403); or straight after a request
    that a rate-limited 403 answered, the pause after which raised: it is
    then [OverflowError], the wait being too large to compute or to sleep,
    or [OSError], the machine refusing the sleep, and no sleep follows that
    request; or it is the retry-limit error, raised after exactly three
    requests and three sleeps. *)
Theorem request_with_retry_ends remote repr self params extra w :
  let req := Spec.request_for self params extra in
  match _request_with_retry remote repr self params extra w with
  | (Return payload, w') =>
      exists t r,
        trace w' = t ++ [Sent req]
        /\ remote t req = Replied r
        /\ status_code r = 200%Z
        /\ json r = Some payload
  | (Raise e, w') =>
      (exists t,
          trace w' = t ++ [Sent req]
          /\ match remote t req with
             | Failed => e = RequestException
             | Replied r => retried r = false
             end)
      \/ (exists t r attempt,
             trace w' = t ++ [Sent req]
             /\ remote t req = Replied r
             /\ retried r = true
             /\ In attempt [1; 2; 3]%Z
             /\ Spec.pause r attempt w' = Raise e
             /\ (e = OverflowError \/ e = OSError))
      \/ (e = RETRY_LIMIT
          /\ exists evs,
              trace w' = trace w ++ evs
              /\ length (requests_of evs) = 3%nat
              /\ length (sleeps_of evs) = 3%nat)
  end.
Proof.
  cbv zeta. unfold _request_with_retry.
  change (range 1 (MAX_RETRIES + 1)) with [1; 2; 3]%Z.
  pose proof (retry_loop_ends remote repr self params extra [1; 2; 3]%Z w) as H.
  destruct (retry_loop _ _ _ _ _ _ w) as [[payload|e] w']; [exact H|].
  exact H.
Qed.

(** ** Bounds on a search *)

Lemma range_length (lo hi : Z) : length (range lo hi) = Z.to_nat (hi - lo).
Proof. unfold range. now rewrite length_map, length_seq. Qed.

Section SearchBounds.

Variable remote : list Event -> Request -> Reply.
Variable repr : value -> string.
Variable self : GitHubSearchClient.
Variable q : QuerySpec.
Variable per_page : Z.
Variable hdrs : gmap string string.

Local Abbreviation fetch := (Spec.fetch_page remote repr self q per_page hdrs).
Local Abbreviation loop := (page_loop remote repr self q per_page hdrs).

(** The turn of a page leaves the world as its request left it. *)
Lemma fetch_page_world page w :
  snd (fetch page w)
  = snd (_request_with_retry remote repr self
           (Spec.page_params q per_page page) hdrs w).
Proof.
  unfold Spec.fetch_page, bind, lift, ret.
  destruct (_request_with_retry _ _ _ _ _ w) as [[payload|e] w1]; [|reflexivity].
  destruct (PyVal.get payload "items" (VList [])) as [items|e]; [|reflexivity].
  destruct (_parse_items items) as [parsed|e]; [|reflexivity].
  destruct (PyVal.len items) as [count|e]; reflexivity.
Qed.

Lemma page_loop_bounds pages results w :
  exists evs,
    trace (snd (loop pages results w)) = trace w ++ evs
    /\ (length (requests_of evs) <= 3 * length pages)%nat
    /\ (length (sleeps_of evs) <= length (requests_of evs))%nat
    /\ Forall (Qle 1%Q) (sleeps_of evs).
Proof.
  revert results w. induction pages as [|page rest IH]; intros results w.
  - cbn [page_loop]. unfold ret. cbn [snd]. exists []. rewrite app_nil_r.
    cbn. repeat split; try lia. constructor.
  - rewrite page_loop_cons.
    destruct (request_with_retry_bounds_aux remote repr self
                (Spec.page_params q per_page page) hdrs w)
      as (evs1 & Ht1 & Hn1 & Hs1 & Hd1).
    rewrite <- fetch_page_world in Ht1.
    assert (Hone : exists evs,
               trace (snd (fetch page w)) = trace w ++ evs
               /\ (length (requests_of evs) <= 3 * length (page :: rest))%nat
               /\ (length (sleeps_of evs) <= length (requests_of evs))%nat
               /\ Forall (Qle 1%Q) (sleeps_of evs)).
    { exists evs1. cbn [length]. repeat split; try assumption; lia. }
    destruct (fetch page w) as [[[parsed count]|e] w1]; [|exact Hone].
    destruct (count <? per_page)%Z; [exact Hone|].
    cbn [snd] in Ht1.
    destruct (IH (results ++ parsed) w1) as (evs & Ht & Hn & Hs & Hd).
    exists (evs1 ++ evs).
    rewrite requests_of_app, sleeps_of_app, !length_app. repeat split.
    + rewrite Ht, Ht1, app_assoc. reflexivity.
    + cbn [length]. lia.
    + lia.
    + apply Forall_app. split; assumption.
Qed.

End SearchBounds.

(** X3. Whatever the network answers, whatever the clock shows and
    whatever sleeps the machine takes, [search_code] makes at most three
    requests per page asked for, that is at most 3 * [pages] in all, never
    sleeps more often than it has made requests, and sleeps at least one
    second each time. *)
Theorem search_code_bounded remote repr self q per_page pages text_matches w :
  exists evs,
    trace (snd (search_code remote repr self q per_page pages text_matches w))
    = trace w ++ evs
    /\ (length (requests_of evs) <= 3 * Z.to_nat pages)%nat
    /\ (length (sleeps_of evs) <= length (requests_of evs))%nat
    /\ Forall (Qle 1%Q) (sleeps_of evs).
Proof.
  unfold search_code.
  destruct (page_loop_bounds remote repr self q per_page
              (if text_matches then header_set "Accept" TEXT_MATCH ∅ else ∅)
              (range 1 (pages + 1)) [] w) as (evs & Ht & Hn & H).
  exists evs. split; [exact Ht|]. split; [|exact H].
  rewrite range_length in Hn. replace (pages + 1 - 1)%Z with pages in Hn by lia.
  exact Hn.
Qed.

(** ** What every request of a search looks like *)

Lemma rstrip_char_no_trailing (x : ascii) (s t : string) :
  PyStr.rstrip_char x s <> t +:+ String x "".
Proof.
  revert t. induction s as [|c s IH]; intros t; cbn [PyStr.rstrip_char].
  - destruct t; discriminate.
  - destruct (PyStr.rstrip_char x s) as [|k kept] eqn:E.
    + destruct (Ascii.eqb_spec c x) as [->|Hne].
      * destruct t; discriminate.
      * destruct t as [|a t]; [intros [= H]; contradiction|].
        rewrite append_cons. intros [= _ H]. destruct t; discriminate.
    + destruct t as [|a t].
      * rewrite append_nil_l. discriminate.
      * rewrite append_cons. intros [= _ H]. exact (IH t H).
Qed.

Lemma init_authorization fresh token base ua sess text_matches :
  header_get (Spec.call_headers text_matches
              ∪ session_headers (session (__init__ fresh token base ua sess)))
    "Authorization" = Some ("token " +:+ token).
Proof.
  unfold header_get, Spec.call_headers, __init__.
  cbn [session session_headers]. unfold header_set.
  change (PyStr.lower "Accept") with "accept".
  change (PyStr.lower "User-Agent") with "user-agent".
  change (PyStr.lower "Authorization") with "authorization".
  rewrite lookup_union_r.
  - rewrite !lookup_insert_ne by discriminate. apply lookup_insert_eq.
  - destruct text_matches; [|apply lookup_empty].
    rewrite lookup_insert_ne by discriminate. apply lookup_empty.
Qed.

Lemma init_user_agent fresh token base ua sess text_matches :
  header_get (Spec.call_headers text_matches
              ∪ session_headers (session (__init__ fresh token base ua sess)))
    "User-Agent" = Some ua.
Proof.
  unfold header_get, Spec.call_headers, __init__.
  cbn [session session_headers]. unfold header_set.
  change (PyStr.lower "Accept") with "accept".
  change (PyStr.lower "User-Agent") with "user-agent".
  rewrite lookup_union_r.
  - apply lookup_insert_eq.
  - destruct text_matches; [|apply lookup_empty].
    rewrite lookup_insert_ne by discriminate. apply lookup_empty.
Qed.


(** ** Order and failure of item parsing *)

Lemma parse_each_raises (items : list value) (parsed : list SearchResult) (e : exn) :
  parse_each parsed items = Raise e ->
  exists good bad rest,
    items = good ++ bad :: rest
    /\ Forall (fun item => exists r, parse_item item = Return r) good
    /\ parse_item bad = Raise e.
Proof.
  revert parsed. induction items as [|item items IH]; intros parsed;
    cbn [parse_each]; [discriminate|].
  destruct (parse_item item) as [r|e1] eqn:E; cbn [obind].
  - intros H. destruct (IH _ H) as (good & bad & rest & -> & Hg & Hb).
    exists (item :: good), bad, rest. repeat split; [|exact Hb].
    constructor; [now exists r | exact Hg].
  - intros [= <-]. exists [], item, items. repeat split; [constructor | exact E].
Qed.

(** X5. [_parse_items] on a list keeps the number and the order of the
    items: when it returns, the k-th record is the parse of the k-th item;
    when it raises, the exception is that of the first item that does not
    parse, and the records of the items before it are not returned. *)
Theorem parse_items_in_order (items : list value) :
  match _parse_items (VList items) with
  | Return rs =>
      length rs = length items
      /\ Forall2 (fun item r => parse_item item = Return r) items rs
  | Raise e =>
      exists good bad rest,
        items = good ++ bad :: rest
        /\ Forall (fun item => exists r, parse_item item = Return r) good
        /\ parse_item bad = Raise e
  end.
Proof.
  unfold _parse_items. cbn [PyVal.iterate obind].
  destruct (parse_each [] items) as [rs|e] eqn:E.
  - destruct (parse_each_Forall2 _ _ _ E) as (new & -> & HF). cbn [app].
    split; [symmetry; eapply Forall2_length; exact HF | exact HF].
  - now apply parse_each_raises with (parsed := []).
Qed.

(** ** A 200 whose body is not what the search expects *)

(** X6. When the reply to the first page is a 200 whose body does not
    decode, [search_code] raises the decoding error; when it decodes to
    something that is not a JSON object, it raises [AttributeError]; when it
    is an object whose [items] is null, a boolean or a number, it raises
    [TypeError].  In each case the exception is not a [GitHubAPIError], one
    request has been made, and no further page is asked for. *)
Theorem search_code_unexpected_body remote repr self q per_page pages
    text_matches w r :
  (1 <= pages)%Z ->
  remote (trace w) (Spec.page_request self q per_page text_matches 1) = Replied r ->
  status_code r = 200%Z ->
  (json r = None ->
   search_code remote repr self q per_page pages text_matches w
   = (Raise JSONDecodeError,
      Spec.after_send w (Spec.page_request self q per_page text_matches 1)))
  /\ (forall payload,
      json r = Some payload ->
      (forall fields, payload <> VDict fields) ->
      search_code remote repr self q per_page pages text_matches w
      = (Raise AttributeError,
         Spec.after_send w (Spec.page_request self q per_page text_matches 1)))
  /\ (forall fields v,
      json r = Some (VDict fields) ->
      PyVal.lookup "items" fields = Some v ->
      PyVal.iterate v = Raise TypeError ->
      search_code remote repr self q per_page pages text_matches w
      = (Raise TypeError,
         Spec.after_send w (Spec.page_request self q per_page text_matches 1))).
Proof.
  intros Hp Hr Hs.
  remember (search_code remote repr self q per_page pages text_matches w)
    as run eqn:E.
  unfold Spec.page_request, Spec.call_headers in Hr.
  unfold search_code in E. rewrite (range_cons 1 (pages + 1)) in E by lia.
  rewrite page_loop_cons in E. unfold Spec.fetch_page, _request_with_retry in E.
  change (range 1 (MAX_RETRIES + 1)) with [1; 2; 3]%Z in E.
  unfold bind at 1 in E.
  rewrite (retry_loop_ok remote repr self _ _ 1%Z [2; 3]%Z w r Hr Hs) in E.
  subst run. split; [|split].
  - intros J. rewrite J. reflexivity.
  - intros payload J Hnd. rewrite J. unfold bind, lift.
    destruct payload; try reflexivity. now destruct (Hnd fields).
  - intros fields v J Hv Hit. rewrite J. unfold bind, lift. cbn [PyVal.get].
    rewrite Hv. unfold _parse_items. rewrite Hit. reflexivity.
Qed.

Lemma search_code_unexpected_body_witness :
  (1 <= 5)%Z
  /\ Scenario.search (fun _ => Sample.ok_garbage) 30 5 true
     = (Raise JSONDecodeError,
        Spec.after_send Scenario.start
          (Spec.page_request Scenario.client Scenario.leak_query 30 true 1))
  /\ Scenario.search (fun _ => Sample.ok_array) 30 5 true
     = (Raise AttributeError,
        Spec.after_send Scenario.start
          (Spec.page_request Scenario.client Scenario.leak_query 30 true 1))
  /\ Scenario.search (fun _ => Sample.ok_null_items) 30 5 true
     = (Raise TypeError,
        Spec.after_send Scenario.start
          (Spec.page_request Scenario.client Scenario.leak_query 30 true 1)).
Proof.
  split; [discriminate|]. unfold Scenario.search. split; [|split].
  - apply (proj1 (search_code_unexpected_body
                    (Scenario.paged (fun _ => Sample.ok_garbage))
                    Scenario.plain_repr Scenario.client Scenario.leak_query
                    30 5 true Scenario.start Sample.ok_garbage
                    ltac:(discriminate) eq_refl eq_refl)).
    reflexivity.
  - apply (proj1 (proj2 (search_code_unexpected_body
                    (Scenario.paged (fun _ => Sample.ok_array))
                    Scenario.plain_repr Scenario.client Scenario.leak_query
                    30 5 true Scenario.start Sample.ok_array
                    ltac:(discriminate) eq_refl eq_refl)) (VList [])).
    + reflexivity.
    + discriminate.
  - apply (proj2 (proj2 (search_code_unexpected_body
                    (Scenario.paged (fun _ => Sample.ok_null_items))
                    Scenario.plain_repr Scenario.client Scenario.leak_query
                    30 5 true Scenario.start Sample.ok_null_items
                    ltac:(discriminate) eq_refl eq_refl)) [("items", VNone)] VNone);
      reflexivity.
Defined.

(** ** Stripping and splitting *)

Lemma strip_fixed (s : string) :
  PyText.starts_solid s = true -> PyText.ends_solid s = true -> PyStr.strip s = s.
Proof.
  intros Hs He. unfold PyStr.strip. rewrite (lstrip_fixed _ Hs).
  now apply rstrip_fixed.
Qed.

Lemma strip_idempotent (s : string) : PyStr.strip (PyStr.strip s) = PyStr.strip s.
Proof.
  destruct (strip_edges s) as [E|[Hs He]].
  - rewrite E. reflexivity.
  - now apply strip_fixed.
Qed.

Lemma solid_edges (t : string) :
  t <> "" -> Spec.solid t = true ->
  PyText.starts_solid t = true /\ PyText.ends_solid t = true.
Proof.
  induction t as [|c t IH]; [contradiction|]. intros _ H.
  cbn [Spec.solid] in H. apply andb_true_iff in H as [Hc Ht].
  split; [exact Hc|]. destruct t as [|c' t']; [exact Hc|].
  change (PyText.ends_solid (String c (String c' t')))
    with (PyText.ends_solid (String c' t')).
  now apply IH.
Qed.

Lemma starts_solid_app (a b : string) :
  a <> "" -> PyText.starts_solid (a +:+ b) = PyText.starts_solid a.
Proof. destruct a; [contradiction|]. reflexivity. Qed.

Lemma ends_solid_app (a b : string) :
  b <> "" -> PyText.ends_solid (a +:+ b) = PyText.ends_solid b.
Proof.
  intros Hb. induction a as [|c a IH]; [reflexivity|].
  rewrite append_cons. destruct (a +:+ b) as [|c' r] eqn:E.
  - destruct a; [rewrite append_nil_l in E; contradiction | discriminate].
  - exact IH.
Qed.

Lemma starts_solid_nonempty (s : string) : PyText.starts_solid s = true -> s <> "".
Proof. destruct s; [discriminate | discriminate]. Qed.

Lemma ends_solid_nonempty (s : string) : PyText.ends_solid s = true -> s <> "".
Proof. destruct s; [discriminate | discriminate]. Qed.

(** Joining texts that have no whitespace at their ends gives such a text. *)
Lemma join_edges (parts : list string) :
  parts <> [] ->
  Forall (fun p => PyText.starts_solid p = true /\ PyText.ends_solid p = true) parts ->
  PyText.starts_solid (PyStr.join " " parts) = true
  /\ PyText.ends_solid (PyStr.join " " parts) = true.
Proof.
  intros Hne H. induction H as [|p parts [Hs He] Hrest IH]; [contradiction|].
  unfold PyStr.join in *. cbn [String.concat].
  destruct parts as [|p' parts']; [now split|].
  destruct (IH ltac:(discriminate)) as [IHs IHe].
  change (p ++ " " ++ String.concat " " (p' :: parts'))%string
    with (p +:+ " " +:+ String.concat " " (p' :: parts')).
  split.
  - rewrite starts_solid_app; [exact Hs | now apply starts_solid_nonempty].
  - rewrite ends_solid_app by discriminate.
    rewrite (ends_solid_app " "); [exact IHe | now apply ends_solid_nonempty].
Qed.

(** Splitting what [join] made of whitespace-free tokens gives the tokens
    back. *)
Lemma split_from_solid (t rest tok : string) :
  Spec.solid t = true ->
  PyStr.split_from tok (t +:+ rest) = PyStr.split_from (tok +:+ t) rest.
Proof.
  revert tok. induction t as [|c t IH]; intros tok H.
  - now rewrite append_nil_l, app_empty_r.
  - cbn [Spec.solid] in H. apply andb_true_iff in H as [Hc Ht].
    apply negb_true_iff in Hc.
    rewrite append_cons. cbn [PyStr.split_from]. rewrite Hc.
    rewrite (IH _ Ht). now rewrite app_char_assoc.
Qed.

Lemma split_join (tokens : list string) :
  Forall (fun t => t <> "" /\ Spec.solid t = true) tokens ->
  PyStr.split (PyStr.join " " tokens) = tokens.
Proof.
  unfold PyStr.split, PyStr.join.
  induction 1 as [|t tokens [Hne Hs] Hrest IH]; [reflexivity|].
  cbn [String.concat]. destruct tokens as [|t' tokens'].
  - rewrite <- (app_empty_r t) at 1. rewrite (split_from_solid _ _ _ Hs).
    rewrite append_nil_l. cbn [PyStr.split_from].
    now destruct (String.eqb_spec t "").
  - change (t ++ " " ++ String.concat " " (t' :: tokens'))%string
      with (t +:+ String " " (String.concat " " (t' :: tokens'))).
    rewrite (split_from_solid _ _ _ Hs), append_nil_l.
    cbn [PyStr.split_from]. change (PyStr.isspace " ") with true. cbv iota.
    destruct (String.eqb_spec t ""); [contradiction|]. now rewrite IH.
Qed.

Lemma append_assoc (a b c : string) : (a +:+ b) +:+ c = a +:+ (b +:+ c).
Proof.
  induction a as [|x a IH]; [reflexivity|].
  rewrite !append_cons. now rewrite IH.
Qed.

Lemma join_nonempty (parts : list string) :
  parts <> [] -> Forall (fun p => p <> "") parts -> PyStr.join " " parts <> "".
Proof.
  intros Hne H. destruct H as [|p parts Hp Hrest]; [contradiction|].
  unfold PyStr.join. cbn [String.concat]. destruct parts; [exact Hp|].
  destruct p; [contradiction | discriminate].
Qed.

Lemma join_app_glue (xs ys : list string) :
  Forall (fun p => p <> "") xs -> Forall (fun p => p <> "") ys ->
  PyStr.join " " (xs ++ ys)
  = PyText.glue (PyStr.join " " xs) (PyStr.join " " ys).
Proof.
  intros Hx Hy. induction Hx as [|x xs Hne Hxs IH].
  - cbn [app]. unfold PyText.glue. reflexivity.
  - assert (Gx : forall l, l <> [] ->
                 PyStr.join " " (x :: l) = x +:+ " " +:+ PyStr.join " " l).
    { intros l Hl. unfold PyStr.join. cbn [String.concat].
      destruct l; [contradiction | reflexivity]. }
    destruct (list_eq_nil_dec (xs ++ ys)) as [E|E].
    + apply app_eq_nil in E as [-> ->]. cbn [app].
      unfold PyText.glue, PyStr.join. cbn [String.concat].
      destruct (String.eqb_spec x ""); [contradiction | reflexivity].
    + cbn [app]. rewrite (Gx _ E), IH. unfold PyText.glue.
      destruct xs as [|x' xs'].
      * cbn [app] in E.
        change (PyStr.join " " []) with "". cbn [String.eqb].
        change (PyStr.join " " [x]) with x.
        destruct (String.eqb_spec x ""); [contradiction|].
        destruct (String.eqb_spec (PyStr.join " " ys) "") as [Ey|_];
          [|reflexivity].
        exfalso. now apply (join_nonempty ys).
      * rewrite (Gx (x' :: xs')) by discriminate.
        assert (Hj : PyStr.join " " (x' :: xs') <> "")
          by (apply join_nonempty; [discriminate | exact Hxs]).
        destruct (String.eqb_spec (PyStr.join " " (x' :: xs')) "");
          [contradiction|].
        destruct (String.eqb_spec (x +:+ " " +:+ PyStr.join " " (x' :: xs')) "")
          as [Ex|_]; [destruct x; [contradiction | discriminate]|].
        destruct (String.eqb_spec (PyStr.join " " ys) ""); [reflexivity|].
        now rewrite !append_assoc.
Qed.

(** ** The shape of a built query *)

Lemma rendered_edges (qv : Qualifier) :
  Forall (fun p => PyText.starts_solid p = true /\ PyText.ends_solid p = true)
    (Spec.rendered qv).
Proof.
  unfold Spec.rendered.
  destruct (strip_edges (fst qv)) as [Ek|[Ks Ke]].
  - rewrite Ek. constructor.
  - destruct (String.eqb_spec (PyStr.strip (fst qv)) "") as [E|Hk]; [constructor|].
    destruct (strip_edges (snd qv)) as [Ev|[Vs Ve]].
    + rewrite Ev. cbn [String.eqb]. repeat constructor; assumption.
    + destruct (String.eqb_spec (PyStr.strip (snd qv)) "") as [E|Hv];
        [repeat constructor; assumption|].
      constructor; [|constructor]. split.
      * now rewrite starts_solid_app.
      * rewrite ends_solid_app by (destruct (PyStr.strip qv.2); discriminate).
        now rewrite (ends_solid_app ":").
Qed.

Lemma rendered_all_edges (qs : list Qualifier) :
  Forall (fun p => PyText.starts_solid p = true /\ PyText.ends_solid p = true)
    (flat_map Spec.rendered qs).
Proof.
  induction qs as [|qv qs IH]; cbn [flat_map]; [constructor|].
  apply Forall_app. split; [apply rendered_edges | exact IH].
Qed.

Lemma split_empty_iff (s : string) : PyStr.split s = [] <-> Spec.squeezed s = "".
Proof.
  rewrite <- split_squeezed. split; [now intros ->|].
  pose proof (split_tokens s) as H. destruct H as [|t ts [Hne _] _]; [reflexivity|].
  rewrite concat_empty_cons. intros E. destruct t; [contradiction | discriminate].
Qed.

Lemma query_part_edges (q : string) :
  Forall (fun p => PyText.starts_solid p = true /\ PyText.ends_solid p = true)
    (if String.eqb (Spec.normalized q) "" then [] else [Spec.normalized q]).
Proof.
  destruct (String.eqb_spec (Spec.normalized q) "") as [E|Hne]; [constructor|].
  constructor; [|constructor]. unfold Spec.normalized in *.
  apply join_edges.
  - intros E. rewrite E in Hne. now apply Hne.
  - eapply List.Forall_impl; [|apply split_tokens].
    intros t [Ht Hs]. now apply solid_edges.
Qed.

Lemma normalized_empty_iff (q : string) :
  Spec.normalized q = "" <-> PyStr.split q = [].
Proof.
  unfold Spec.normalized. split; [|now intros ->].
  intros E. destruct (PyStr.split q) as [|t ts] eqn:S; [reflexivity|].
  exfalso. apply (join_nonempty (t :: ts)); [discriminate | | exact E].
  rewrite <- S. eapply List.Forall_impl; [|apply split_tokens]. now intros x [Hx _].
Qed.

Lemma edges_nonempty (parts : list string) :
  Forall (fun p => PyText.starts_solid p = true /\ PyText.ends_solid p = true) parts ->
  Forall (fun p => p <> "") parts.
Proof.
  intros H. eapply List.Forall_impl; [|exact H].
  intros p [Hs _]. now apply starts_solid_nonempty.
Qed.

Lemma rendered_nil_iff (qs : list Qualifier) :
  flat_map Spec.rendered qs = []
  <-> Forall (fun qv => PyStr.strip (fst qv) = "") qs.
Proof.
  induction qs as [|qv qs IH]; cbn [flat_map]; [split; constructor|].
  split.
  - intros E. apply app_eq_nil in E as [E1 E2]. constructor; [|now apply IH].
    unfold Spec.rendered in E1.
    destruct (String.eqb_spec (PyStr.strip (fst qv)) ""); [assumption|].
    destruct (String.eqb (PyStr.strip (snd qv)) ""); discriminate.
  - intros H. inversion H as [|? ? Hq Hqs]; subst.
    apply IH in Hqs. rewrite Hqs, app_nil_r. unfold Spec.rendered.
    rewrite Hq. reflexivity.
Qed.

Lemma build_empty_iff (spec : QuerySpec) :
  build spec = ""
  <-> PyStr.split (query spec) = []
      /\ Forall (fun qv => PyStr.strip (fst qv) = "") (qualifiers spec).
Proof.
  unfold build. rewrite build_run_eq. cbn [fst]. unfold Spec.built.
  rewrite <- rendered_nil_iff, <- normalized_empty_iff.
  split.
  - intros E.
    destruct (list_eq_nil_dec
                ((if String.eqb (Spec.normalized (query spec)) "" then []
                  else [Spec.normalized (query spec)])
                 ++ flat_map Spec.rendered (qualifiers spec))) as [N|N].
    + apply app_eq_nil in N as [N1 N2]. split; [|exact N2].
      destruct (String.eqb_spec (Spec.normalized (query spec)) "");
        [assumption | discriminate].
    + exfalso. apply (join_nonempty _ N); [|exact E].
      apply edges_nonempty, Forall_app.
      split; [apply query_part_edges | apply rendered_all_edges].
  - intros [-> ->]. reflexivity.
Qed.

(** X7. The text that [build] returns is empty or has no whitespace at
    either end, so stripping it changes nothing; and it is empty exactly
    when the query holds no word and every qualifier key strips to empty. *)
Theorem build_is_trimmed (spec : QuerySpec) :
  PyStr.strip (build spec) = build spec
  /\ (build spec = ""
      <-> PyStr.split (query spec) = []
          /\ Forall (fun qv => PyStr.strip (fst qv) = "") (qualifiers spec)).
Proof.
  split; [|apply build_empty_iff].
  unfold build. rewrite build_run_eq. cbn [fst]. unfold Spec.built.
  set (parts := (if String.eqb (Spec.normalized (query spec)) "" then []
                 else [Spec.normalized (query spec)])
                ++ flat_map Spec.rendered (qualifiers spec)).
  assert (H : Forall (fun p => PyText.starts_solid p = true
                               /\ PyText.ends_solid p = true) parts).
  { apply Forall_app. split; [apply query_part_edges | apply rendered_all_edges]. }
  destruct (list_eq_nil_dec parts) as [->|N]; [reflexivity|].
  destruct (join_edges parts N H) as [Hs He]. now apply strip_fixed.
Qed.

(** X8. Normalising a query text twice is the same as normalising it
    once: the words of a normalised text are the words it was made of, and
    a spec whose query is already normalised builds the same text. *)
Theorem normalisation_is_idempotent (q : string) (qs : list Qualifier) :
  PyStr.split (PyStr.join " " (PyStr.split q)) = PyStr.split q
  /\ build (mkQuerySpec (PyStr.join " " (PyStr.split q)) qs)
     = build (mkQuerySpec q qs).
Proof.
  assert (E : PyStr.split (PyStr.join " " (PyStr.split q)) = PyStr.split q)
    by apply split_join, split_tokens.
  split; [exact E|].
  unfold build. rewrite !build_run_eq. cbn [fst]. unfold Spec.built, Spec.normalized.
  cbn [query qualifiers]. now rewrite E.
Qed.

Lemma merge_loop (groups : list (list Qualifier)) (combined : list Qualifier) :
  fold_left (fun combined group => combined ++ group) groups combined
  = combined ++ concat groups.
Proof.
  revert combined. induction groups as [|g groups IH]; intros combined;
    cbn [fold_left concat].
  - now rewrite app_nil_r.
  - now rewrite IH, app_assoc.
Qed.

(** X9. [merge_qualifiers] puts the qualifiers of its groups one after
    the other, in order; and the text built with the qualifiers of two
    groups is the text built with the first group followed, after one
    space, by the segments of the second (without the space when either
    side is empty). *)
Theorem merged_qualifiers_build :
  (forall groups, merge_qualifiers groups = concat groups)
  /\ (forall q a b,
      build (mkQuerySpec q (merge_qualifiers [a; b]))
      = PyText.glue (build (mkQuerySpec q a)) (build (mkQuerySpec "" b)))
  /\ (forall q a b,
      build (mkQuerySpec q (a ++ b))
      = PyText.glue (build (mkQuerySpec q a)) (build (mkQuerySpec "" b))).
Proof.
  assert (M : forall groups, merge_qualifiers groups = concat groups).
  { intros groups. unfold merge_qualifiers. now rewrite merge_loop. }
  assert (B : forall q a b,
             build (mkQuerySpec q (a ++ b))
             = PyText.glue (build (mkQuerySpec q a)) (build (mkQuerySpec "" b))).
  { intros q a b. unfold build. rewrite !build_run_eq. cbn [fst].
    unfold Spec.built. cbn [query qualifiers].
    change (Spec.normalized "") with "". cbn [String.eqb app].
    rewrite flat_map_app, app_assoc. apply join_app_glue.
    - apply edges_nonempty, Forall_app.
      split; [apply query_part_edges | apply rendered_all_edges].
    - apply edges_nonempty, rendered_all_edges. }
  split; [exact M|]. split; [|exact B].
  intros q a b. rewrite M. cbn [concat]. rewrite app_nil_r. apply B.
Qed.

(** ** Qualifiers from the command line *)

Lemma prefix_empty (s : string) : String.prefix "" s = true.
Proof. now destruct s. Qed.

Lemma contains_char_cons (x c : ascii) (rest : string) :
  PyStr.contains (String x "") (String c rest)
  = Ascii.eqb c x || PyStr.contains (String x "") rest.
Proof.
  cbn [PyStr.contains String.prefix].
  destruct (Ascii.ascii_dec x c) as [->|Hne].
  - now rewrite prefix_empty, Ascii.eqb_refl.
  - destruct (Ascii.eqb_spec c x) as [->|_]; [contradiction | reflexivity].
Qed.

Lemma contains_char_empty (x : ascii) : PyStr.contains (String x "") "" = false.
Proof. reflexivity. Qed.

Lemma cut_present (x : ascii) (s : string) :
  PyStr.contains (String x "") s = true ->
  exists before after,
    PyText.cut x s = Some (before, after)
    /\ PyStr.contains (String x "") before = false.
Proof.
  induction s as [|c s IH]; [discriminate|].
  rewrite contains_char_cons. cbn [PyText.cut].
  destruct (Ascii.eqb c x) eqn:E; cbn [orb].
  - intros _. exists "", s. split; reflexivity.
  - intros H. destruct (IH H) as (before & after & -> & Hb).
    exists (String c before), after. split; [reflexivity|].
    now rewrite contains_char_cons, E, Hb.
Qed.

Lemma cut_absent (x : ascii) (s : string) :
  PyStr.contains (String x "") s = false -> PyText.cut x s = None.
Proof.
  induction s as [|c s IH]; [reflexivity|].
  rewrite contains_char_cons. cbn [PyText.cut].
  destruct (Ascii.eqb c x); cbn [orb]; [discriminate|].
  intros H. now rewrite (IH H).
Qed.

Lemma cut_app (x : ascii) (k v : string) :
  PyStr.contains (String x "") k = false ->
  PyText.cut x (k +:+ String x v) = Some (k, v).
Proof.
  induction k as [|c k IH].
  - intros _. rewrite append_nil_l. cbn [PyText.cut]. now rewrite Ascii.eqb_refl.
  - rewrite contains_char_cons, append_cons. cbn [PyText.cut].
    destruct (Ascii.eqb c x); cbn [orb]; [discriminate|].
    intros H. now rewrite (IH H).
Qed.

Lemma lstrip_keeps_absent (x : ascii) (s : string) :
  PyStr.contains (String x "") s = false ->
  PyStr.contains (String x "") (PyStr.lstrip s) = false.
Proof.
  induction s as [|c s IH]; [trivial|]. cbn [PyStr.lstrip].
  destruct (PyStr.isspace c); [|trivial].
  rewrite contains_char_cons. intros H. apply orb_false_iff in H as [_ H].
  now apply IH.
Qed.

Lemma rstrip_keeps_absent (x : ascii) (s : string) :
  PyStr.contains (String x "") s = false ->
  PyStr.contains (String x "") (PyStr.rstrip s) = false.
Proof.
  induction s as [|c s IH]; [trivial|]. cbn [PyStr.rstrip].
  rewrite contains_char_cons. intros H. apply orb_false_iff in H as [Hc H].
  specialize (IH H). destruct (PyStr.rstrip s) as [|k kept].
  - destruct (PyStr.isspace c); [reflexivity|].
    now rewrite contains_char_cons, Hc.
  - now rewrite contains_char_cons, Hc, IH.
Qed.

Lemma strip_keeps_absent (x : ascii) (s : string) :
  PyStr.contains (String x "") s = false ->
  PyStr.contains (String x "") (PyStr.strip s) = false.
Proof.
  intros H. unfold PyStr.strip. now apply rstrip_keeps_absent, lstrip_keeps_absent.
Qed.

Lemma parse_qualifiers_loop_eq (raw : list string) (acc : list Qualifier) :
  parse_qualifiers_loop acc raw = Return (acc ++ flat_map qualifier_of raw).
Proof.
  revert acc. induction raw as [|entry raw IH]; intros acc;
    cbn [parse_qualifiers_loop flat_map].
  - now rewrite app_nil_r.
  - unfold qualifier_of at 1, PyText.split_max1, PyStr.nonempty.
    destruct (PyStr.contains "=" entry) eqn:C.
    + destruct (cut_present _ _ C) as (before & after & -> & _).
      cbn [obind fst snd].
      destruct (String.eqb (PyStr.strip before) ""); cbn [negb app].
      * apply IH.
      * rewrite IH, <- app_assoc. reflexivity.
    + rewrite (cut_absent _ _ C). cbn [obind fst snd].
      destruct (String.eqb (PyStr.strip entry) ""); cbn [negb app].
      * apply IH.
      * rewrite IH, <- app_assoc. reflexivity.
Qed.

Lemma qualifier_of_normal (entry : string) (kv : Qualifier) :
  In kv (qualifier_of entry) ->
  fst kv <> ""
  /\ PyStr.strip (fst kv) = fst kv
  /\ PyStr.strip (snd kv) = snd kv
  /\ PyStr.contains "=" (fst kv) = false.
Proof.
  unfold qualifier_of.
  destruct (PyStr.contains "=" entry) eqn:C.
  - destruct (cut_present _ _ C) as (before & after & -> & Hb). cbn [fst snd].
    destruct (String.eqb_spec (PyStr.strip before) "") as [|Hne]; [intros []|].
    intros [<-|[]]. cbn [fst snd]. repeat split; try assumption.
    + apply strip_idempotent.
    + apply strip_idempotent.
    + now apply strip_keeps_absent.
  - rewrite (cut_absent _ _ C). cbn [fst snd].
    destruct (String.eqb_spec (PyStr.strip entry) "") as [|Hne]; [intros []|].
    intros [<-|[]]. cbn [fst snd]. repeat split; try assumption.
    + apply strip_idempotent.
    + now apply strip_keeps_absent.
Qed.

(** X10. [_parse_qualifiers] never raises and treats its entries one by
    one, in order.  An entry [k=v], [k] being free of [=], gives the
    qualifier (k stripped, v stripped), so a value may itself hold [=]; an
    entry without [=] gives its stripped text with an empty value; an entry
    whose key strips to empty gives nothing.  Every qualifier returned has a
    key that is not empty, holds no [=] and is stripped, and a value that is
    stripped. *)
Theorem parse_qualifiers_rule :
  (forall raw, _parse_qualifiers raw = Return (flat_map qualifier_of raw))
  /\ (forall k v,
      PyStr.contains "=" k = false ->
      qualifier_of (k +:+ "=" +:+ v)
      = if String.eqb (PyStr.strip k) "" then []
        else [(PyStr.strip k, PyStr.strip v)])
  /\ (forall entry,
      PyStr.contains "=" entry = false ->
      qualifier_of entry
      = if String.eqb (PyStr.strip entry) "" then []
        else [(PyStr.strip entry, "")])
  /\ (forall raw kv,
      In kv (flat_map qualifier_of raw) ->
      fst kv <> ""
      /\ PyStr.strip (fst kv) = fst kv
      /\ PyStr.strip (snd kv) = snd kv
      /\ PyStr.contains "=" (fst kv) = false).
Proof.
  split; [|split; [|split]].
  - intros raw. unfold _parse_qualifiers. now rewrite parse_qualifiers_loop_eq.
  - intros k v H. unfold qualifier_of.
    change (k +:+ "=" +:+ v) with (k +:+ String "=" v).
    now rewrite (cut_app _ _ _ H).
  - intros entry H. unfold qualifier_of. now rewrite (cut_absent _ _ H).
  - intros raw kv H. apply in_flat_map in H as (entry & _ & H).
    now apply qualifier_of_normal with entry.
Qed.

Lemma rendered_normal (kv : Qualifier) :
  fst kv <> "" -> PyStr.strip (fst kv) = fst kv -> PyStr.strip (snd kv) = snd kv ->
  Spec.rendered kv = [segment kv].
Proof.
  intros Hne Hk Hv. unfold Spec.rendered, segment. rewrite Hk, Hv.
  destruct (String.eqb_spec (fst kv) ""); [contradiction | ].
  now destruct (String.eqb (snd kv) "").
Qed.

(** X11. Qualifiers that come from [_parse_qualifiers] pass through
    [build] untouched: each of them gives exactly one segment, [key] or
    [key:value] with the key and value as parsed, so the text built from
    them alone is their segments joined by single spaces. *)
Theorem parsed_qualifiers_build (raw : list string) :
  match _parse_qualifiers raw with
  | Return qs =>
      flat_map Spec.rendered qs = map segment qs
      /\ build (mkQuerySpec "" qs) = PyStr.join " " (map segment qs)
  | Raise _ => False
  end.
Proof.
  unfold _parse_qualifiers. rewrite parse_qualifiers_loop_eq. cbn [app].
  assert (E : flat_map Spec.rendered (flat_map qualifier_of raw)
              = map segment (flat_map qualifier_of raw)).
  { assert (H : Forall (fun kv => Spec.rendered kv = [segment kv])
                  (flat_map qualifier_of raw)).
    { apply List.Forall_forall. intros kv Hin.
      apply in_flat_map in Hin as (entry & _ & Hin).
      destruct (qualifier_of_normal _ _ Hin) as (H1 & H2 & H3 & _).
      now apply rendered_normal. }
    induction H as [|kv l Hkv _ IH]; [reflexivity|].
    cbn [flat_map map]. now rewrite Hkv, IH. }
  split; [exact E|].
  unfold build. rewrite build_run_eq. cbn [fst]. unfold Spec.built.
  cbn [query qualifiers]. change (Spec.normalized "") with "". cbn [String.eqb app].
  now rewrite E.
Qed.

(** ** Specs from query texts *)

Lemma one_line_app_char (cur : string) (c : ascii) :
  one_line (cur +:+ String c "") = one_line cur && negb (PyText.is_linebreak c).
Proof.
  induction cur as [|a cur IH].
  - rewrite append_nil_l. cbn [one_line]. now destruct (PyText.is_linebreak c).
  - rewrite append_cons. cbn [one_line]. now rewrite IH, andb_assoc.
Qed.

Lemma splitlines_from_one_line (s : string) :
  (forall cur, one_line cur = true ->
               Forall (fun l => one_line l = true) (PyText.splitlines_from cur s))
  /\ (forall c rest cur, s = String c rest -> one_line cur = true ->
        Forall (fun l => one_line l = true) (PyText.splitlines_from cur rest)).
Proof.
  induction s as [|c s [IH1 IH2]].
  - split; [|discriminate]. intros cur H. cbn [PyText.splitlines_from].
    destruct (String.eqb cur ""); repeat constructor; assumption.
  - split; [|intros c0 rest cur [= _ <-]; now apply IH1].
    intros cur H. cbn [PyText.splitlines_from].
    destruct (PyText.is_linebreak c) eqn:E.
    + constructor; [exact H|]. destruct s as [|c' s']; [constructor|].
      destruct ((N_of_ascii c =? 13)%N && (N_of_ascii c' =? 10)%N).
      * now apply (IH2 c' s').
      * now apply IH1.
    + apply IH1. now rewrite one_line_app_char, H, E.
Qed.

Lemma lstrip_one_line (s : string) :
  one_line s = true -> one_line (PyStr.lstrip s) = true.
Proof.
  induction s as [|c s IH]; [trivial|]. cbn [PyStr.lstrip].
  destruct (PyStr.isspace c); [|trivial].
  cbn [one_line]. intros H. apply andb_true_iff in H as [_ H]. now apply IH.
Qed.

Lemma rstrip_one_line (s : string) :
  one_line s = true -> one_line (PyStr.rstrip s) = true.
Proof.
  induction s as [|c s IH]; [trivial|]. cbn [PyStr.rstrip one_line].
  intros H. apply andb_true_iff in H as [Hc H]. specialize (IH H).
  destruct (PyStr.rstrip s) as [|k kept].
  - destruct (PyStr.isspace c); [reflexivity|]. cbn [one_line]. now rewrite Hc.
  - cbn [one_line] in *. now rewrite Hc, IH.
Qed.

Lemma build_specs_lines_loop (qualifiers : list Qualifier) (lines : list string)
    (specs : list QuerySpec) :
  fold_left
    (fun specs line =>
       let stripped := PyStr.strip line in
       if PyStr.nonempty stripped
       then specs ++ [mkQuerySpec stripped qualifiers]
       else specs)
    lines specs
  = specs ++ map (fun line => mkQuerySpec (PyStr.strip line) qualifiers)
               (List.filter (fun line => PyStr.nonempty (PyStr.strip line)) lines).
Proof.
  revert specs. induction lines as [|line lines IH]; intros specs;
    cbn [fold_left List.filter map].
  - now rewrite app_nil_r.
  - cbv zeta. destruct (PyStr.nonempty (PyStr.strip line)); cbn [map].
    + now rewrite IH, <- app_assoc.
    + apply IH.
Qed.

Lemma build_specs_texts_loop (qualifiers : list Qualifier) (texts : list string)
    (specs : list QuerySpec) :
  fold_left
    (fun specs text =>
       fold_left
         (fun specs line =>
            let stripped := PyStr.strip line in
            if PyStr.nonempty stripped
            then specs ++ [mkQuerySpec stripped qualifiers]
            else specs)
         (PyText.splitlines text) specs)
    texts specs
  = specs ++ map (fun line => mkQuerySpec (PyStr.strip line) qualifiers)
               (List.filter (fun line => PyStr.nonempty (PyStr.strip line))
                  (flat_map PyText.splitlines texts)).
Proof.
  revert specs. induction texts as [|text texts IH]; intros specs;
    cbn [fold_left flat_map].
  - now rewrite app_nil_r.
  - rewrite build_specs_lines_loop, IH, List.filter_app, map_app, app_assoc.
    reflexivity.
Qed.

Lemma stripped_query_builds (text : string) (qualifiers : list Qualifier) :
  PyStr.nonempty (PyStr.strip text) = true ->
  build (mkQuerySpec (PyStr.strip text) qualifiers) <> "".
Proof.
  unfold PyStr.nonempty. intros Hne E.
  apply build_empty_iff in E as [E _]. cbn [query] in E.
  apply split_empty_iff in E.
  destruct (strip_edges text) as [Z|[Hs _]]; [now rewrite Z in Hne|].
  destruct (PyStr.strip text) as [|c rest]; [discriminate|].
  cbn [PyText.starts_solid] in Hs. cbn [Spec.squeezed] in E.
  apply negb_true_iff in Hs. rewrite Hs in E. discriminate.
Qed.


(** ** Tokens *)

Lemma nonempty_true (s : string) : PyStr.nonempty s = true <-> s <> "".
Proof.
  unfold PyStr.nonempty. destruct (String.eqb_spec s ""); split; intros H;
    try discriminate; try reflexivity; congruence.
Qed.

Lemma nonempty_false (s : string) : PyStr.nonempty s = false <-> s = "".
Proof.
  unfold PyStr.nonempty. destruct (String.eqb_spec s ""); split; intros H;
    try discriminate; try reflexivity; congruence.
Qed.

Lemma strip_empty : PyStr.strip "" = "".
Proof. reflexivity. Qed.

Lemma lookup_set_same (key : string) (v : value) (d : list (string * value)) :
  PyVal.lookup key (PyDict.set key v d) = Some v.
Proof.
  induction d as [|[k old] d IH]; cbn [PyDict.set PyVal.lookup].
  - now rewrite String.eqb_refl.
  - destruct (String.eqb k key) eqn:E; cbn [PyVal.lookup]; now rewrite E.
Qed.

Lemma lookup_set_other (key key' : string) (v : value) (d : list (string * value)) :
  key' <> key ->
  PyVal.lookup key' (PyDict.set key v d) = PyVal.lookup key' d.
Proof.
  intros Hne. induction d as [|[k old] d IH]; cbn [PyDict.set PyVal.lookup].
  - destruct (String.eqb_spec key key'); [congruence | reflexivity].
  - destruct (String.eqb_spec k key) as [->|Hk]; cbn [PyVal.lookup].
    + destruct (String.eqb_spec key key'); [congruence | reflexivity].
    + now rewrite IH.
Qed.

Lemma lookup_remove_same (key : string) (d : list (string * value)) :
  PyVal.lookup key (PyDict.remove key d) = None.
Proof.
  unfold PyDict.remove.
  induction d as [|[k v] d IH]; cbn [List.filter PyVal.lookup fst]; [reflexivity|].
  destruct (String.eqb k key) eqn:E; cbn [negb]; [exact IH|].
  cbn [PyVal.lookup]. now rewrite E.
Qed.

Lemma lookup_remove_other (key key' : string) (d : list (string * value)) :
  key' <> key ->
  PyVal.lookup key' (PyDict.remove key d) = PyVal.lookup key' d.
Proof.
  intros Hne. unfold PyDict.remove.
  induction d as [|[k v] d IH]; cbn [List.filter PyVal.lookup fst]; [reflexivity|].
  destruct (String.eqb_spec k key) as [->|Hk]; cbn [negb PyVal.lookup].
  - destruct (String.eqb_spec key key'); [congruence | exact IH].
  - now rewrite IH.
Qed.

(** What [resolve_token] does once the explicit token is out of the way. *)
Lemma resolve_without_explicit default explicit cp sys :
  unusable explicit ->
  Config.resolve_token default explicit cp sys
  = Config.resolve_token default None cp sys.
Proof.
  unfold unusable, Config.resolve_token. destruct explicit as [e|]; [|reflexivity].
  intros H. rewrite H. cbn [PyStr.nonempty String.eqb negb].
  now destruct (PyStr.nonempty e).
Qed.

(** X13. [resolve_token] prefers the explicit token, then the
    environment, then the config file.  An explicit token that does not
    strip to empty is returned, stripped, whatever the environment and the
    files hold; without one, a token in the environment that does not strip
    to empty is returned, stripped, whatever the files hold, even when the
    config file is not valid JSON.  A token that is returned is never empty
    and has no whitespace at its ends. *)
Theorem resolve_token_precedence default explicit cp sys :
  (forall e, explicit = Some e -> PyStr.strip e <> "" ->
             Config.resolve_token default explicit cp sys = Ok (PyStr.strip e))
  /\ (unusable explicit -> Config.env_token sys <> "" ->
      Config.resolve_token default explicit cp sys = Ok (Config.env_token sys))
  /\ match Config.resolve_token default explicit cp sys with
     | Ok token => token <> "" /\ PyStr.strip token = token
     | Err _ => True
     end.
Proof.
  assert (Henv : forall t, PyStr.nonempty (PyStr.strip t) = true ->
                 PyStr.strip t <> "" /\ PyStr.strip (PyStr.strip t) = PyStr.strip t).
  { intros t H. split; [now apply nonempty_true | apply strip_idempotent]. }
  assert (Hnone : match Config.resolve_token default None cp sys with
                  | Ok token => token <> "" /\ PyStr.strip token = token
                  | Err _ => True
                  end).
  { unfold Config.resolve_token, Config.env_token.
    destruct (PyStr.nonempty (PyStr.strip _)) eqn:E; [now apply Henv|].
    destruct (Config._read_config _ sys) as [data|]; cbn [rbind]; [|exact I].
    destruct (PyVal.get data "github_token" (VStr "")) as [found|];
      cbn [of_outcome rbind]; [|exact I].
    destruct found; cbn [PyDict.strip of_outcome rbind]; try exact I.
    destruct (PyStr.nonempty (PyStr.strip s)) eqn:E2; [now apply Henv | exact I]. }
  split; [|split].
  - intros e -> He. unfold Config.resolve_token.
    assert (Hn : e <> "") by (intros ->; now apply He).
    apply nonempty_true in Hn, He. now rewrite Hn, He.
  - intros Hu He. rewrite (resolve_without_explicit _ _ _ _ Hu).
    unfold Config.resolve_token. apply nonempty_true in He. now rewrite He.
  - destruct explicit as [e|]; [|exact Hnone].
    destruct (String.eqb_spec (PyStr.strip e) "") as [Z|NZ].
    + now rewrite (resolve_without_explicit _ (Some e) _ _ Z).
    + unfold Config.resolve_token.
      assert (Hn : e <> "") by (intros ->; now apply NZ).
      apply nonempty_true in Hn. rewrite Hn.
      pose proof NZ as NZ'. apply nonempty_true in NZ'. rewrite NZ'.
      split; [exact NZ | apply strip_idempotent].
Qed.

Lemma resolve_token_precedence_witness :
  Config.resolve_token SampleSys.config_path (Some " ghp_cli ") None SampleSys.with_env
  = Ok "ghp_cli"
  /\ Config.resolve_token SampleSys.config_path (Some "  ") None SampleSys.with_env
     = Ok "ghp_env".
Proof.
  split.
  - apply (proj1 (resolve_token_precedence SampleSys.config_path (Some " ghp_cli ")
                    None SampleSys.with_env) " ghp_cli " eq_refl).
    discriminate.
  - apply (proj1 (proj2 (resolve_token_precedence SampleSys.config_path (Some "  ")
                           None SampleSys.with_env))).
    + reflexivity.
    + vm_compute. discriminate.
Defined.

Lemma resolve_from_config default cp sys fields :
  Config.env_token sys = "" ->
  files sys !! Config.path_or cp default = Some (Json (VDict fields)) ->
  Config.resolve_token default None cp sys
  = match PyVal.lookup "github_token" fields with
    | Some (VStr s) =>
        if PyStr.nonempty (PyStr.strip s) then Ok (PyStr.strip s)
        else Err (RuntimeError Config.NOT_FOUND)
    | Some _ => Err (Builtin AttributeError)
    | None => Err (RuntimeError Config.NOT_FOUND)
    end.
Proof.
  intros He Hf. unfold Config.resolve_token, Config._read_config.
  rewrite He, Hf. cbn [PyStr.nonempty String.eqb negb rbind PyVal.get of_outcome].
  destruct (PyVal.lookup "github_token" fields) as [[]|]; reflexivity.
Qed.



(** X15. When [store_token] fails it writes nothing.  A token that strips
    to empty is refused with the [ValueError] before the config file is even
    read; a config file whose text is not valid JSON gives the
    [RuntimeError] that names the file; a config file that is not UTF-8 text
    gives the [UnicodeDecodeError] of the read, which the code does not turn
    into that [RuntimeError]; a config file that holds JSON other than an
    object gives a [TypeError]. *)
Theorem store_token_failures default token cp sys :
  let path := Config.path_or cp default in
  (PyStr.strip token = "" ->
   Config.store_token default token cp sys = (Err (Builtin ValueError), sys))
  /\ (PyStr.strip token <> "" -> files sys !! path = Some NotJson ->
      Config.store_token default token cp sys
      = (Err (RuntimeError ("Config file at " +:+ path +:+ " is not valid JSON")),
         sys))
  /\ (PyStr.strip token <> "" -> files sys !! path = Some NotUtf8 ->
      Config.store_token default token cp sys
      = (Err (Builtin UnicodeDecodeError), sys))
  /\ (forall doc,
      PyStr.strip token <> "" -> files sys !! path = Some (Json doc) ->
      (forall fields, doc <> VDict fields) ->
      Config.store_token default token cp sys = (Err (Builtin TypeError), sys))
  /\ match Config.store_token default token cp sys with
     | (Err _, sys') => sys' = sys
     | (Ok p, _) => p = path
     end.
Proof.
  cbv zeta. split; [|split; [|split; [|split]]].
  - intros H. unfold Config.store_token. now rewrite H.
  - intros H Hf. unfold Config.store_token, Config._read_config. cbv zeta.
    apply nonempty_true in H. now rewrite H, Hf.
  - intros H Hf. unfold Config.store_token, Config._read_config. cbv zeta.
    apply nonempty_true in H. now rewrite H, Hf.
  - intros doc H Hf Hd. unfold Config.store_token, Config._read_config. cbv zeta.
    apply nonempty_true in H. rewrite H, Hf. cbn [negb rbind].
    destruct doc; try reflexivity. now destruct (Hd fields).
  - unfold Config.store_token. cbv zeta.
    destruct (negb (PyStr.nonempty (PyStr.strip token))); [reflexivity|].
    destruct (rbind _ _); reflexivity.
Qed.

Lemma store_token_failures_witness :
  Config.store_token "unused" "   " (Some SampleSys.config_path) SampleSys.with_config
  = (Err (Builtin ValueError), SampleSys.with_config)
  /\ Config.store_token "unused" "ghp" (Some SampleSys.config_path) SampleSys.with_env
     = (Err (RuntimeError
               "Config file at /home/u/.config/bugzero/config.json is not valid JSON"),
        SampleSys.with_env)
  /\ Config.store_token "unused" "ghp" (Some SampleSys.config_path)
       SampleSys.binary_config
     = (Err (Builtin UnicodeDecodeError), SampleSys.binary_config).
Proof.
  split; [|split].
  - apply (proj1 (store_token_failures "unused" "   " (Some SampleSys.config_path)
                    SampleSys.with_config)). reflexivity.
  - apply (proj1 (proj2 (store_token_failures "unused" "ghp"
                           (Some SampleSys.config_path) SampleSys.with_env))).
    + discriminate.
    + reflexivity.
  - apply (proj1 (proj2 (proj2 (store_token_failures "unused" "ghp"
                                  (Some SampleSys.config_path)
                                  SampleSys.binary_config)))).
    + discriminate.
    + reflexivity.
Defined.



(** X17. When [token_status] reports no source, neither the environment
    nor the config file, [resolve_token] without a usable explicit token
    returns no token; so a token that [resolve_token] returns without an
    explicit one always shows in [token_status].  (The failure need not be
    the "not found" error: a config file whose token is null makes
    [resolve_token] raise [AttributeError].) *)
Theorem status_none_means_no_token default explicit cp sys :
  Config.token_status default cp sys = Ok (false, None) ->
  unusable explicit ->
  exists e, Config.resolve_token default explicit cp sys = Err e.
Proof.
  intros Hs Hu. rewrite (resolve_without_explicit _ _ _ _ Hu).
  unfold Config.token_status in Hs. unfold Config.resolve_token.
  destruct (Config._read_config _ sys) as [data|e]; cbn [rbind] in *;
    [|discriminate].
  destruct data; cbn [PyVal.get of_outcome rbind] in *; try discriminate.
  destruct (PyStr.nonempty (Config.env_token sys)); cbn [rbind].
  - destruct (PyVal.lookup "github_token" fields) as [v|];
      [destruct (PyVal.truthy v)|]; discriminate.
  - destruct (PyVal.lookup "github_token" fields) as [v|].
    + destruct (PyVal.truthy v) eqn:T; [discriminate|].
      destruct v; cbn [PyDict.strip of_outcome rbind]; eauto.
      cbn [PyVal.truthy] in T. apply nonempty_false in T. subst s.
      cbn. eauto.
    + cbn. eauto.
Qed.

Lemma status_none_means_no_token_witness :
  Config.token_status "unused" (Some SampleSys.config_path) SampleSys.null_token
  = Ok (false, None)
  /\ Config.resolve_token "unused" (Some " ") (Some SampleSys.config_path)
       SampleSys.null_token
     = Err (Builtin AttributeError)
  /\ exists e,
      Config.resolve_token "unused" (Some " ") (Some SampleSys.config_path)
        SampleSys.null_token = Err e.
Proof.
  split; [reflexivity|]. split; [reflexivity|].
  apply (status_none_means_no_token "unused" (Some " ")
           (Some SampleSys.config_path) SampleSys.null_token).
  - reflexivity.
  - reflexivity.
Defined.

(** ** Saved queries *)

Lemma find_set_same {V} (key : string) (v : V) (d : list (string * V)) :
  PyDict.find key (PyDict.set key v d) = Some v.
Proof.
  induction d as [|[k old] d IH]; cbn [PyDict.set PyDict.find].
  - now rewrite String.eqb_refl.
  - destruct (String.eqb k key) eqn:E; cbn [PyDict.find]; now rewrite E.
Qed.

Lemma find_set_other {V} (key key' : string) (v : V) (d : list (string * V)) :
  key' <> key ->
  PyDict.find key' (PyDict.set key v d) = PyDict.find key' d.
Proof.
  intros Hne. induction d as [|[k old] d IH]; cbn [PyDict.set PyDict.find].
  - destruct (String.eqb_spec key key'); [congruence | reflexivity].
  - destruct (String.eqb_spec k key) as [->|Hk]; cbn [PyDict.find].
    + destruct (String.eqb_spec key key'); [congruence | reflexivity].
    + now rewrite IH.
Qed.

Lemma find_remove_other {V} (key key' : string) (d : list (string * V)) :
  key' <> key ->
  PyDict.find key' (PyDict.remove key d) = PyDict.find key' d.
Proof.
  intros Hne. unfold PyDict.remove.
  induction d as [|[k v] d IH]; cbn [List.filter PyDict.find fst]; [reflexivity|].
  destruct (String.eqb_spec k key) as [->|Hk]; cbn [negb PyDict.find].
  - destruct (String.eqb_spec key key'); [congruence | exact IH].
  - now rewrite IH.
Qed.

Lemma find_keys {V} (key : string) (d : list (string * V)) :
  PyDict.find key d = None <-> ~ In key (PyDict.keys d).
Proof.
  unfold PyDict.keys.
  induction d as [|[k v] d IH]; cbn [PyDict.find map fst In]; [tauto|].
  destruct (String.eqb_spec k key) as [->|Hk].
  - split; [discriminate | intros H; exfalso; apply H; now left].
  - rewrite IH. tauto.
Qed.

Lemma set_absent {V} (key : string) (v : V) (d : list (string * V)) :
  ~ In key (PyDict.keys d) -> PyDict.set key v d = d ++ [(key, v)].
Proof.
  unfold PyDict.keys.
  induction d as [|[k old] d IH]; cbn [PyDict.set map fst In app]; [reflexivity|].
  intros H. destruct (String.eqb_spec k key) as [->|Hk].
  - exfalso. apply H. now left.
  - rewrite IH; [reflexivity | tauto].
Qed.

Lemma keys_set_present {V} (key : string) (v : V) (d : list (string * V)) :
  In key (PyDict.keys d) -> PyDict.keys (PyDict.set key v d) = PyDict.keys d.
Proof.
  unfold PyDict.keys.
  induction d as [|[k old] d IH]; cbn [PyDict.set map fst In]; [tauto|].
  intros H. destruct (String.eqb_spec k key) as [->|Hk]; cbn [map fst].
  - reflexivity.
  - rewrite IH; [reflexivity|]. destruct H; congruence.
Qed.

Lemma keys_remove {V} (key : string) (d : list (string * V)) :
  PyDict.keys (PyDict.remove key d)
  = List.filter (fun n => negb (String.eqb n key)) (PyDict.keys d).
Proof.
  unfold PyDict.keys, PyDict.remove.
  induction d as [|[k v] d IH]; cbn [List.filter map fst]; [reflexivity|].
  destruct (String.eqb k key); cbn [negb map fst]; now rewrite IH.
Qed.

Lemma set_settled (key : string) (e : Queries.saved) (d : list (string * Queries.saved)) :
  settled (key, e) -> Forall settled d -> Forall settled (PyDict.set key e d).
Proof.
  intros He. induction 1 as [|[k old] d Hk Hd IH]; cbn [PyDict.set].
  - now repeat constructor.
  - destruct (String.eqb k key); constructor; assumption.
Qed.

Lemma or_else_settled (v : value) :
  PyVal.or_else (PyVal.or_else v (VDict [])) (VDict []) = PyVal.or_else v (VDict []).
Proof.
  unfold PyVal.or_else. destruct (PyVal.truthy v) eqn:E; [now rewrite E | reflexivity].
Qed.

Lemma set_clean (key : string) (e : Queries.saved) (d : list (string * Queries.saved)) :
  key <> "" -> PyStr.strip key = key -> settled (key, e) ->
  clean d -> clean (PyDict.set key e d).
Proof.
  intros Hne Hs He [[Hnd Hn] Hd]. split; [|now apply set_settled].
  destruct (in_dec string_dec key (PyDict.keys d)) as [Hin|Hout].
  - rewrite (keys_set_present _ _ _ Hin). now split.
  - rewrite (set_absent _ _ _ Hout). unfold PyDict.keys. rewrite map_app.
    cbn [map fst]. split.
    + apply NoDup_app. split; [exact Hnd|]. split; [|repeat constructor; apply not_elem_of_nil].
      intros x Hx Hx'. apply list_elem_of_singleton in Hx'. subst x.
      apply Hout. now apply list_elem_of_In.
    + apply Forall_app. split; [exact Hn|]. now repeat constructor.
Qed.

Lemma absorb_clean repr (d : list (string * Queries.saved)) (entry : value) :
  clean d -> clean (Queries.absorb repr d entry).
Proof.
  intros Hd. destruct entry; try exact Hd. cbn [Queries.absorb].
  match goal with |- context [PyStr.nonempty ?n] => destruct (PyStr.nonempty n) eqn:E end;
    cbn [negb]; [|exact Hd].
  apply set_clean; [now apply nonempty_true | apply strip_idempotent | | exact Hd].
  unfold settled. cbn [snd Queries.saved_qualifiers]. apply or_else_settled.
Qed.

Lemma absorb_all_clean repr (entries : list value) (d : list (string * Queries.saved)) :
  clean d -> clean (fold_left (Queries.absorb repr) entries d).
Proof.
  revert d. induction entries as [|entry entries IH]; intros d Hd; cbn [fold_left].
  - exact Hd.
  - apply IH. now apply absorb_clean.
Qed.

Lemma clean_nil : clean [].
Proof. repeat constructor. Qed.

Lemma read_queries_clean repr (path : string) (sys : Sys) data :
  Queries._read_queries repr path sys = Ok data -> clean data.
Proof.
  unfold Queries._read_queries. destruct (files sys !! path) as [[payload| |]|].
  - destruct payload; cbn [PyVal.get of_outcome rbind]; try discriminate.
    match goal with |- context [match ?x with _ => _ end] => destruct x end;
      intros [= <-]; try apply clean_nil.
    apply absorb_all_clean, clean_nil.
  - discriminate.
  - discriminate.
  - intros [= <-]. apply clean_nil.
Qed.

Lemma str_or_empty repr (s : string) :
  PyVal.str repr (PyVal.or_else (VStr s) (VStr "")) = s.
Proof.
  unfold PyVal.or_else. cbn [PyVal.truthy].
  destruct (PyStr.nonempty s) eqn:E; [reflexivity|].
  apply nonempty_false in E. now subst s.
Qed.

Lemma absorb_entry_json repr (d : list (string * Queries.saved)) name e :
  Queries.absorb repr d (Queries.entry_json (name, e))
  = if PyStr.nonempty (PyStr.strip name)
    then PyDict.set (PyStr.strip name)
           {| Queries.saved_query := Queries.saved_query e;
              Queries.saved_qualifiers :=
                PyVal.or_else (Queries.saved_qualifiers e) (VDict []) |} d
    else d.
Proof.
  unfold Queries.entry_json, Queries.absorb.
  cbn [fst snd PyVal.lookup String.eqb Ascii.eqb Bool.eqb].
  rewrite !str_or_empty. now destruct (PyStr.nonempty (PyStr.strip name)).
Qed.

Lemma absorb_settled repr (d : list (string * Queries.saved)) name e :
  name <> "" -> PyStr.strip name = name -> settled (name, e) ->
  Queries.absorb repr d (Queries.entry_json (name, e)) = PyDict.set name e d.
Proof.
  intros Hne Hs He. rewrite absorb_entry_json, Hs.
  apply nonempty_true in Hne. rewrite Hne.
  unfold settled in He. cbn [snd] in He. rewrite He. now destruct e.
Qed.

Lemma reread_from repr (l acc : list (string * Queries.saved)) :
  clean (acc ++ l) ->
  fold_left (Queries.absorb repr) (map Queries.entry_json l) acc = acc ++ l.
Proof.
  revert acc. induction l as [|[name e] l IH]; intros acc Hc; cbn [map fold_left].
  - now rewrite app_nil_r.
  - assert (Hc' : clean ((acc ++ [(name, e)]) ++ l))
      by (rewrite <- app_assoc; exact Hc).
    destruct Hc as [[Hnd Hn] Hd].
    unfold PyDict.keys in Hnd, Hn. rewrite map_app in Hnd, Hn. cbn [map fst] in Hnd, Hn.
    apply NoDup_app in Hnd. destruct Hnd as (_ & Hdis & _).
    apply Forall_app in Hn. destruct Hn as [_ Hn].
    apply Forall_cons in Hn. destruct Hn as [[Hne Hs] _].
    apply Forall_app in Hd. destruct Hd as [_ Hd].
    apply Forall_cons in Hd. destruct Hd as [He _].
    rewrite (absorb_settled _ _ _ _ Hne Hs He).
    rewrite set_absent.
    + rewrite (IH _ Hc'), <- app_assoc. reflexivity.
    + intros Hin. apply (Hdis name).
      * now apply list_elem_of_In.
      * left.
Qed.

Lemma reread repr (data : list (string * Queries.saved)) :
  clean data ->
  fold_left (Queries.absorb repr) (map Queries.entry_json data) [] = data.
Proof. intros Hc. now rewrite reread_from. Qed.

Lemma read_written repr (path : string) items (sys : Sys) :
  Queries._read_queries repr path (Queries._write_queries path items sys)
  = Ok (fold_left (Queries.absorb repr) (map Queries.entry_json items) []).
Proof.
  unfold Queries._read_queries, Queries._write_queries. cbn [files].
  rewrite lookup_insert_eq. reflexivity.
Qed.

Lemma clean_keys_stripped (data : list (string * Queries.saved)) (name : string) :
  clean data -> In name (PyDict.keys data) -> name <> "" /\ PyStr.strip name = name.
Proof.
  intros [[_ Hn] _] Hin. rewrite Forall_forall in Hn. apply Hn.
  now apply list_elem_of_In.
Qed.

Lemma set_keeps_clean (data : list (string * Queries.saved)) name e :
  clean data -> In name (PyDict.keys data) -> settled (name, e) ->
  clean (PyDict.set name e data).
Proof.
  intros Hc Hin He. destruct (clean_keys_stripped _ _ Hc Hin) as [Hne Hs].
  now apply set_clean.
Qed.

Lemma Forall_list_filter {A} (P : A -> Prop) (f : A -> bool) (l : list A) :
  Forall P l -> Forall P (List.filter f l).
Proof.
  induction 1 as [|x l Hx Hl IH]; cbn [List.filter]; [constructor|].
  destruct (f x); [now constructor | exact IH].
Qed.

Lemma remove_clean (data : list (string * Queries.saved)) name :
  clean data -> clean (PyDict.remove name data).
Proof.
  intros [[Hnd Hn] Hd]. split; [split|].
  - rewrite keys_remove. apply NoDup_ListNoDup, List.NoDup_filter.
    now apply NoDup_ListNoDup.
  - rewrite keys_remove. now apply Forall_list_filter.
  - unfold PyDict.remove. now apply Forall_list_filter.
Qed.

(** What a read finds after [data], itself the result of a read, had
    [name] set to [e] and was written. *)
Lemma read_after_set repr (path : string) (sys : Sys) data name e :
  clean data -> settled (name, e) ->
  Queries._read_queries repr path
    (Queries._write_queries path (PyDict.set name e data) sys)
  = Ok (if PyStr.nonempty (PyStr.strip name)
        then PyDict.set (PyStr.strip name) e data else data).
Proof.
  intros Hc He. rewrite read_written. f_equal.
  destruct (in_dec string_dec name (PyDict.keys data)) as [Hin|Hout].
  - destruct (clean_keys_stripped _ _ Hc Hin) as [Hne Hs].
    rewrite Hs. apply nonempty_true in Hne. rewrite Hne.
    apply reread. now apply set_keeps_clean.
  - rewrite (set_absent _ _ _ Hout), map_app, fold_left_app.
    rewrite (reread _ _ Hc). cbn [map fold_left].
    rewrite absorb_entry_json. unfold settled in He. cbn [snd] in He. rewrite He.
    now destruct e.
Qed.

(** One saved query and the spec made of it. *)
Local Abbreviation made repr :=
  (fun (item : string * Queries.saved) (out : string * QuerySpec) =>
     fst out = fst item /\ spec_of repr (snd item) = Ok (snd out)).

Lemma specs_loop_ok repr (selected : list (string * Queries.saved)) :
  forall specs outs,
    Forall2 (made repr) selected outs ->
    Queries.specs_loop repr specs selected = Ok (specs ++ outs).
Proof.
  induction selected as [|[name entry] rest IH]; intros specs outs HF;
    inversion HF as [|? [name' spec] ? outs' [Hname Hspec] HF']; subst;
    cbn [Queries.specs_loop].
  - now rewrite app_nil_r.
  - cbn [fst snd] in Hname, Hspec. subst name'. unfold spec_of in Hspec.
    destruct (Queries.qualifier_items repr _) as [quals|e];
      cbn [of_outcome rbind] in Hspec |- *; [|discriminate].
    injection Hspec as <-. rewrite (IH _ _ HF'), <- app_assoc. reflexivity.
Qed.

Lemma specs_loop_inv repr (selected : list (string * Queries.saved)) :
  forall specs result,
    Queries.specs_loop repr specs selected = Ok result ->
    exists outs, result = specs ++ outs /\ Forall2 (made repr) selected outs.
Proof.
  induction selected as [|[name entry] rest IH]; intros specs result H;
    cbn [Queries.specs_loop] in H.
  - injection H as <-. exists []. rewrite app_nil_r. split; [reflexivity | constructor].
  - destruct (Queries.qualifier_items repr _) as [quals|e] eqn:E;
      cbn [of_outcome rbind] in H; [|discriminate].
    destruct (IH _ _ H) as (outs & -> & HF).
    exists ((name, mkQuerySpec (Queries.saved_query entry) quals) :: outs).
    rewrite <- app_assoc. split; [reflexivity|]. constructor; [|exact HF].
    cbn [fst snd]. split; [reflexivity|]. unfold spec_of. now rewrite E.
Qed.

Lemma made_names repr selected outs :
  Forall2 (made repr) selected outs -> map fst outs = map fst selected.
Proof.
  induction 1 as [|item out selected outs [Hn _] _ IH]; cbn [map]; [reflexivity|].
  now rewrite Hn, IH.
Qed.

Lemma made_find repr data all (name : string) :
  Forall2 (made repr) data all ->
  match PyDict.find name data with
  | Some entry => exists spec, PyDict.find name all = Some spec
                               /\ spec_of repr entry = Ok spec
  | None => PyDict.find name all = None
  end.
Proof.
  induction 1 as [|[k entry] [k' spec] data all [Hn Hs] _ IH];
    cbn [PyDict.find]; [reflexivity|].
  cbn [fst snd] in Hn, Hs. subst k'.
  destruct (String.eqb k name); [|exact IH]. now exists spec.
Qed.

Lemma made_pick repr data all (names : list string) :
  Forall2 (made repr) data all ->
  Forall2 (made repr) (pick data names) (pick all names).
Proof.
  intros HF. unfold pick.
  induction names as [|name names IH]; cbn [flat_map]; [constructor|].
  apply Forall2_app; [|exact IH].
  pose proof (made_find repr data all name HF) as H.
  destruct (PyDict.find name data) as [entry|].
  - destruct H as (spec & -> & Hs). now repeat constructor.
  - rewrite H. constructor.
Qed.

Lemma pick_names {V} (data : list (string * V)) (names : list string) :
  Forall (fun name => In name (PyDict.keys data)) (map fst (pick data names)).
Proof.
  unfold pick. induction names as [|name names IH]; cbn [flat_map map]; [constructor|].
  rewrite map_app. apply Forall_app. split; [|exact IH].
  destruct (PyDict.find name data) eqn:E; cbn [map fst]; [|constructor].
  repeat constructor.
  destruct (in_dec string_dec name (PyDict.keys data)) as [Hin|Hout]; [exact Hin|].
  apply find_keys in Hout. congruence.
Qed.

Lemma get_query_specs_read repr default names path sys data :
  Queries._read_queries repr (Config.path_or path default) sys = Ok data ->
  Queries.get_query_specs repr default names path sys
  = Queries.specs_loop repr []
      match names with
      | None => data
      | Some names => pick data (desired names)
      end.
Proof. intros R. unfold Queries.get_query_specs. rewrite R. reflexivity. Qed.

(** X18. The names that [list_queries] returns are distinct, not empty and
    without whitespace at either end, whatever the file of saved queries
    holds.  Every spec that [get_query_specs] returns bears one of these
    names, and without a selection of names it returns one spec for each
    of them, in the same order. *)
Theorem listed_names_clean repr default path sys listed :
  Queries.list_queries repr default path sys = Ok listed ->
  clean_names listed
  /\ forall names specs,
       Queries.get_query_specs repr default names path sys = Ok specs ->
       Forall (fun spec => In (fst spec) listed) specs
       /\ (names = None -> map fst specs = listed).
Proof.
  unfold Queries.list_queries.
  destruct (Queries._read_queries repr (Config.path_or path default) sys)
    as [data|e] eqn:R; cbn [rbind]; [|discriminate].
  intros [= <-]. split; [apply (read_queries_clean _ _ _ _ R)|].
  intros names specs H. rewrite (get_query_specs_read _ _ _ _ _ _ R) in H.
  apply specs_loop_inv in H. destruct H as (outs & -> & HF). cbn [app].
  apply made_names in HF. split.
  - apply Forall_forall. intros spec Hin.
    assert (Hn : In (fst spec) (map fst outs))
      by (apply in_map, list_elem_of_In, Hin).
    rewrite HF in Hn. destruct names as [names|]; [|exact Hn].
    pose proof (pick_names data (desired names)) as Hp.
    rewrite Forall_forall in Hp. apply Hp. now apply list_elem_of_In.
  - intros ->. exact HF.
Qed.

Lemma listed_names_clean_witness :
  Queries.list_queries Scenario.plain_repr "unused" (Some SampleQueries.path)
    SampleQueries.two
  = Ok ["leaks"; "races"]
  /\ clean_names ["leaks"; "races"].
Proof.
  split; [reflexivity|].
  apply (listed_names_clean Scenario.plain_repr "unused" (Some SampleQueries.path)
           SampleQueries.two ["leaks"; "races"] eq_refl).
Defined.

(** X19. Selecting saved queries by name agrees with taking them all.
    When [get_query_specs] without names returns [all], then with a list of
    names it returns, for each name of the list that is not blank and whose
    stripped form is a saved name, the spec that [all] has under that name:
    in the order of the list, once for each time the name is given.  Names
    that are not saved are passed over without an error. *)
Theorem get_query_specs_selects repr default path sys all :
  Queries.get_query_specs repr default None path sys = Ok all ->
  forall names,
    Queries.get_query_specs repr default (Some names) path sys
    = Ok (pick all (desired names)).
Proof.
  intros H names.
  destruct (Queries._read_queries repr (Config.path_or path default) sys)
    as [data|e] eqn:R.
  - rewrite (get_query_specs_read _ _ None _ _ _ R) in H.
    rewrite (get_query_specs_read _ _ (Some names) _ _ _ R).
    apply specs_loop_inv in H. destruct H as (outs & -> & HF). cbn [app].
    apply (specs_loop_ok repr _ [] _). now apply made_pick.
  - unfold Queries.get_query_specs in H. rewrite R in H. discriminate.
Qed.

Lemma get_query_specs_selects_witness :
  Queries.get_query_specs Scenario.plain_repr "unused"
    (Some [" races "; "nope"; "  "; "leaks"; "races"]) (Some SampleQueries.path)
    SampleQueries.two
  = Ok [("races", mkQuerySpec "data race" [("language", "go"); ("stars", "10")]);
        ("leaks", mkQuerySpec "memory leak" []);
        ("races", mkQuerySpec "data race" [("language", "go"); ("stars", "10")])].
Proof.
  apply (get_query_specs_selects Scenario.plain_repr "unused" (Some SampleQueries.path)
           SampleQueries.two
           [("leaks", mkQuerySpec "memory leak" []);
            ("races", mkQuerySpec "data race" [("language", "go"); ("stars", "10")])]
           eq_refl).
Defined.

Lemma qualifiers_value_settled name query quals :
  settled (name, {| Queries.saved_query := query;
                    Queries.saved_qualifiers := Queries.qualifiers_value quals |}).
Proof.
  unfold settled. cbn [snd Queries.saved_qualifiers].
  destruct quals as [[|kv more]|]; reflexivity.
Qed.

Lemma spec_of_saved repr query quals :
  spec_of repr {| Queries.saved_query := query;
                  Queries.saved_qualifiers := Queries.qualifiers_value quals |}
  = Ok (mkQuerySpec query (given quals)).
Proof.
  unfold spec_of. cbn [Queries.saved_query Queries.saved_qualifiers].
  destruct quals as [[|kv more]|]; try reflexivity.
  cbn [Queries.qualifiers_value given PyVal.or_else PyVal.truthy map
       Queries.qualifier_items of_outcome rbind].
  do 2 f_equal. cbn [fst snd PyVal.str]. f_equal.
  - now destruct kv.
  - induction more as [|[k v] more IH]; cbn [map fst snd PyVal.str]; [reflexivity|].
    now rewrite IH.
Qed.

Lemma desired_one (name : string) :
  desired [name] = if PyStr.nonempty (PyStr.strip name) then [PyStr.strip name] else [].
Proof.
  unfold desired. cbn [List.filter].
  now destruct (PyStr.nonempty (PyStr.strip name)).
Qed.





(** X22. A file of saved queries that cannot be used.  When the text of
    the file is not valid JSON, listing, fetching, saving and deleting all
    fail with the decoder's own error; when the file is not UTF-8 text they
    all fail with the [UnicodeDecodeError] of the read; and when it holds
    JSON other than an object they all fail with an [AttributeError]; in
    all three cases nothing is written.  When the file holds an object whose [queries] entry is
    missing or is not a list, or when there is no file, no query is listed
    and a deletion returns [False]. *)
Theorem unusable_queries_file repr default path sys :
  let file := Config.path_or path default in
  let fails (e : exn) :=
    Queries.list_queries repr default path sys = Err (Builtin e)
    /\ (forall names,
          Queries.get_query_specs repr default names path sys = Err (Builtin e))
    /\ (forall name query quals,
          Queries.save_query repr default name query quals path sys
          = (Err (Builtin e), sys))
    /\ (forall name,
          Queries.delete_query repr default name path sys = (Err (Builtin e), sys)) in
  let empty :=
    Queries.list_queries repr default path sys = Ok []
    /\ (forall names, Queries.get_query_specs repr default names path sys = Ok [])
    /\ (forall name,
          Queries.delete_query repr default name path sys = (Ok false, sys)) in
  (files sys !! file = Some NotJson -> fails JSONDecodeError)
  /\ (files sys !! file = Some NotUtf8 -> fails UnicodeDecodeError)
  /\ (forall doc,
        files sys !! file = Some (Json doc) ->
        (forall fields, doc <> VDict fields) -> fails AttributeError)
  /\ (forall fields,
        files sys !! file = Some (Json (VDict fields)) ->
        (forall entries, PyVal.lookup "queries" fields <> Some (VList entries)) ->
        empty)
  /\ (files sys !! file = None -> empty).
Proof.
  intros file fails empty.
  assert (Hfails : forall e,
             Queries._read_queries repr file sys = Err (Builtin e) -> fails e).
  { intros e R. unfold fails, Queries.list_queries, Queries.get_query_specs,
      Queries.save_query, Queries.delete_query. fold file. cbv zeta. rewrite R.
    repeat split; reflexivity. }
  assert (Hempty : Queries._read_queries repr file sys = Ok [] -> empty).
  { intros R. unfold empty, Queries.list_queries, Queries.delete_query. fold file.
    cbv zeta. rewrite R. split; [reflexivity|]. split; [|reflexivity].
    intros names. rewrite (get_query_specs_read _ _ _ _ _ _ R).
    destruct names as [names|]; [|reflexivity].
    unfold pick. induction (desired names) as [|n l IH]; [reflexivity | exact IH]. }
  split; [|split; [|split; [|split]]].
  - intros F. apply Hfails. unfold Queries._read_queries. now rewrite F.
  - intros F. apply Hfails. unfold Queries._read_queries. now rewrite F.
  - intros doc F Hdoc. apply Hfails. unfold Queries._read_queries. rewrite F.
    destruct doc as [| | | | | |fields]; try reflexivity. now destruct (Hdoc fields).
  - intros fields F Hq. apply Hempty. unfold Queries._read_queries. rewrite F.
    cbn [PyVal.get of_outcome rbind].
    destruct (PyVal.lookup "queries" fields) as [[| | | | |entries|]|];
      try reflexivity.
    now destruct (Hq entries).
  - intros F. apply Hempty. unfold Queries._read_queries. now rewrite F.
Qed.

Lemma unusable_queries_file_witness :
  Queries.list_queries Scenario.plain_repr "unused" (Some SampleQueries.path)
    SampleQueries.garbled
  = Err (Builtin JSONDecodeError)
  /\ Queries.list_queries Scenario.plain_repr "unused" (Some SampleQueries.path)
       SampleQueries.binary
     = Err (Builtin UnicodeDecodeError).
Proof.
  split.
  - pose proof (unusable_queries_file Scenario.plain_repr "unused"
                  (Some SampleQueries.path) SampleQueries.garbled) as H.
    cbv zeta in H. destruct H as (H & _). destruct (H eq_refl) as (H1 & _).
    exact H1.
  - pose proof (unusable_queries_file Scenario.plain_repr "unused"
                  (Some SampleQueries.path) SampleQueries.binary) as H.
    cbv zeta in H. destruct H as (_ & H & _). destruct (H eq_refl) as (H1 & _).
    exact H1.
Defined.

(** ** The handlers for saved queries *)

Lemma keys_set_nodup {V} (key : string) (v : V) (d : list (string * V)) :
  NoDup (PyDict.keys d) -> NoDup (PyDict.keys (PyDict.set key v d)).
Proof.
  intros Hnd. destruct (in_dec string_dec key (PyDict.keys d)) as [Hin|Hout].
  - now rewrite keys_set_present.
  - rewrite (set_absent _ _ _ Hout). unfold PyDict.keys. rewrite map_app.
    cbn [map fst]. apply NoDup_app. split; [exact Hnd|]. split.
    + intros x Hx Hx'. apply list_elem_of_singleton in Hx'. subst x.
      apply Hout. now apply list_elem_of_In.
    + repeat constructor. apply not_elem_of_nil.
Qed.

Lemma dict_from_nodup (pairs d : list (string * string)) :
  NoDup (PyDict.keys d) ->
  NoDup (PyDict.keys
           (fold_left (fun d kv => PyDict.set (fst kv) (snd kv) d) pairs d)).
Proof.
  revert d. induction pairs as [|kv pairs IH]; intros d Hd; cbn [fold_left].
  - exact Hd.
  - apply IH. now apply keys_set_nodup.
Qed.

Lemma find_app {V} (key : string) (a b : list (string * V)) :
  PyDict.find key (a ++ b)
  = match PyDict.find key a with
    | Some v => Some v
    | None => PyDict.find key b
    end.
Proof.
  induction a as [|[k v] a IH]; cbn [app PyDict.find]; [reflexivity|].
  now destruct (String.eqb k key).
Qed.

Lemma dict_from_find (key : string) (pairs d : list (string * string)) :
  PyDict.find key (fold_left (fun d kv => PyDict.set (fst kv) (snd kv) d) pairs d)
  = match PyDict.find key (rev pairs) with
    | Some v => Some v
    | None => PyDict.find key d
    end.
Proof.
  revert d. induction pairs as [|[k v] pairs IH]; intros d; cbn [fold_left rev].
  - reflexivity.
  - rewrite IH, find_app. cbn [fst snd PyDict.find].
    destruct (PyDict.find key (rev pairs)); [reflexivity|].
    destruct (String.eqb_spec k key) as [->|Hk].
    + apply find_set_same.
    + apply find_set_other. congruence.
Qed.

Lemma save_query_eq repr default name query quals path sys data :
  Queries._read_queries repr (Config.path_or path default) sys = Ok data ->
  Queries.save_query repr default name query quals path sys
  = (Ok tt,
     Queries._write_queries (Config.path_or path default)
       (PyDict.set name
          {| Queries.saved_query := query;
             Queries.saved_qualifiers := Queries.qualifiers_value quals |} data)
       sys).
Proof. intros R. unfold Queries.save_query. cbv zeta. now rewrite R. Qed.

Lemma delete_query_eq repr default name path sys data :
  Queries._read_queries repr (Config.path_or path default) sys = Ok data ->
  Queries.delete_query repr default name path sys
  = match PyDict.find name data with
    | None => (Ok false, sys)
    | Some _ =>
        (Ok true,
         Queries._write_queries (Config.path_or path default)
           (PyDict.remove name data) sys)
    end.
Proof. intros R. unfold Queries.delete_query. cbv zeta. now rewrite R. Qed.

Lemma read_after_remove repr (path : string) (sys : Sys) data name :
  clean data ->
  Queries._read_queries repr path
    (Queries._write_queries path (PyDict.remove name data) sys)
  = Ok (PyDict.remove name data).
Proof.
  intros Hc. rewrite read_written. f_equal. apply reread. now apply remove_clean.
Qed.

Lemma fetch_saved repr default name query quals path sys data :
  PyStr.strip name <> "" ->
  Queries._read_queries repr (Config.path_or path default) sys
  = Ok (PyDict.set (PyStr.strip name)
          {| Queries.saved_query := query;
             Queries.saved_qualifiers := Queries.qualifiers_value quals |} data) ->
  Queries.get_query_specs repr default (Some [name]) path sys
  = Ok [(PyStr.strip name, mkQuerySpec query (given quals))].
Proof.
  intros Hne R. rewrite (get_query_specs_read _ _ _ _ _ _ R).
  apply nonempty_true in Hne. rewrite desired_one, Hne.
  unfold pick. cbn [flat_map]. rewrite find_set_same. cbn [app Queries.specs_loop].
  pose proof (spec_of_saved repr query quals) as Hs. unfold spec_of in Hs.
  destruct (Queries.qualifier_items repr _) as [qs|e];
    cbn [of_outcome rbind] in Hs |- *; [|discriminate].
  injection Hs as <-. reflexivity.
Qed.



Lemma named_keys {V} (data : list (string * V)) (name : string) :
  named (PyDict.keys data) name = false <-> PyDict.find name data = None.
Proof.
  unfold named, PyDict.keys.
  induction data as [|[k v] data IH]; cbn [map fst existsb PyDict.find]; [tauto|].
  rewrite String.eqb_sym. destruct (String.eqb k name); cbn [orb]; [|exact IH].
  split; discriminate.
Qed.

Lemma keys_filter {V} (f : string -> bool) (data : list (string * V)) :
  PyDict.keys (List.filter (fun kv => f (fst kv)) data)
  = List.filter f (PyDict.keys data).
Proof.
  unfold PyDict.keys.
  induction data as [|[k v] data IH]; cbn [List.filter map fst]; [reflexivity|].
  destruct (f k); cbn [map fst]; now rewrite IH.
Qed.

Lemma named_cons (name : string) (rest : list string) (k : string) :
  named (name :: rest) k = String.eqb k name || named rest k.
Proof. reflexivity. Qed.

Lemma filter_absent {V} (rest : list string) (name : string) (data : list (string * V)) :
  PyDict.find name data = None ->
  List.filter (fun kv => negb (named (name :: rest) (fst kv))) data
  = List.filter (fun kv => negb (named rest (fst kv))) data.
Proof.
  induction data as [|[k v] data IH]; cbn [List.filter PyDict.find fst];
    [reflexivity|].
  rewrite named_cons. destruct (String.eqb k name); [discriminate|]. intros H.
  cbn [orb]. now rewrite (IH H).
Qed.

Lemma filter_removed {V} (rest : list string) (name : string) (data : list (string * V)) :
  List.filter (fun kv => negb (named rest (fst kv))) (PyDict.remove name data)
  = List.filter (fun kv => negb (named (name :: rest) (fst kv))) data.
Proof.
  unfold PyDict.remove.
  induction data as [|[k v] data IH]; cbn [List.filter fst]; [reflexivity|].
  rewrite named_cons.
  destruct (String.eqb k name); cbn [negb orb List.filter fst]; [exact IH|].
  now rewrite IH.
Qed.

Lemma filter_none {V} (data : list (string * V)) :
  List.filter (fun kv => negb (named [] (fst kv))) data = data.
Proof.
  induction data as [|kv data IH]; cbn [List.filter]; [reflexivity|].
  change (named [] (fst kv)) with false. cbn [negb]. now rewrite IH.
Qed.

Lemma remove_loop_spec repr default (names : list string) :
  forall removed host data,
    Queries._read_queries repr default (Cli.host_sys host) = Ok data ->
    exists (k : Z) lines sys,
      Cli.remove_loop repr default names removed host
      = (Ok (removed + k)%Z,
         {| Cli.host_sys := sys; Cli.printed := Cli.printed host ++ lines |})
      /\ (0 <= k)%Z
      /\ (k = 0%Z <-> existsb (named (PyDict.keys data)) names = false)
      /\ Queries._read_queries repr default sys
         = Ok (List.filter (fun kv => negb (named names (fst kv))) data)
      /\ environ sys = environ (Cli.host_sys host)
      /\ (forall other, other <> default ->
                        files sys !! other = files (Cli.host_sys host) !! other)
      /\ Forall2 remove_line names lines.
Proof.
  induction names as [|name rest IH]; intros removed host data R;
    cbn [Cli.remove_loop].
  - exists 0%Z, [], (Cli.host_sys host).
    rewrite Z.add_0_r, app_nil_r, filter_none. destruct host as [sys out].
    cbn [Cli.host_sys Cli.printed existsb].
    repeat split; try assumption; try reflexivity; try lia. constructor.
  - rewrite (delete_query_eq repr default name None _ data R).
    destruct (PyDict.find name data) as [entry|] eqn:F.
    + set (sys1 := Queries._write_queries default (PyDict.remove name data)
                     (Cli.host_sys host)).
      set (host1 := Cli.print (Cli.removed_line name)
                      {| Cli.host_sys := sys1; Cli.printed := Cli.printed host |}).
      assert (R1 : Queries._read_queries repr default (Cli.host_sys host1)
                   = Ok (PyDict.remove name data)).
      { apply read_after_remove. apply (read_queries_clean _ _ _ _ R). }
      destruct (IH (removed + 1)%Z host1 _ R1)
        as (k & lines & sys & E & Hk & _ & Rk & He & Hf & HF).
      exists (1 + k)%Z, (Cli.removed_line name :: lines), sys.
      cbn [Config.path_or]. fold sys1. fold host1. rewrite E.
      split; [|split; [lia|split; [|split; [|split; [|split]]]]].
      * f_equal; [f_equal; lia|]. f_equal. subst host1.
        cbn [Cli.print Cli.printed]. now rewrite <- app_assoc.
      * cbn [existsb].
        assert (Hn : named (PyDict.keys data) name = true).
        { destruct (named (PyDict.keys data) name) eqn:N; [reflexivity|].
          apply named_keys in N. congruence. }
        rewrite Hn. cbn [orb]. split; [lia | discriminate].
      * rewrite Rk. now rewrite filter_removed.
      * exact He.
      * intros other Hne. rewrite (Hf other Hne). subst host1 sys1.
        cbn [Cli.print Cli.host_sys Queries._write_queries files].
        now apply lookup_insert_ne.
      * constructor; [now left | exact HF].
    + set (host1 := Cli.print (Cli.not_found_line name)
                      {| Cli.host_sys := Cli.host_sys host;
                         Cli.printed := Cli.printed host |}).
      assert (R1 : Queries._read_queries repr default (Cli.host_sys host1) = Ok data)
        by exact R.
      destruct (IH removed host1 _ R1)
        as (k & lines & sys & E & Hk & Hz & Rk & He & Hf & HF).
      exists k, (Cli.not_found_line name :: lines), sys. rewrite E.
      split; [|split; [exact Hk|split; [|split; [|split; [|split]]]]].
      * f_equal. f_equal. subst host1. cbn [Cli.print Cli.printed].
        now rewrite <- app_assoc.
      * cbn [existsb]. apply named_keys in F. rewrite F. exact Hz.
      * rewrite Rk. now rewrite filter_absent.
      * exact He.
      * exact Hf.
      * constructor; [now right | exact HF].
Qed.



(** ** The handlers that search *)

Lemma searched_same token specs per_page pages (w : World) :
  searched token specs per_page pages w w.
Proof.
  exists []. rewrite app_nil_r. change (requests_of []) with (@nil Request).
  split; [reflexivity|]. split; [constructor | cbn [length]; lia].
Qed.

Lemma sent_for_more token spec rest per_page (r : Request) :
  sent_for token rest per_page r -> sent_for token (spec :: rest) per_page r.
Proof.
  intros (Ha & Hp & s & Hin & Hq). split; [exact Ha|]. split; [exact Hp|].
  exists s. split; [now right | exact Hq].
Qed.

Lemma sent_for_first token spec rest per_page (r : Request) :
  sent_for token [spec] per_page r -> sent_for token (spec :: rest) per_page r.
Proof.
  intros (Ha & Hp & s & [<-|[]] & Hq). split; [exact Ha|]. split; [exact Hp|].
  exists spec. split; [now left | exact Hq].
Qed.

Lemma searched_first token spec rest per_page pages (w w' : World) :
  searched token [spec] per_page pages w w' ->
  searched token (spec :: rest) per_page pages w w'.
Proof.
  intros (evs & Ht & HF & Hn). exists evs. split; [exact Ht|]. split.
  - eapply List.Forall_impl; [|exact HF]. intros r. apply sent_for_first.
  - cbn [length] in Hn |- *. nia.
Qed.

Lemma searched_cons token spec rest per_page pages (w w1 w2 : World) :
  searched token [spec] per_page pages w w1 ->
  searched token rest per_page pages w1 w2 ->
  searched token (spec :: rest) per_page pages w w2.
Proof.
  intros (evs1 & Ht1 & HF1 & Hn1) (evs2 & Ht2 & HF2 & Hn2).
  exists (evs1 ++ evs2). split; [now rewrite Ht2, Ht1, app_assoc|].
  rewrite requests_of_app. split.
  - apply Forall_app. split.
    + eapply List.Forall_impl; [|exact HF1]. intros r. apply sent_for_first.
    + eapply List.Forall_impl; [|exact HF2]. intros r. apply sent_for_more.
  - rewrite length_app. cbn [length] in Hn1 |- *. nia.
Qed.

Lemma search_on_searched remote repr fresh token spec per_page pages (stage : Stage) :
  searched token [spec] per_page pages (stage_world stage)
    (stage_world (snd (search_on remote repr (new_client fresh token) spec
                         per_page pages stage))).
Proof.
  unfold search_on. cbn [snd stage_world].
  set (w := stage_world stage).
  destruct (search_code remote repr (new_client fresh token) spec per_page pages
              true w) as [o w'] eqn:E.
  cbn [snd].
  pose proof (page_loop_bounds remote repr (new_client fresh token) spec per_page
                (header_set "Accept" TEXT_MATCH ∅) (range 1 (pages + 1)) [] w)
    as (evs' & Ht' & Hn' & _).
  unfold search_code in E. cbv zeta in E. rewrite E in Ht'. cbn [snd] in Ht'.
  apply page_loop_trace in E as (evs & Ht & HF).
  assert (evs' = evs) as -> by (apply (app_inv_head (trace w)); congruence).
  exists evs. split; [exact Ht|]. split.
  - eapply List.Forall_impl; [|exact HF].
    intros r (p & _ & ->). split; [|split].
    + apply (init_authorization fresh token DEFAULT_BASE_URL "BugZero/0.1" None true).
    + reflexivity.
    + exists spec. split; [now left | reflexivity].
  - rewrite range_length in Hn'. replace (pages + 1 - 1)%Z with pages in Hn' by lia.
    cbn [length]. lia.
Qed.

Lemma render_on_world render_results results mode (stage : Stage) :
  stage_world (snd (render_on render_results results mode stage)) = stage_world stage.
Proof. unfold render_on. now destruct (snd (render_results results mode)). Qed.

Lemma dump_on_world json_dump payload (stage : Stage) :
  stage_world (snd (dump_on json_dump payload stage)) = stage_world stage.
Proof. unfold dump_on. now destruct (snd (json_dump (VList payload))). Qed.

Section Loops.

Variable remote : list Event -> Request -> Reply.
Variable repr : value -> string.
Variable fresh : Session.
Variable render_results : list SearchResult -> string -> list string * option exn.
Variable token : string.

Local Abbreviation client := (new_client fresh token).

Lemma search_json_loop_searched (args : SearchArgs) (specs : list QuerySpec) :
  forall payload stage,
    searched token specs (search_per_page args) (search_pages args)
      (stage_world stage)
      (stage_world (snd (search_json_loop remote repr client args specs payload stage))).
Proof.
  induction specs as [|spec rest IH]; intros payload stage;
    cbn [search_json_loop].
  - apply searched_same.
  - pose proof (search_on_searched remote repr fresh token spec
                  (search_per_page args) (search_pages args) stage) as H.
    destruct (search_on remote repr client spec (search_per_page args)
                (search_pages args) stage) as [[results|e] stage1].
    + cbn [snd] in H. eapply searched_cons; [exact H | apply IH].
    + cbn [snd] in H |- *. now apply searched_first.
Qed.

Lemma search_table_loop_searched (args : SearchArgs) (many : bool)
    (specs : list QuerySpec) :
  forall idx stage,
    searched token specs (search_per_page args) (search_pages args)
      (stage_world stage)
      (stage_world (snd (search_table_loop remote repr render_results client args
                           many idx specs stage))).
Proof.
  induction specs as [|spec rest IH]; intros idx stage;
    cbn [search_table_loop].
  - apply searched_same.
  - match goal with
    | |- context [search_on _ _ _ _ _ _ ?s] => set (stage0 := s)
    end.
    assert (W : stage_world stage0 = stage_world stage)
      by (subst stage0; now destruct many).
    rewrite <- W.
    pose proof (search_on_searched remote repr fresh token spec
                  (search_per_page args) (search_pages args) stage0) as H.
    destruct (search_on remote repr client spec (search_per_page args)
                (search_pages args) stage0) as [[results|e] stage1].
    + cbn [snd] in H.
      pose proof (render_on_world render_results results (search_output args) stage1)
        as R.
      destruct (render_on render_results results (search_output args) stage1)
        as [[u|e] stage2]; cbn [snd] in R.
      * eapply searched_cons; [exact H|]. rewrite <- R. apply IH.
      * cbn [snd]. rewrite R. now apply searched_first.
    + cbn [snd] in H |- *. now apply searched_first.
Qed.

Lemma sweep_json_loop_searched (args : SweepArgs) (extra : list Qualifier)
    (specs : list (string * QuerySpec)) :
  forall payload stage,
    searched token (map (fun item => merged_with extra (snd item)) specs)
      (sweep_per_page args) (sweep_pages args)
      (stage_world stage)
      (stage_world (snd (sweep_json_loop remote repr client args extra specs
                           payload stage))).
Proof.
  induction specs as [|[name spec] rest IH]; intros payload stage;
    cbn [sweep_json_loop map snd].
  - apply searched_same.
  - pose proof (search_on_searched remote repr fresh token (merged_with extra spec)
                  (sweep_per_page args) (sweep_pages args) stage) as H.
    destruct (search_on remote repr client (merged_with extra spec)
                (sweep_per_page args) (sweep_pages args) stage)
      as [[results|e] stage1].
    + cbn [snd] in H. eapply searched_cons; [exact H | apply IH].
    + cbn [snd] in H |- *. now apply searched_first.
Qed.

Lemma sweep_table_loop_searched (args : SweepArgs) (extra : list Qualifier)
    (specs : list (string * QuerySpec)) :
  forall stage,
    searched token (map (fun item => merged_with extra (snd item)) specs)
      (sweep_per_page args) (sweep_pages args)
      (stage_world stage)
      (stage_world (snd (sweep_table_loop remote repr render_results client args
                           extra specs stage))).
Proof.
  induction specs as [|[name spec] rest IH]; intros stage;
    cbn [sweep_table_loop map snd].
  - apply searched_same.
  - match goal with
    | |- context [search_on _ _ _ _ _ _ ?s] => set (stage0 := s)
    end.
    change (stage_world stage) with (stage_world stage0).
    pose proof (search_on_searched remote repr fresh token (merged_with extra spec)
                  (sweep_per_page args) (sweep_pages args) stage0) as H.
    destruct (search_on remote repr client (merged_with extra spec)
                (sweep_per_page args) (sweep_pages args) stage0)
      as [[results|e] stage1].
    + cbn [snd] in H.
      pose proof (render_on_world render_results results (sweep_output args) stage1)
        as R.
      destruct (render_on render_results results (sweep_output args) stage1)
        as [[u|e] stage2]; cbn [snd] in R.
      * eapply searched_cons; [exact H|]. rewrite <- R. apply IH.
      * cbn [snd]. rewrite R. now apply searched_first.
    + cbn [snd] in H |- *. now apply searched_first.
Qed.

End Loops.




